(** * pdfscale: format resolution and per-page rescaling

    A shallow embedding of [pdfscale.py].  The program resolves a paper
    format given as text ([get_format], [iso216_format]) and rescales every
    page of a PDF document to it ([scale]).

    All of the program's arithmetic is done with Python's [decimal.Decimal]
    under the default context (28 significant digits, ROUND_HALF_EVEN,
    Emax = 999999, Emin = -999999, traps on InvalidOperation, DivisionByZero
    and Overflow).  The module [Decimal] below models that library: a
    number is a sign, an integer coefficient and a decimal exponent, and
    every operation computes the exact result and rounds it as the context
    prescribes.

    Strings are sequences of code points below 256 ([list ascii], read as
    Latin-1); [str.lower], [str.strip] and the numeric parsers are modelled
    on that range. *)

From Stdlib Require Import ZArith NArith QArith Qabs Qpower Bool List Ascii
  String Lia Lqa.
Import ListNotations.

Local Open Scope Z_scope.

(* ================================================================= *)
(** ** Exceptions *)

(** The exceptions the modelled code can raise. *)
Inductive exn : Type :=
| InvalidOperation   (* decimal.InvalidOperation (also ConversionSyntax) *)
| DivisionByZero     (* decimal.DivisionByZero *)
| Overflow           (* decimal.Overflow *)
| ValueError
| IndexError
| KeyError.

Inductive result (A : Type) : Type :=
| Ok (a : A)
| Raise (e : exn).

Arguments Ok {A} a.
Arguments Raise {A} e.

Definition bind {A B : Type} (m : result A) (k : A -> result B) : result B :=
  match m with
  | Ok a => k a
  | Raise e => Raise e
  end.

Notation "x <- m ;; k" := (bind m (fun x => k))
  (at level 61, m at next level, right associativity).
Notation "' p <- m ;; k" := (bind m (fun x => match x with p => k end))
  (at level 61, p pattern, m at next level, right associativity).

(* ================================================================= *)
(** ** Python strings *)

Module Str.

Definition str := list ascii.

(** A string literal of the source. *)
Definition lit (s : string) : str := list_ascii_of_string s.

Definition code (c : ascii) : N := N_of_ascii c.

Definition in_range (lo hi : N) (c : ascii) : bool :=
  ((lo <=? code c) && (code c <=? hi))%N.

(** [str.isspace] on one character: TAB..CR, FS..US, space, NEL, NBSP. *)
Definition isspace (c : ascii) : bool :=
  in_range 9 13 c || in_range 28 32 c
  || (code c =? 133)%N || (code c =? 160)%N.

(** Decimal digits (category Nd): only '0'..'9' below 256. *)
Definition isdigit (c : ascii) : bool := in_range 48 57 c.

Definition digit_val (c : ascii) : N := (code c - 48)%N.

(** Upper-case letters below 256: A-Z, and U+00C0..U+00DE except U+00D7. *)
Definition isupper (c : ascii) : bool :=
  in_range 65 90 c || in_range 192 214 c || in_range 216 222 c.

Definition lower_char (c : ascii) : ascii :=
  if isupper c then ascii_of_N (code c + 32) else c.

(** [s.lower()] *)
Definition lower (s : str) : str := map lower_char s.

Fixpoint dropwhile (p : ascii -> bool) (s : str) : str :=
  match s with
  | [] => []
  | c :: r => if p c then dropwhile p r else s
  end.

Fixpoint takewhile (p : ascii -> bool) (s : str) : str :=
  match s with
  | [] => []
  | c :: r => if p c then c :: takewhile p r else []
  end.

(** [s.lstrip()], [s.rstrip()], [s.strip()] *)
Definition lstrip (s : str) : str := dropwhile isspace s.
Definition rstrip (s : str) : str := rev (dropwhile isspace (rev s)).
Definition strip (s : str) : str := rstrip (lstrip s).

(** [s.startswith(prefix)] *)
Fixpoint startswith (s prefix : str) {struct prefix} : bool :=
  match prefix with
  | [] => true
  | p :: prefix' =>
      match s with
      | c :: s' => Ascii.eqb c p && startswith s' prefix'
      | [] => false
      end
  end.

(** [s[n:]] *)
Definition slice_from (n : nat) (s : str) : str := skipn n s.

(** [c in s] for a one-character [c]. *)
Definition contains (c : ascii) (s : str) : bool := existsb (Ascii.eqb c) s.

(** [s.split(c, 1)] for a string that contains [c]: the part before the
    first [c] and the whole remainder after it.  [None] when [c] does not
    occur (Python then returns a one-element list). *)
Fixpoint split1 (c : ascii) (s : str) : option (str * str) :=
  match s with
  | [] => None
  | a :: r =>
      if Ascii.eqb a c then Some ([], r)
      else match split1 c r with
           | Some (u, v) => Some (a :: u, v)
           | None => None
           end
  end.

(** Value of a string of decimal digits, most significant first. *)
Definition digits_value (ds : str) : N :=
  fold_left (fun acc c => (10 * acc + digit_val c)%N) ds 0%N.

(** Digits with single underscores between them, as [int()] accepts:
    [expect_digit] says that the next character must be a digit. *)
Fixpoint int_body (s : str) (acc : N) (expect_digit : bool) : option N :=
  match s with
  | [] => if expect_digit then None else Some acc
  | c :: r =>
      if isdigit c then int_body r (10 * acc + digit_val c)%N false
      else if Ascii.eqb c "_" then
             if expect_digit then None else int_body r acc true
           else None
  end.

(** An optional sign in front: is it a minus, and what follows. *)
Definition split_sign (t : str) : bool * str :=
  match t with
  | c :: r =>
      if Ascii.eqb c "-" then (true, r)
      else if Ascii.eqb c "+" then (false, r)
      else (false, t)
  | [] => (false, t)
  end.

(** Whitespace that [int()] strips: [isspace] without FS..US. *)
Definition int_space (c : ascii) : bool :=
  in_range 9 13 c || (code c =? 32)%N || (code c =? 133)%N || (code c =? 160)%N.

(** The most digits that [int()] converts from a string
    ([sys.int_info.default_max_str_digits]); underscores, the sign and
    whitespace do not count, leading zeros do. *)
Definition max_str_digits : N := 4300.

(** [int(s)] in base 10: raises ValueError on anything but optional
    whitespace, an optional sign and digits with single underscores
    between them, and on more than [max_str_digits] digits. *)
Definition int_of_str (s : str) : result Z :=
  let t := rev (dropwhile int_space (rev (dropwhile int_space s))) in
  let '(neg, body) := split_sign t in
  match int_body body 0%N true with
  | Some n =>
      if (max_str_digits <? N.of_nat (List.length (filter isdigit body)))%N
      then Raise ValueError
      else Ok (if neg then - Z.of_N n else Z.of_N n)
  | None => Raise ValueError
  end.

(** [str(n)] for a natural number: its decimal digits. *)
Fixpoint show_digits (fuel : nat) (n : N) (acc : str) : str :=
  match fuel with
  | O => acc
  | S f =>
      let acc' := ascii_of_N (48 + n mod 10) :: acc in
      if (n <? 10)%N then acc' else show_digits f (n / 10)%N acc'
  end.

Definition show_N (n : N) : str := show_digits (S (N.to_nat (N.log2 n))) n [].

End Str.

Import Str.

(* ================================================================= *)
(** ** decimal.Decimal under the default context *)

Module Decimal.

(** A Decimal: [(-1)^sign * coeff * 10^exp], an infinity, or a quiet or
    signaling NaN with its diagnostic payload (0 for none). *)
Inductive decimal : Type :=
| Finite (sign : bool) (coeff : N) (exp : Z)
| Infinity (sign : bool)
| NaN (sign : bool) (payload : N)
| sNaN (sign : bool) (payload : N).

(** The default context. *)
Definition prec : Z := 28.
Definition Emax : Z := 999999.
Definition Emin : Z := -999999.
Definition Etiny : Z := Emin - prec + 1.
Definition Etop : Z := Emax - prec + 1.

Definition pow10 (k : Z) : N := (10 ^ Z.to_N k)%N.

(** Number of decimal digits of a coefficient ([len(str(c))]; 1 for 0). *)
Fixpoint ndigits_aux (fuel : nat) (c : N) : Z :=
  match fuel with
  | O => 1
  | S f => if (c <? 10)%N then 1 else 1 + ndigits_aux f (c / 10)%N
  end.

Definition ndigits (c : N) : Z := ndigits_aux (N.to_nat (N.size c)) c.

(** ROUND_HALF_EVEN: drop the last [k] digits of [c]. *)
Definition round_half_even (c : N) (k : Z) : N :=
  let p := pow10 k in
  let q := (c / p)%N in
  let r := (c mod p)%N in
  if ((p <? 2 * r) || ((2 * r =? p) && N.odd q))%N then (q + 1)%N else q.

(** [_fix_nan]: a payload keeps at most [prec] digits (the last ones). *)
Definition fix_payload (p : N) : N :=
  if ndigits p >? prec then (p mod pow10 prec)%N else p.

(** [_fix]: round to the context's precision and exponent range.
    Overflow is trapped; underflow, rounding and clamping only set flags. *)
Definition _fix (d : decimal) : result decimal :=
  match d with
  | Finite s c e =>
      if (c =? 0)%N then Ok (Finite s 0 (Z.min (Z.max e Etiny) Emax))
      else
        let exp_min := ndigits c + e - prec in
        if exp_min >? Etop then Raise Overflow
        else
          let exp_min := Z.max exp_min Etiny in
          if e <? exp_min then
            let c' := round_half_even c (exp_min - e) in
            let '(c'', e'') :=
              if ndigits c' >? prec then ((c' / 10)%N, exp_min + 1)
              else (c', exp_min) in
            if e'' >? Etop then Raise Overflow else Ok (Finite s c'' e'')
          else Ok d
  | Infinity s => Ok d
  | NaN s p => Ok (NaN s (fix_payload p))
  | sNaN s p => Ok (sNaN s (fix_payload p))
  end.

(** [Decimal(n)] for a Python int: exact. *)
Definition of_int (z : Z) : decimal := Finite (z <? 0) (Z.abs_N z) 0.

Definition signed (s : bool) (c : N) : Z :=
  if s then - Z.of_N c else Z.of_N c.

Definition copy_negate (d : decimal) : decimal :=
  match d with
  | Finite s c e => Finite (negb s) c e
  | Infinity s => Infinity (negb s)
  | NaN s p => NaN (negb s) p
  | sNaN s p => sNaN (negb s) p
  end.

Definition copy_abs (d : decimal) : decimal :=
  match d with
  | Finite _ c e => Finite false c e
  | Infinity _ => Infinity false
  | NaN _ p => NaN false p
  | sNaN _ p => sNaN false p
  end.

(** [bool(d)]: everything but a zero is true. *)
Definition is_zero (d : decimal) : bool :=
  match d with
  | Finite _ c _ => (c =? 0)%N
  | _ => false
  end.

(** [_check_nans] for one operand: a signaling NaN raises, a quiet NaN is
    the result. *)
Definition check_nan (a : decimal) : option (result decimal) :=
  match a with
  | sNaN _ _ => Some (Raise InvalidOperation)
  | NaN s p => Some (Ok (NaN s (fix_payload p)))
  | _ => None
  end.

(** [_check_nans] for two operands: signaling NaNs first, then the first
    quiet NaN. *)
Definition check_nans (a b : decimal) : option (result decimal) :=
  match a, b with
  | sNaN _ _, _ => Some (Raise InvalidOperation)
  | _, sNaN _ _ => Some (Raise InvalidOperation)
  | NaN s p, _ => Some (Ok (NaN s (fix_payload p)))
  | _, NaN s p => Some (Ok (NaN s (fix_payload p)))
  | _, _ => None
  end.

(** [a + b]: the exact sum at the smaller exponent, then [fix].  A zero sum
    is negative only when both operands are negative. *)
Definition add (a b : decimal) : result decimal :=
  match check_nans a b with
  | Some r => r
  | None =>
      match a, b with
      | Infinity sa, Infinity sb =>
          if xorb sa sb then Raise InvalidOperation else Ok a
      | Infinity _, _ => Ok a
      | _, Infinity _ => Ok b
      | Finite sa ca ea, Finite sb cb eb =>
          let e := Z.min ea eb in
          let z := signed sa ca * Z.of_N (pow10 (ea - e))
                   + signed sb cb * Z.of_N (pow10 (eb - e)) in
          let s := if z =? 0 then sa && sb else z <? 0 in
          _fix (Finite s (Z.abs_N z) e)
      | _, _ => Raise InvalidOperation
      end
  end.

(** [a - b] is [a + (-b)] once NaNs have been dealt with. *)
Definition sub (a b : decimal) : result decimal :=
  match check_nans a b with
  | Some r => r
  | None => add a (copy_negate b)
  end.

(** [a * b] *)
Definition mul (a b : decimal) : result decimal :=
  match check_nans a b with
  | Some r => r
  | None =>
      match a, b with
      | Infinity sa, Infinity sb => Ok (Infinity (xorb sa sb))
      | Infinity sa, Finite sb cb _ =>
          if (cb =? 0)%N then Raise InvalidOperation
          else Ok (Infinity (xorb sa sb))
      | Finite sa ca _, Infinity sb =>
          if (ca =? 0)%N then Raise InvalidOperation
          else Ok (Infinity (xorb sa sb))
      | Finite sa ca ea, Finite sb cb eb =>
          _fix (Finite (xorb sa sb) (ca * cb)%N (ea + eb))
      | _, _ => Raise InvalidOperation
      end
  end.

(** The loop of [__truediv__] on an exact quotient: remove trailing zeros
    while the exponent is below the ideal one. *)
Fixpoint strip_zeros (fuel : nat) (c : N) (e ideal : Z) : N * Z :=
  match fuel with
  | O => (c, e)
  | S f =>
      if (e <? ideal) && (c mod 10 =? 0)%N
      then strip_zeros f (c / 10)%N (e + 1) ideal
      else (c, e)
  end.

(** [a / b] *)
Definition div (a b : decimal) : result decimal :=
  match check_nans a b with
  | Some r => r
  | None =>
      match a, b with
      | Infinity _, Infinity _ => Raise InvalidOperation
      | Infinity sa, Finite sb _ _ => Ok (Infinity (xorb sa sb))
      | Finite sa _ _, Infinity sb => Ok (Finite (xorb sa sb) 0 Etiny)
      | Finite sa ca ea, Finite sb cb eb =>
          let sign := xorb sa sb in
          if (cb =? 0)%N then
            if (ca =? 0)%N then Raise InvalidOperation
            else Raise DivisionByZero
          else if (ca =? 0)%N then _fix (Finite sign 0 (ea - eb))
          else
            let shift := ndigits cb - ndigits ca + prec + 1 in
            let e := ea - eb - shift in
            let '(num, den) :=
              if 0 <=? shift then ((ca * pow10 shift)%N, cb)
              else (ca, (cb * pow10 (- shift))%N) in
            let q := (num / den)%N in
            let r := (num mod den)%N in
            if (r =? 0)%N then
              let '(q', e') :=
                strip_zeros (Z.to_nat (ea - eb - e)) q e (ea - eb) in
              _fix (Finite sign q' e')
            else
              _fix (Finite sign (if (q mod 5 =? 0)%N then q + 1 else q)%N e)
      | _, _ => Raise InvalidOperation
      end
  end.

(** [__neg__] and [__pos__]: a zero loses its sign; the result is rounded. *)
Definition neg (a : decimal) : result decimal :=
  match check_nan a with
  | Some r => r
  | None => _fix (if is_zero a then copy_abs a else copy_negate a)
  end.

Definition pos (a : decimal) : result decimal :=
  match check_nan a with
  | Some r => r
  | None => _fix (if is_zero a then copy_abs a else a)
  end.

(** The rounding of [_fix] under a context of precision [p] with the same
    rounding mode and exponent range: what [+d] gives there for a finite
    [d] that is not zero, and for a zero once its sign is dropped. *)
Definition round_at (p : Z) (s : bool) (c : N) (e : Z) : result decimal :=
  let etiny := Emin - p + 1 in
  let etop := Emax - p + 1 in
  if (c =? 0)%N then Ok (Finite s 0 (Z.min (Z.max e etiny) Emax))
  else
    let exp_min := ndigits c + e - p in
    if exp_min >? etop then Raise Overflow
    else
      let exp_min := Z.max exp_min etiny in
      if e <? exp_min then
        let c' := round_half_even c (exp_min - e) in
        let '(c'', e'') :=
          if ndigits c' >? p then ((c' / 10)%N, exp_min + 1)
          else (c', exp_min) in
        if e'' >? etop then Raise Overflow else Ok (Finite s c'' e'')
      else Ok (Finite s c e).

Definition sign_of (d : decimal) : bool :=
  match d with
  | Finite s _ _ | Infinity s | NaN s _ | sNaN s _ => s
  end.

(** [abs(a)] *)
Definition abs (a : decimal) : result decimal :=
  match check_nan a with
  | Some r => r
  | None => if sign_of a then neg a else pos a
  end.

(** [_isinfinity]: 1, -1 or 0. *)
Definition inf_rank (d : decimal) : Z :=
  match d with
  | Infinity false => 1
  | Infinity true => -1
  | _ => 0
  end.

Definition with_sign (s : bool) (c : comparison) : comparison :=
  if s then CompOpp c else c.

(** [adjusted()]: the exponent of the most significant digit. *)
Definition adjusted (c : N) (e : Z) : Z := ndigits c + e - 1.

(** [_cmp] on two operands that are not NaNs. *)
Definition cmp (a b : decimal) : comparison :=
  match a, b with
  | Finite sa ca ea, Finite sb cb eb =>
      if (ca =? 0)%N then
        if (cb =? 0)%N then Eq else if sb then Gt else Lt
      else if (cb =? 0)%N then (if sa then Lt else Gt)
      else if sa && negb sb then Lt
      else if negb sa && sb then Gt
      else
        match adjusted ca ea ?= adjusted cb eb with
        | Eq => with_sign sa
                  ((ca * pow10 (ea - eb)) ?= (cb * pow10 (eb - ea)))%N
        | Gt => with_sign sa Gt
        | Lt => with_sign sa Lt
        end
  | _, _ => inf_rank a ?= inf_rank b
  end.

Definition is_nan (d : decimal) : bool :=
  match d with
  | NaN _ _ | sNaN _ _ => true
  | _ => false
  end.

(** [a < b] and [a > b]: an ordering comparison that involves a NaN signals
    InvalidOperation, which is trapped. *)
Definition lt (a b : decimal) : result bool :=
  if is_nan a || is_nan b then Raise InvalidOperation
  else Ok (match cmp a b with Lt => true | _ => false end).

Definition gt (a b : decimal) : result bool :=
  if is_nan a || is_nan b then Raise InvalidOperation
  else Ok (match cmp a b with Gt => true | _ => false end).

(** *** Construction from a string *)

(** An exponent part: empty, or [e], an optional sign and digits.  The
    result is the exponent it denotes. *)
Definition parse_exponent (r : str) : option Z :=
  match r with
  | [] => Some 0
  | a :: r' =>
      if Ascii.eqb a "e" then
        let '(eneg, ds) := split_sign r' in
        match ds with
        | [] => None
        | _ :: _ =>
            if forallb isdigit ds then Some (signed eneg (digits_value ds))
            else None
        end
      else None
  end.

(** A number of the grammar [digits [. digits] [e [sign] digits]] with at
    least one digit before the exponent: its coefficient and exponent. *)
Definition parse_number (body : str) : option (N * Z) :=
  let ip := takewhile isdigit body in
  let r1 := dropwhile isdigit body in
  let '(fp, r2) :=
    match r1 with
    | a :: r =>
        if Ascii.eqb a "." then (takewhile isdigit r, dropwhile isdigit r)
        else ([], r1)
    | [] => ([], r1)
    end in
  match ip ++ fp with
  | [] => None
  | _ :: _ =>
      match parse_exponent r2 with
      | Some e => Some (digits_value (ip ++ fp), e - Z.of_nat (List.length fp))
      | None => None
      end
  end.

(** [nan] or [snan] followed by payload digits: signaling?, payload. *)
Definition parse_nan (body : str) : option (bool * N) :=
  let '(signaling, r) :=
    match body with
    | a :: r => if Ascii.eqb a "s" then (true, r) else (false, body)
    | [] => (false, body)
    end in
  if startswith r (lit "nan") then
    let ds := slice_from 3 r in
    if forallb isdigit ds then Some (signaling, digits_value ds) else None
  else None.

Definition is_inf_word (body : str) : bool :=
  if list_eq_dec ascii_dec body (lit "inf") then true
  else if list_eq_dec ascii_dec body (lit "infinity") then true
  else false.

Definition not_underscore (c : ascii) : bool := negb (Ascii.eqb c "_").

(** A literal of the grammar, already in lower case, stripped and without
    underscores: an optional sign, then a number, an infinity or a NaN. *)
Definition parse_literal (t : str) : result decimal :=
  let '(sign, body) := split_sign t in
  match parse_number body with
  | Some (c, e) => Ok (Finite sign c e)
  | None =>
      if is_inf_word body then Ok (Infinity sign)
      else match parse_nan body with
           | Some (true, p) => Ok (sNaN sign p)
           | Some (false, p) => Ok (NaN sign p)
           | None => Raise InvalidOperation
           end
  end.

(** [Decimal(s)] for a string: surrounding whitespace is stripped,
    underscores are removed, letters match in either case.  The conversion
    is exact; a string outside the grammar raises InvalidOperation.  (The
    library also refuses an exponent beyond its own limits of about
    10^18; the model converts such a literal.) *)
Definition of_str (s : str) : result decimal :=
  parse_literal (lower (filter not_underscore (strip s))).

(** *** Powers of two *)

(** The largest [r] with [r^d <= n], built bit by bit from above. *)
Fixpoint iroot_aux (i : nat) (d n r : N) : N :=
  match i with
  | O => r
  | S j =>
      let r' := (r + 2 ^ N.of_nat j)%N in
      iroot_aux j d n (if (r' ^ d <=? n)%N then r' else r)
  end.

Definition iroot (d n : N) : N :=
  iroot_aux (S (N.to_nat (N.size n / d))) d n 0%N.

(** [floor (2^n * 10^k)] for integers [n] and [k]. *)
Definition scaled_pow2 (n k : Z) : N :=
  let num := (2 ^ Z.to_N n * 10 ^ Z.to_N k)%N in
  let den := (2 ^ Z.to_N (- n) * 10 ^ Z.to_N (- k))%N in
  (num / den)%N.

(** [Decimal(2) ** y], the only power the program takes.  The library
    documents its power as computed from correctly rounded [exp] and [ln]
    and "almost always correctly rounded"; the model is the correctly
    rounded one: the exact value [2^n] or [5^-n * 10^n] for an integral
    [y = n], and otherwise the 28-digit rounding of the irrational
    [2^(n/d)], obtained from an integer [d]-th root with two guard digits
    and a sticky last digit.  An exponent of magnitude 10^7 or more
    overflows or underflows outright. *)
Definition pow2 (y : decimal) : result decimal :=
  match y with
  | sNaN _ _ => Raise InvalidOperation
  | NaN s p => Ok (NaN s (fix_payload p))
  | Infinity false => Ok (Infinity false)
  | Infinity true => Ok (Finite false 0 0)
  | Finite s c e =>
      if (c =? 0)%N then Ok (Finite false 1 0)
      else if 7 <=? adjusted c e then
        if s then _fix (Finite false 1 (Etiny - 1))
        else _fix (Finite false 1 (Emax + 1))
      else
        (* y = n / d in lowest terms *)
        let num := signed s c * Z.of_N (pow10 e) in
        let den := Z.of_N (pow10 (- e)) in
        let g := Z.gcd num den in
        let n := num / g in
        let d := den / g in
        if d =? 1 then
          if 0 <? n then _fix (Finite false (2 ^ Z.to_N n)%N 0)
          else _fix (Finite false (5 ^ Z.to_N (- n))%N n)
        else
          let est := if 0 <? n then (n * 301) / (1000 * d)
                     else (n * 302) / (1000 * d) in
          let k := 29 - est in
          let t := iroot (Z.to_N d) (scaled_pow2 n (k * d)) in
          _fix (Finite false (if (t mod 5 =? 0)%N then t + 1 else t)%N (- k))
  end.

(** *** Values *)

(** The rational value of a finite Decimal (0 for the others). *)
Definition to_Q (d : decimal) : Q :=
  match d with
  | Finite s c e => inject_Z (signed s c) * Qpower (10 # 1) e
  | _ => 0%Q
  end.

Definition is_finite (d : decimal) : bool :=
  match d with
  | Finite _ _ _ => true
  | _ => false
  end.

(** A finite Decimal greater than zero. *)
Definition is_positive (d : decimal) : bool :=
  match d with
  | Finite false c _ => (0 <? c)%N
  | _ => false
  end.

(** [|d| < 1] for a finite Decimal [d = +- c * 10^e]. *)
Definition abs_lt_1 (d : decimal) : Prop :=
  match d with
  | Finite _ c e => (c * pow10 e < pow10 (- e))%N
  | _ => False
  end.

(** A Decimal as the context leaves it: at most [prec] digits, exponent
    within range. *)
Definition normal (d : decimal) : Prop :=
  match d with
  | Finite _ c e =>
      Etiny <= e /\ ndigits c <= prec /\ ndigits c + e - prec <= Etop
  | Infinity _ => True
  | NaN _ p | sNaN _ p => ndigits p <= prec
  end.

End Decimal.

Import Decimal.

(* ================================================================= *)
(** ** Numbers of the page dictionary *)

(** pikepdf hands a PDF integer to Python as an [int] and a PDF real as a
    [Decimal]. *)
Inductive number : Type :=
| Int (z : Z)
| Dec (d : decimal).

(** [Decimal(n)], also the implicit conversion of an [int] operand that
    meets a Decimal. *)
Definition to_decimal (n : number) : decimal :=
  match n with
  | Int z => of_int z
  | Dec d => d
  end.

(** [a - b] on numbers: exact on two ints, Decimal subtraction otherwise. *)
Definition nsub (a b : number) : result number :=
  match a, b with
  | Int x, Int y => Ok (Int (x - y))
  | _, _ => d <- sub (to_decimal a) (to_decimal b) ;; Ok (Dec d)
  end.

(* ================================================================= *)
(** ** Module constants *)

(** [INCH = Decimal('25.4')] *)
Definition INCH : result decimal := of_str (lit "25.4").

(** [PT = Decimal(1)/72 * INCH] *)
Definition PT : result decimal :=
  one72 <- div (of_int 1) (of_int 72) ;;
  inch <- INCH ;;
  mul one72 inch.

(* ================================================================= *)
(** ** Format resolver *)

(** A format: (width, height) in millimetres. *)
Definition format : Type := decimal * decimal.

(** [_ISO216_VALUES[series]] *)
Definition ISO216_VALUES (series : ascii) : result decimal :=
  if Ascii.eqb series "a" then div (of_int 1) (of_int 4)
  else if Ascii.eqb series "b" then div (of_int 1) (of_int 2)
  else if Ascii.eqb series "c" then div (of_int 3) (of_int 8)
  else Raise KeyError.

Definition iso216_format (series : ascii) (size : Z) : result format :=
  base <- ISO216_VALUES series ;;
  half <- div (of_int size) (of_int 2) ;;
  eh <- sub base half ;;
  ph <- pow2 eh ;;
  height <- mul ph (of_int 1000) ;;
  base' <- ISO216_VALUES series ;;
  half' <- div (of_int (size + 1)) (of_int 2) ;;
  ew <- sub base' half' ;;
  pw <- pow2 ew ;;
  width <- mul pw (of_int 1000) ;;
  Ok (width, height).

(** A dict with string keys, as an association list. *)
Definition str_eqb (a b : str) : bool :=
  if list_eq_dec ascii_dec a b then true else false.

Fixpoint lookup {V : Type} (k : str) (d : list (str * V)) : option V :=
  match d with
  | [] => None
  | (k', v) :: r => if str_eqb k k' then Some v else lookup k r
  end.

(** [FORMATS = {"us letter": (Decimal('8.5') * INCH, 14*INCH)}] *)
Definition FORMATS : result (list (str * format)) :=
  w <- of_str (lit "8.5") ;;
  inch <- INCH ;;
  width <- mul w inch ;;
  inch' <- INCH ;;
  height <- mul (of_int 14) inch' ;;
  Ok [(lit "us letter", (width, height))].

(** [SYNONYMS = {"letter": "us letter"}] *)
Definition SYNONYMS : list (str * str) := [(lit "letter", lit "us letter")].

(** [s[0]] *)
Definition index0 (s : str) : result ascii :=
  match s with
  | [] => Raise IndexError
  | c :: _ => Ok c
  end.

(** The first stage of [get_format]: [Some] format when both sides of the
    first 'x' are Decimal literals, [None] when the stage is passed over
    (no 'x', or InvalidOperation caught). *)
Definition explicit_stage (fmt_string : str) : result (option format) :=
  if contains "x" fmt_string then
    match split1 "x" fmt_string with
    | Some (w, h) =>
        match (width <- of_str w ;; height <- of_str h ;; Ok (width, height)) with
        | Ok f => Ok (Some f)
        | Raise InvalidOperation => Ok None
        | Raise e => Raise e
        end
    | None => Raise ValueError
    end
  else Ok None.

(** The prefixes of the loop, the last one the empty string. *)
Definition iso_prefixes : list str :=
  [lit "din-"; lit "din"; lit "iso 216"; lit "iso216"; []].

(** The loop over the prefixes: the second stage. *)
Fixpoint iso_stage (prefixes : list str) (fmt_string : str)
  : result (option format) :=
  match prefixes with
  | [] => Ok None
  | prefix :: rest =>
      if startswith fmt_string prefix then
        let iso_str := lstrip (slice_from (List.length prefix) fmt_string) in
        match (series <- index0 iso_str ;;
               size <- int_of_str (slice_from 1 iso_str) ;;
               Ok (series, size)) with
        | Raise IndexError | Raise ValueError => iso_stage rest fmt_string
        | Raise e => Raise e
        | Ok (series, size) =>
            if contains series (lit "abc") && (0 <=? size) && (size <=? 10)
            then fmt <- iso216_format series size ;; Ok (Some fmt)
            else iso_stage rest fmt_string
        end
      else iso_stage rest fmt_string
  end.

(** The lookups in [FORMATS] and [SYNONYMS]: the last stage. *)
Definition table_stage (fmt_string : str) : result (option format) :=
  formats <- FORMATS ;;
  match lookup fmt_string formats with
  | Some f => Ok (Some f)
  | None =>
      match lookup fmt_string SYNONYMS with
      | Some name =>
          match lookup name formats with
          | Some f => Ok (Some f)
          | None => Raise KeyError
          end
      | None => Ok None
      end
  end.

(** [get_format(fmt_string)]; [None] is Python's [None] (no format). *)
Definition get_format (fmt_string : str) : result (option format) :=
  let fmt_string := lower fmt_string in
  let fmt_string := strip fmt_string in
  r <- explicit_stage fmt_string ;;
  match r with
  | Some f => Ok (Some f)
  | None =>
      r' <- iso_stage iso_prefixes fmt_string ;;
      match r' with
      | Some f => Ok (Some f)
      | None => table_stage fmt_string
      end
  end.

(* ================================================================= *)
(** ** pikepdf: matrices, pages and content streams *)

(** The interface of [pikepdf.PdfMatrix] that [scale] uses, after the
    library's documentation: a 3x3 matrix in PDF's row-vector convention,
    [@] is the matrix product, [scaled] and [translated] multiply from the
    right, [shorthand] is (a, b, c, d, e, f).  The library converts entries
    to binary floating point, and the content stream carries them with six
    decimals; the model keeps their exact rational values and a single
    [None] for an entry that is not finite: it gives the form of the
    matrix, not the digits that are written. *)
Module PdfMatrix.

Definition entry : Type := option Q.

Definition of_decimal (d : decimal) : entry :=
  if is_finite d then Some (to_Q d) else None.

Definition emul (a b : entry) : entry :=
  match a, b with
  | Some x, Some y => Some (x * y)%Q
  | _, _ => None
  end.

Definition eadd (a b : entry) : entry :=
  match a, b with
  | Some x, Some y => Some (x + y)%Q
  | _, _ => None
  end.

Definition e0 : entry := Some 0%Q.
Definition e1 : entry := Some 1%Q.

Definition row : Type := entry * entry * entry.
Definition matrix : Type := row * row * row.

(** [PdfMatrix()] *)
Definition identity : matrix := ((e1, e0, e0), (e0, e1, e0), (e0, e0, e1)).

(** [PdfMatrix((a, b, c, d, e, f))] *)
Definition of_shorthand (a b c d e f : entry) : matrix :=
  ((a, b, e0), (c, d, e0), (e, f, e1)).

(** [sum(i * j for i, j in zip(row, col))] *)
Definition dot (r c : row) : entry :=
  let '(r0, r1, r2) := r in
  let '(c0, c1, c2) := c in
  eadd (eadd (eadd e0 (emul r0 c0)) (emul r1 c1)) (emul r2 c2).

Definition col (k : nat) (m : matrix) : row :=
  let '((a0, a1, a2), (b0, b1, b2), (c0, c1, c2)) := m in
  match k with
  | O => (a0, b0, c0)
  | S O => (a1, b1, c1)
  | _ => (a2, b2, c2)
  end.

(** [a @ b] *)
Definition matmul (a b : matrix) : matrix :=
  let '(r0, r1, r2) := a in
  let mk r := (dot r (col 0 b), dot r (col 1 b), dot r (col 2 b)) in
  (mk r0, mk r1, mk r2).

Definition scaled (m : matrix) (x y : entry) : matrix :=
  matmul m (of_shorthand x e0 e0 y e0 e0).

Definition translated (m : matrix) (x y : entry) : matrix :=
  matmul m (of_shorthand e1 e0 e0 e1 x y).

Definition shorthand (m : matrix) : list entry :=
  let '((a, b, _), (c, d, _), (e, f, _)) := m in [a; b; c; d; e; f].

End PdfMatrix.

(** An operand of a content-stream instruction: a number, or any other
    token kept as written. *)
Inductive operand : Type :=
| Number (e : PdfMatrix.entry)
| Token (t : str).

(** An instruction: its operands and its operator. *)
Definition instruction : Type := list operand * str.


(** A box: (x0, y0, x1, y1). *)
Record box : Type := mkBox { x0 : number; y0 : number; x1 : number; y1 : number }.

(** What [scale] reads and writes of a page: the media box, the four
    optional boxes, the optional /UserUnit and the parsed content stream. *)
Record page : Type := mkPage {
  MediaBox : box;
  CropBox : option box;
  BleedBox : option box;
  TrimBox : option box;
  ArtBox : option box;
  UserUnit : option number;
  Contents : list instruction
}.

(* ================================================================= *)
(** ** The page transform *)

(** The body of the loop of [scale] on one page: [NoChange] for
    [continue], [Changed p'] for the page as it is left at the end of the
    body. *)
Inductive outcome : Type :=
| NoChange
| Changed (p' : page).

(** [fmt = tuple(Decimal(e)/(PT*user_unit) for e in fmt_mm)], one element. *)
Definition to_native (user_unit : decimal) (e : decimal) : result decimal :=
  pt <- PT ;;
  k <- mul pt user_unit ;;
  div e k.

(** [user_unit = Decimal(p.get("/UserUnit", 1))] *)
Definition user_unit_of (p : page) : decimal :=
  to_decimal (match UserUnit p with Some u => u | None => Int 1 end).

(** The page's size in its own units and its distance to the target:
    (fmt, width, height, x_diff, y_diff), lines 23-32. *)
Definition measure (fmt_mm : format) (p : page)
  : result (format * number * number * decimal * decimal) :=
  let user_unit := user_unit_of p in
  f0 <- to_native user_unit (fst fmt_mm) ;;
  f1 <- to_native user_unit (snd fmt_mm) ;;
  let old_mediabox := MediaBox p in
  width <- nsub (x1 old_mediabox) (x0 old_mediabox) ;;
  height <- nsub (y1 old_mediabox) (y0 old_mediabox) ;;
  x_diff <- sub (to_decimal width) f0 ;;
  y_diff <- sub (to_decimal height) f1 ;;
  Ok ((f0, f1), width, height, x_diff, y_diff).

(** [abs(x_diff) < threshold and abs(y_diff) < threshold], lines 35-36. *)
Definition below_threshold (x_diff y_diff : decimal) : result bool :=
  let threshold := of_int 1 in
  ax <- abs x_diff ;;
  bx <- lt ax threshold ;;
  if bx then (ay <- abs y_diff ;; lt ay threshold) else Ok false.

(** What pikepdf keeps of a number that is assigned into a PDF array: an
    int as a PDF integer, and a Decimal as a PDF real with the library's
    decimal precision of 15 significant digits, that is [+d] under a
    context of that precision, read back as that Decimal.  A NaN or an
    infinity is refused with ValueError.  (A PDF integer fits 64 bits; the
    ints that [scale] assigns are those it has read from the page.) *)
Definition decimal_precision : Z := 15.

Definition encode (n : number) : result number :=
  match n with
  | Int z => Ok (Int z)
  | Dec (Finite s c e) =>
      r <- round_at decimal_precision (if (c =? 0)%N then false else s) c e ;;
      Ok (Dec r)
  | Dec _ => Raise ValueError
  end.

(** [page.mediabox = [a, b, c, d]]: the box as it is read back. *)
Definition assign_box (a b c d : number) : result box :=
  a' <- encode a ;;
  b' <- encode b ;;
  c' <- encode c ;;
  d' <- encode d ;;
  Ok (mkBox a' b' c' d').

(** The new media box, lines 41-44, as [page.mediabox] holds it after the
    assignment. *)
Definition resized_box (old_mediabox : box) (x_diff y_diff : decimal)
  : result box :=
  nx1 <- sub (to_decimal (x1 old_mediabox)) x_diff ;;
  ny1 <- sub (to_decimal (y1 old_mediabox)) y_diff ;;
  assign_box (x0 old_mediabox) (y0 old_mediabox) (Dec nx1) (Dec ny1).

(** [if p.get(box): p[box] = page.mediabox] *)
Definition sync_box (mediabox : box) (b : option box) : option box :=
  match b with
  | Some _ => Some mediabox
  | None => None
  end.

(** Scale factor and translation, lines 52-65. *)
Definition placement (fmt : format) (width height : number)
  (x_diff y_diff : decimal) (old_mediabox mediabox : box)
  : result (decimal * (decimal * decimal)) :=
  wider <- gt x_diff y_diff ;;
  if wider then
    scale <- div (fst fmt) (to_decimal width) ;;
    a <- mul (to_decimal (x0 old_mediabox)) scale ;;
    tx <- sub (to_decimal (x0 mediabox)) a ;;
    hs <- mul (to_decimal height) scale ;;
    gap <- sub (snd fmt) hs ;;
    half <- div gap (of_int 2) ;;
    up <- add (to_decimal (y0 mediabox)) half ;;
    b <- mul (to_decimal (y0 old_mediabox)) scale ;;
    ty <- sub up b ;;
    Ok (scale, (tx, ty))
  else
    scale <- div (snd fmt) (to_decimal height) ;;
    ws <- mul (to_decimal width) scale ;;
    gap <- sub (fst fmt) ws ;;
    half <- div gap (of_int 2) ;;
    right <- add (to_decimal (x0 mediabox)) half ;;
    a <- mul (to_decimal (x0 old_mediabox)) scale ;;
    tx <- sub right a ;;
    b <- mul (to_decimal (y0 old_mediabox)) scale ;;
    ty <- sub (to_decimal (y0 mediabox)) b ;;
    Ok (scale, (tx, ty))
  .

(** The matrix [PdfMatrix().scaled(scale, scale)] translated by the two
    components of [translation], line 67. *)
Definition transform_of (scale : decimal) (translation : decimal * decimal)
  : PdfMatrix.matrix :=
  let s := PdfMatrix.of_decimal scale in
  PdfMatrix.translated
    (PdfMatrix.scaled PdfMatrix.identity s s)
    (PdfMatrix.of_decimal (fst translation))
    (PdfMatrix.of_decimal (snd translation)).

(** [(transform.shorthand, Operator("cm"))] *)
Definition cm_instruction (m : PdfMatrix.matrix) : instruction :=
  (map Number (PdfMatrix.shorthand m), lit "cm").

(** One iteration of the loop of [scale], lines 22-74. *)
Definition scale_page (fmt_mm : format) (p : page) : result outcome :=
  '(fmt, width, height, x_diff, y_diff) <- measure fmt_mm p ;;
  let old_mediabox := MediaBox p in
  small <- below_threshold x_diff y_diff ;;
  if small then Ok NoChange
  else
    mediabox <- resized_box old_mediabox x_diff y_diff ;;
    '(scale, translation) <-
      placement fmt width height x_diff y_diff old_mediabox mediabox ;;
    let transform := transform_of scale translation in
    Ok (Changed
          {| MediaBox := mediabox;
             CropBox := sync_box mediabox (CropBox p);
             BleedBox := sync_box mediabox (BleedBox p);
             TrimBox := sync_box mediabox (TrimBox p);
             ArtBox := sync_box mediabox (ArtBox p);
             UserUnit := UserUnit p;
             Contents := cm_instruction transform :: Contents p |}).

(** The page after the iteration. *)
Definition commit (p : page) (o : outcome) : page :=
  match o with
  | NoChange => p
  | Changed p' => p'
  end.

(** The loop over the pages: the pages as left by it and [scaled_count]. *)
Fixpoint scale_pages (fmt_mm : format) (pages : list page)
  : result (list page * nat) :=
  match pages with
  | [] => Ok ([], O)
  | p :: rest =>
      o <- scale_page fmt_mm p ;;
      '(rest', n) <- scale_pages fmt_mm rest ;;
      Ok (commit p o :: rest',
          match o with NoChange => n | Changed _ => S n end)
  end.

(** What [scale] does at the end: save the document with the count of
    scaled pages and the number of pages, or report that nothing is to be
    done. *)
Inductive report : Type :=
| Scaled (pages : list page) (scaled_count total : nat)
| NothingToDo.

(** [scale(fpath, fmt_mm)] on the pages of the opened document. *)
Definition scale (pdf : list page) (fmt_mm : format) : result report :=
  '(pages, scaled_count) <- scale_pages fmt_mm pdf ;;
  match scaled_count with
  | O => Ok NothingToDo
  | S _ => Ok (Scaled pages scaled_count (List.length pdf))
  end.

(* ================================================================= *)
(** ** The driver *)

(** [fpath[:-4] + "-scaled.pdf"], line 78: the path without its last four
    characters (nothing is left of a shorter path), then the suffix. *)
Definition output_path (fpath : str) : str :=
  firstn (List.length fpath - 4) fpath ++ lit "-scaled.pdf".

(** What [scale] writes: the pages under the derived path when some page
    was scaled, nothing otherwise. *)
Definition saved (fpath : str) (r : report) : option (str * list page) :=
  match r with
  | Scaled pages _ _ => Some (output_path fpath, pages)
  | NothingToDo => None
  end.

(** The line that [scale] prints, lines 77 and 80. *)
Definition message (r : report) : str :=
  match r with
  | Scaled _ scaled_count total =>
      lit "Scaled (" ++ show_N (N.of_nat scaled_count) ++ lit "/"
      ++ show_N (N.of_nat total) ++ lit ") pages"
  | NothingToDo => lit "File already respects wanted format, nothing to do"
  end.

(** [parse_arguments()]: the format option, "A4" when it is not given, and
    the file. *)
Record arguments : Type := mkArguments { format_arg : str; file_arg : str }.

Definition parse_arguments (format_option : option str) (file : str)
  : arguments :=
  {| format_arg := match format_option with Some f => f | None => lit "A4" end;
     file_arg := file |}.

(** How [main] ends: with the message about the format and exit status 1,
    or after [scale]. *)
Inductive run : Type :=
| Unrecognized (fmt_string : str)
| Ran (r : report).

(** [main()] on the parsed arguments and the pages of the file. *)
Definition main (args : arguments) (pdf : list page) : result run :=
  page_format <- get_format (format_arg args) ;;
  match page_format with
  | None => Ok (Unrecognized (format_arg args))
  | Some f => r <- scale pdf f ;; Ok (Ran r)
  end.

(* ================================================================= *)
(** ** The specification's formulas *)

(** The translation for a page bound by its width, in the words of the
    specification: (new.x0 - old.x0 * s,
    new.y0 + (fmt.height - height * s) / 2 - old.y0 * s). *)
Definition width_bound_translation (fmt : format) (height : number)
  (s : decimal) (old_box new_box : box) : result (decimal * decimal) :=
  a <- mul (to_decimal (x0 old_box)) s ;;
  tx <- sub (to_decimal (x0 new_box)) a ;;
  hs <- mul (to_decimal height) s ;;
  gap <- sub (snd fmt) hs ;;
  half <- div gap (of_int 2) ;;
  up <- add (to_decimal (y0 new_box)) half ;;
  b <- mul (to_decimal (y0 old_box)) s ;;
  ty <- sub up b ;;
  Ok (tx, ty).

(** The symmetric translation for a page bound by its height:
    (new.x0 + (fmt.width - width * s) / 2 - old.x0 * s,
    new.y0 - old.y0 * s). *)
Definition height_bound_translation (fmt : format) (width : number)
  (s : decimal) (old_box new_box : box) : result (decimal * decimal) :=
  ws <- mul (to_decimal width) s ;;
  gap <- sub (fst fmt) ws ;;
  half <- div gap (of_int 2) ;;
  right <- add (to_decimal (x0 new_box)) half ;;
  a <- mul (to_decimal (x0 old_box)) s ;;
  tx <- sub right a ;;
  b <- mul (to_decimal (y0 old_box)) s ;;
  ty <- sub (to_decimal (y0 new_box)) b ;;
  Ok (tx, ty).

(** The four auxiliary boxes of a page, in the order of the source. *)
Definition aux_boxes (p : page) : list (option box) :=
  [CropBox p; BleedBox p; TrimBox p; ArtBox p].

(** A Decimal in the range where a stored box settles: finite, at most
    10^6 decimals, magnitude below 10^13. *)
Definition steady (d : decimal) : Prop :=
  match d with
  | Finite _ c e => - 1000000 <= e /\ ndigits c + e <= 13
  | _ => False
  end.

(** A box whose four coordinates are in that range. *)
Definition steady_box (b : box) : Prop :=
  steady (to_decimal (x0 b)) /\ steady (to_decimal (y0 b)) /\
  steady (to_decimal (x1 b)) /\ steady (to_decimal (y1 b)).

(** Does the iteration change the page? *)
Definition changed (fmt_mm : format) (p : page) : bool :=
  match scale_page fmt_mm p with
  | Ok (Changed _) => true
  | _ => false
  end.

(** A page in the steady range for a target: the coordinates of its
    media box, and the target in the page's own units. *)
Definition steady_page (fmt_mm : format) (p : page) : Prop :=
  steady_box (MediaBox p) /\
  exists f0 f1,
    to_native (user_unit_of p) (fst fmt_mm) = Ok f0 /\
    to_native (user_unit_of p) (snd fmt_mm) = Ok f1 /\
    steady f0 /\ steady f1.

(** What a page of the result has in common with the page it comes from:
    the unit and which of the other boxes are present; and the page is
    the same, or else the lower left corner of its media box is the old
    one as pikepdf stores it, and its content is the old content behind
    one [cm] instruction. *)
Definition same_frame (p p' : page) : Prop :=
  UserUnit p' = UserUnit p /\
  Forall2 (fun b b' => b = None <-> b' = None) (aux_boxes p) (aux_boxes p') /\
  (p' = p \/
   (encode (x0 (MediaBox p)) = Ok (x0 (MediaBox p')) /\
    encode (y0 (MediaBox p)) = Ok (y0 (MediaBox p')) /\
    exists operands,
      List.length operands = 6%nat /\
      Contents p' = (operands, lit "cm") :: Contents p)).

(** A page without /UserUnit whose media box has integer corners and
    the size of A4 in points: 595 or 596 by 842 or 843. *)
Definition a4_in_points (p : page) : Prop :=
  UserUnit p = None /\
  exists x y w h,
    MediaBox p = mkBox (Int x) (Int y) (Int (x + w)) (Int (y + h)) /\
    595 <= w <= 596 /\ 842 <= h <= 843.

(** What [int()] takes besides whitespace: a digit, an underscore or a
    sign. *)
Definition int_char (c : ascii) : bool :=
  isdigit c || Ascii.eqb c "_" || Ascii.eqb c "+" || Ascii.eqb c "-".

(** The page with its media box moved by whole units. *)
Definition moved (dx dy : Z) (a b c d : Z) (p : page) : page :=
  {| MediaBox := mkBox (Int (a + dx)) (Int (b + dy)) (Int (c + dx)) (Int (d + dy));
     CropBox := CropBox p; BleedBox := BleedBox p; TrimBox := TrimBox p;
     ArtBox := ArtBox p; UserUnit := UserUnit p; Contents := Contents p |}.

(** A digit or a point. *)
Definition plain_char (c : ascii) : bool := isdigit c || Ascii.eqb c ".".

(** Digits, a point and digits. *)
Definition plain_decimal (ip fp : str) : str := ip ++ "."%char :: fp.

(** A finite Decimal with at most [K] decimals. *)
Definition tame (K : Z) (d : decimal) : Prop :=
  match d with
  | Finite _ _ e => - K <= e
  | _ => False
  end.

(** A magnitude far from overflow, and the relative errors of a rounding
    to 28 digits: half a unit of the last digit, and one unit. *)
Definition big : Q := (10 # 1) ^ 30.
Definition half_ulp : Q := 1 # 2000000000000000000000000000.
Definition ulp : Q := 1 # 1000000000000000000000000000.

(** What the placement is exact to, the new box being stored with 15
    significant digits: 10^-7 units. *)
Definition tolerance : Q := 1 # 10000000.

(** A Decimal of modest size: finite, at most 1000 decimals, magnitude
    below 10^6. *)
Definition modest (d : decimal) : Prop :=
  match d with
  | Finite _ c e => - 1000 <= e /\ ndigits c + e <= 6
  | _ => False
  end.

Definition modest_box (b : box) : Prop :=
  modest (to_decimal (x0 b)) /\ modest (to_decimal (y0 b)) /\
  modest (to_decimal (x1 b)) /\ modest (to_decimal (y1 b)).

(** The value of a coordinate, and where the transform [p -> s * p + t]
    takes it. *)
Definition coordinate (v : number) : Q := to_Q (to_decimal v).

Definition image (s t : decimal) (v : number) : Q :=
  (to_Q s * coordinate v + to_Q t)%Q.

(** The interval from [lo] to [hi], transformed, is the interval from
    [lo'] to [hi']. *)
Definition fills (s t : decimal) (lo hi lo' hi' : number) : Prop :=
  (Qabs (image s t lo - coordinate lo') <= tolerance)%Q /\
  (Qabs (image s t hi - coordinate hi') <= tolerance)%Q.

(** The interval from [lo] to [hi], transformed, lies in the middle of
    the interval from [lo'] to [hi']: as far from one end as from the
    other. *)
Definition centred (s t : decimal) (lo hi lo' hi' : number) : Prop :=
  (Qabs ((image s t lo - coordinate lo') - (coordinate hi' - image s t hi))
   <= tolerance)%Q.

(** A number that pikepdf keeps as it is, in value: an int, or a Decimal
    of at most 15 digits above the underflow of that precision. *)
Definition within_precision (n : number) : Prop :=
  match n with
  | Int _ => True
  | Dec (Finite _ c e) =>
      ndigits c <= decimal_precision /\ Emin - decimal_precision + 1 <= e
  | Dec _ => False
  end.

(** The stages of [get_format] after the explicit one. *)
Definition later_stages (fmt_string : str) : result (option format) :=
  r <- iso_stage iso_prefixes fmt_string ;;
  match r with
  | Some f => Ok (Some f)
  | None => table_stage fmt_string
  end.

(** Eight times the exponent base of a series: a 1/4, b 1/2, c 3/8. *)
Definition base_eighths (series : ascii) : Z :=
  if Ascii.eqb series "a" then 2
  else if Ascii.eqb series "b" then 4
  else 3.

Definition eps : Q := 1 # 1000000000000000000000000.

(** [v] is a finite Decimal within [eps = 10^-24] of [1000 * 2^(k/8)]:
    the eighth power of [v / 1000] encloses [2^k] that closely. *)
Definition near_pow2_eighths (v : decimal) (k : Z) : Prop :=
  is_finite v = true /\
  (eps < to_Q v)%Q /\
  ((to_Q v - eps) ^ 8 < 1000 ^ 8 * 2 ^ k)%Q /\
  (1000 ^ 8 * 2 ^ k < (to_Q v + eps) ^ 8)%Q.

(** [lo < v < hi] for a finite Decimal [v]. *)
Definition between (lo hi : Q) (v : decimal) : Prop :=
  is_finite v = true /\ (lo < to_Q v)%Q /\ (to_Q v < hi)%Q.

(* ================================================================= *)
(** ** Example inputs *)

(** A page of 595 x 842 units with a smaller CropBox and two
    instructions. *)
Definition example_page : page :=
  {| MediaBox := mkBox (Int 0) (Int 0) (Int 595) (Int 842);
     CropBox := Some (mkBox (Int 10) (Int 10) (Int 585) (Int 832));
     BleedBox := None;
     TrimBox := None;
     ArtBox := None;
     UserUnit := None;
     Contents := [([], lit "q"); ([], lit "Q")] |}.

(** 215.90 mm x 355.6 mm, the entry "us letter" of [FORMATS]. *)
Definition us_letter : format :=
  (Finite false 21590 (-2), Finite false 3556 (-1)).

(** 210 mm x 297 mm, as [get_format] returns it for "210x297". *)
Definition mm_210_297 : format := (Finite false 210 0, Finite false 297 0).

(** What [get_format] returns for "a4". *)
Definition a4_format : format :=
  (Finite false 2102241038134286357577813691 (-25),
   Finite false 2973017787506802666793749926 (-25)).

(** A page whose media box is [0.1234567890123456 0 595 842]: the first
    coordinate has 16 significant digits. *)
Definition fine_page : page :=
  {| MediaBox :=
       mkBox (Dec (Finite false 1234567890123456 (-16))) (Int 0)
             (Int 595) (Int 842);
     CropBox := None;
     BleedBox := None;
     TrimBox := None;
     ArtBox := None;
     UserUnit := None;
     Contents := [] |}.

(** A page whose media box is [0 0 30000000000000000000000000001.0 842]. *)
Definition huge_page : page :=
  {| MediaBox :=
       mkBox (Int 0) (Int 0)
             (Dec (Finite false 300000000000000000000000000010 (-1)))
             (Int 842);
     CropBox := None;
     BleedBox := None;
     TrimBox := None;
     ArtBox := None;
     UserUnit := None;
     Contents := [] |}.

Module DecimalFacts.

Lemma pow10_Z (k : Z) : 0 <= k -> Z.of_N (pow10 k) = 10 ^ k.
Proof.
  intros H. unfold pow10. rewrite N2Z.inj_pow, Z2N.id by assumption. reflexivity.
Qed.

Lemma pow10_nonpos (k : Z) : k <= 0 -> pow10 k = 1%N.
Proof.
  intros H. unfold pow10. destruct k; simpl; try reflexivity; lia.
Qed.

Lemma pow10_pos (k : Z) : (0 < pow10 k)%N.
Proof.
  unfold pow10. apply N.neq_0_lt_0, N.pow_nonzero. discriminate.
Qed.

Lemma Zpow10_pos (k : Z) : 0 <= k -> 0 < 10 ^ k.
Proof. intros. apply Z.pow_pos_nonneg; lia. Qed.

Lemma Zpow10_succ (k : Z) : 0 <= k -> 10 ^ (k + 1) = 10 * 10 ^ k.
Proof. intros. rewrite Z.pow_add_r by lia. lia. Qed.

Lemma ndigits_aux_spec (fuel : nat) :
  forall c : N, (c < 2 ^ N.of_nat fuel)%N ->
  1 <= ndigits_aux fuel c /\
  ((0 < c)%N ->
   10 ^ (ndigits_aux fuel c - 1) <= Z.of_N c < 10 ^ ndigits_aux fuel c).
Proof.
  induction fuel as [|f IH]; intros c Hc.
  - simpl in *. split; [lia|]. intros. lia.
  - cbn [ndigits_aux]. destruct (N.ltb_spec c 10) as [Hlt|Hge].
    + split; [lia|]. intros Hpos. simpl. lia.
    + assert (Hq : (c / 10 < 2 ^ N.of_nat f)%N).
      { rewrite Nat2N.inj_succ, N.pow_succ_r' in Hc.
        apply N.Div0.div_lt_upper_bound. lia. }
      destruct (IH _ Hq) as [H1 H2].
      assert (Hqpos : (0 < c / 10)%N).
      { apply N.div_str_pos. lia. }
      specialize (H2 Hqpos).
      split; [lia|]. intros _.
      replace (1 + ndigits_aux f (c / 10) - 1) with ((ndigits_aux f (c / 10) - 1) + 1) by lia.
      replace (1 + ndigits_aux f (c / 10)) with (ndigits_aux f (c / 10) + 1) by lia.
      rewrite !Zpow10_succ by lia.
      rewrite N2Z.inj_div in H2. change (Z.of_N 10) with 10 in H2.
      pose proof (Z.div_mod (Z.of_N c) 10 ltac:(lia)).
      pose proof (Z.mod_pos_bound (Z.of_N c) 10 ltac:(lia)).
      lia.
Qed.

Lemma ndigits_ge_1 (c : N) : 1 <= ndigits c.
Proof.
  unfold ndigits. apply ndigits_aux_spec.
  rewrite N2Nat.id. apply N.size_gt.
Qed.

Lemma ndigits_spec (c : N) :
  (0 < c)%N -> 10 ^ (ndigits c - 1) <= Z.of_N c < 10 ^ ndigits c.
Proof.
  unfold ndigits. apply ndigits_aux_spec.
  rewrite N2Nat.id. apply N.size_gt.
Qed.

Lemma ndigits_unique (c : N) (n : Z) :
  10 ^ (n - 1) <= Z.of_N c < 10 ^ n -> 1 <= n -> ndigits c = n.
Proof.
  intros [Hlo Hhi] Hn.
  assert (Hc : (0 < c)%N).
  { pose proof (Zpow10_pos (n - 1) ltac:(lia)). lia. }
  pose proof (ndigits_spec c Hc) as [Glo Ghi].
  pose proof (ndigits_ge_1 c).
  destruct (Z.lt_trichotomy (ndigits c) n) as [Hlt|[Heq|Hgt]]; [|assumption|].
  - assert (10 ^ ndigits c <= 10 ^ (n - 1)) by (apply Z.pow_le_mono_r; lia). lia.
  - assert (10 ^ n <= 10 ^ (ndigits c - 1)) by (apply Z.pow_le_mono_r; lia). lia.
Qed.

Lemma ndigits_0 : ndigits 0 = 1.
Proof. reflexivity. Qed.

Lemma fix_normal_id (d : decimal) : normal d -> _fix d = Ok d.
Proof.
  destruct d as [s c e|s|s p|s p]; simpl; intros H; try reflexivity.
  - destruct H as (H1 & H2 & H3). unfold Etop, Etiny, Emax, Emin, prec in *.
    destruct (N.eqb_spec c 0) as [->|Hc].
    + rewrite ndigits_0 in *. f_equal. f_equal. lia.
    + destruct (Z.gtb_spec (ndigits c + e - 28) (999999 - 28 + 1)); [lia|].
      destruct (Z.ltb_spec e (Z.max (ndigits c + e - 28) (-999999 - 28 + 1))); [lia|].
      reflexivity.
  - unfold fix_payload. destruct (Z.gtb_spec (ndigits p) prec); [lia|reflexivity].
  - unfold fix_payload. destruct (Z.gtb_spec (ndigits p) prec); [lia|reflexivity].
Qed.

Lemma round_half_even_error (c : N) (k : Z) :
  let q := round_half_even c k in
  (q = (c / pow10 k)%N \/ q = (c / pow10 k + 1)%N) /\
  2 * Z.abs (Z.of_N q * Z.of_N (pow10 k) - Z.of_N c) <= Z.of_N (pow10 k).
Proof.
  unfold round_half_even. set (p := pow10 k).
  assert (Hp : (0 < p)%N) by apply pow10_pos.
  pose proof (N.Div0.div_mod c p) as Hdm.
  pose proof (N.mod_lt c p ltac:(lia)) as Hr.
  set (q := (c / p)%N) in *. set (r := (c mod p)%N) in *.
  clearbody q r p.
  destruct (N.ltb_spec p (2 * r)) as [H1|H1]; cbn [orb andb].
  - split; [right; reflexivity|]. nia.
  - destruct (N.eqb_spec (2 * r) p) as [H2|H2]; cbn [orb andb].
    + destruct (N.odd q); (split; [auto|]); nia.
    + split; [left; reflexivity|]. nia.
Qed.

(** [_fix] on a finite Decimal whose exponent is not below [Etiny] and
    whose magnitude is below the overflow threshold: the result has the
    same sign, is normal, and is off by at most half a unit of the last of
    28 digits, that is a relative error of at most 10^-27 / 2. *)
Lemma fix_round (s : bool) (c : N) (e : Z) :
  Etiny <= e -> ndigits c + e - prec < Etop ->
  exists c' e',
    _fix (Finite s c e) = Ok (Finite s c' e') /\
    e <= e' /\
    2 * 10 ^ 27 * Z.abs (Z.of_N c' * 10 ^ (e' - e) - Z.of_N c) <= Z.of_N c /\
    normal (Finite s c' e').
Proof.
  intros He Hov.
  destruct (N.eqb_spec c 0) as [->|Hc].
  - exists 0%N, e. replace (e - e) with 0 by lia.
    assert (Hn : normal (Finite s 0 e)).
    { unfold normal. rewrite ndigits_0 in *. unfold Etop, Etiny, Emax, Emin, prec in *. lia. }
    rewrite (fix_normal_id _ Hn).
    split; [reflexivity|]. split; [lia|]. split; [change (Z.of_N 0) with 0; lia|exact Hn].
  - pose proof (ndigits_spec c ltac:(lia)) as [Hlo Hhi].
    pose proof (ndigits_ge_1 c) as H1.
    destruct (Z.le_gt_cases (ndigits c) prec) as [Hle|Hgt].
    + exists c, e. replace (e - e) with 0 by lia.
      assert (Hn : normal (Finite s c e)) by (simpl; lia).
      rewrite (fix_normal_id _ Hn).
      split; [reflexivity|]. split; [lia|]. split; [|exact Hn].
      rewrite Z.pow_0_r. lia.
    + unfold _fix. destruct (N.eqb_spec c 0); [contradiction|].
      destruct (Z.gtb_spec (ndigits c + e - prec) Etop); [lia|].
      rewrite Z.max_l by lia.
      destruct (Z.ltb_spec e (ndigits c + e - prec)); [|lia].
      replace (ndigits c + e - prec - e) with (ndigits c - prec) by lia.
      set (k := ndigits c - prec) in *.
      assert (Hk : 0 < k) by (unfold k; lia).
      destruct (round_half_even_error c k) as [Hq Herr].
      set (q := round_half_even c k) in *.
      pose proof (pow10_Z k ltac:(lia)) as HP.
      set (p := pow10 k) in *.
      assert (Hp : (0 < p)%N) by apply pow10_pos.
      assert (Hlo' : 10 ^ 27 * Z.of_N p <= Z.of_N c).
      { rewrite HP, <- Z.pow_add_r by lia.
        replace (27 + k) with (ndigits c - 1) by (unfold k, prec; lia). exact Hlo. }
      assert (Hhi' : Z.of_N c < 10 ^ 28 * Z.of_N p).
      { rewrite HP, <- Z.pow_add_r by lia.
        replace (28 + k) with (ndigits c) by (unfold k, prec; lia). exact Hhi. }
      assert (Hq1 : (10 ^ 27 <= c / p)%N).
      { apply N.div_le_lower_bound; [lia|]. lia. }
      assert (Hq2 : (c / p < 10 ^ 28)%N).
      { apply N.Div0.div_lt_upper_bound. lia. }
      assert (Hqr : 10 ^ 27 <= Z.of_N q <= 10 ^ 28) by lia.
      clearbody q p. clear Hq Hq1 Hq2.
      destruct (Z.eq_dec (Z.of_N q) (10 ^ 28)) as [Heq|Hne].
      * assert (Hnd : ndigits q = 29) by (apply ndigits_unique; lia).
        assert (Hq10 : Z.of_N (q / 10) = 10 ^ 27).
        { rewrite N2Z.inj_div. change (Z.of_N 10) with 10. rewrite Heq. reflexivity. }
        assert (Hnd' : ndigits (q / 10) = 28) by (apply ndigits_unique; lia).
        rewrite Hnd.
        destruct (Z.gtb_spec 29 prec) as [_|Hf]; [|unfold prec in Hf; lia].
        destruct (Z.gtb_spec (ndigits c + e - prec + 1) Etop); [lia|].
        exists (q / 10)%N, (ndigits c + e - prec + 1).
        split; [reflexivity|]. split; [lia|]. split.
        -- replace (ndigits c + e - prec + 1 - e) with (k + 1) by (unfold k; lia).
           rewrite Zpow10_succ by lia. rewrite <- HP. lia.
        -- unfold normal. rewrite Hnd'. unfold prec in *. lia.
      * assert (Hnd : ndigits q = 28) by (apply ndigits_unique; lia).
        rewrite Hnd.
        destruct (Z.gtb_spec 28 prec) as [Hf|_]; [unfold prec in Hf; lia|].
        destruct (Z.gtb_spec (ndigits c + e - prec) Etop); [lia|].
        exists q, (ndigits c + e - prec).
        split; [reflexivity|]. split; [lia|]. split.
        -- replace (ndigits c + e - prec - e) with k by (unfold k; lia).
           rewrite <- HP. lia.
        -- unfold normal. rewrite Hnd. unfold prec in *. lia.
Qed.

Lemma of_int_signed (z : Z) : of_int z = Finite (z <? 0) (Z.abs_N z) 0.
Proof. reflexivity. Qed.

Lemma signed_abs_N (z : Z) : signed (z <? 0) (Z.abs_N z) = z.
Proof. unfold signed. destruct (Z.ltb_spec z 0); lia. Qed.

Lemma abs_signed (s : bool) (c : N) : Z.abs (signed s c) = Z.of_N c.
Proof. unfold signed. destruct s; lia. Qed.

(** [abs] leaves a normal finite Decimal as it is, up to its sign. *)
Lemma abs_normal (s : bool) (c : N) (e : Z) :
  normal (Finite s c e) -> abs (Finite s c e) = Ok (Finite false c e).
Proof.
  intros Hn.
  assert (Hn' : normal (Finite false c e)) by exact Hn.
  unfold abs, neg, pos, check_nan, sign_of, is_zero, copy_abs, copy_negate.
  destruct s; destruct (c =? 0)%N; cbn [negb]; apply (fix_normal_id _ Hn').
Qed.

Lemma ndigits_1 : ndigits 1 = 1.
Proof. reflexivity. Qed.

Lemma N_ltb_compare (a b : N) :
  match (a ?= b)%N with Lt => true | _ => false end = (a <? b)%N.
Proof. unfold N.ltb. destruct (a ?= b)%N; reflexivity. Qed.

(** [d < 1] for a non-negative finite [d = c * 10^e]. *)
Lemma lt_one (c : N) (e : Z) :
  lt (Finite false c e) (of_int 1) = Ok (c * pow10 e <? pow10 (- e))%N.
Proof.
  unfold lt, of_int. cbn [is_nan orb]. f_equal.
  change (1 <? 0) with false. change (Z.abs_N 1) with 1%N.
  unfold cmp. destruct (N.eqb_spec c 0) as [->|Hc].
  - change (1 =? 0)%N with false. cbv iota.
    symmetry. apply N.ltb_lt. rewrite N.mul_0_l. apply pow10_pos.
  - change (1 =? 0)%N with false. cbn [andb negb]. cbv iota.
    unfold adjusted. rewrite ndigits_1.
    pose proof (ndigits_spec c ltac:(lia)) as [Hlo Hhi].
    pose proof (ndigits_ge_1 c) as H1.
    destruct (Z.compare_spec (ndigits c + e - 1) (1 + 0 - 1)) as [Heq|Hlt|Hgt];
      unfold with_sign.
    + rewrite Z.sub_0_r, Z.sub_0_l, N.mul_1_l. apply N_ltb_compare.
    + symmetry. apply N.ltb_lt.
      rewrite (pow10_nonpos e) by lia. rewrite N.mul_1_r.
      apply N2Z.inj_lt. rewrite pow10_Z by lia.
      assert (10 ^ ndigits c <= 10 ^ (- e)) by (apply Z.pow_le_mono_r; lia). lia.
    + symmetry. apply N.ltb_ge.
      destruct (Z.le_gt_cases 0 e) as [He|He].
      * rewrite (pow10_nonpos (- e)) by lia.
        pose proof (pow10_pos e). nia.
      * rewrite (pow10_nonpos e) by lia. rewrite N.mul_1_r.
        apply N2Z.inj_le. rewrite pow10_Z by lia.
        assert (10 ^ (- e) <= 10 ^ (ndigits c - 1)) by (apply Z.pow_le_mono_r; lia). lia.
Qed.

Lemma ndigits_le_28 (c : N) : Z.of_N c < 10 ^ 28 -> ndigits c <= 28.
Proof.
  intros H. destruct (N.eq_dec c 0) as [->|Hc]; [rewrite ndigits_0; lia|].
  pose proof (ndigits_spec c ltac:(lia)) as [Hlo _].
  pose proof (ndigits_ge_1 c).
  destruct (Z.le_gt_cases (ndigits c) 28) as [|Hgt]; [assumption|exfalso].
  assert (10 ^ 28 <= 10 ^ (ndigits c - 1)) by (apply Z.pow_le_mono_r; lia). lia.
Qed.

Lemma fix_payload_normal (p : N) : ndigits (fix_payload p) <= prec.
Proof.
  unfold fix_payload. destruct (Z.gtb_spec (ndigits p) prec) as [H|H]; [|exact H].
  unfold prec. apply ndigits_le_28.
  pose proof (N.mod_lt p (pow10 28) ltac:(pose proof (pow10_pos 28); lia)) as Hm.
  apply N2Z.inj_lt in Hm. rewrite pow10_Z in Hm by lia. exact Hm.
Qed.

(** Whatever [_fix] returns is normal. *)
Lemma fix_output_normal (d d' : decimal) : _fix d = Ok d' -> normal d'.
Proof.
  destruct d as [s c e|s|s p|s p]; unfold _fix.
  - destruct (N.eqb_spec c 0) as [->|Hc].
    + intros [= <-]. unfold normal. rewrite ndigits_0.
      unfold Etop, Etiny, Emax, Emin, prec. lia.
    + pose proof (ndigits_spec c ltac:(lia)) as [Hlo Hhi].
      pose proof (ndigits_ge_1 c) as H1.
      destruct (Z.gtb_spec (ndigits c + e - prec) Etop) as [|Hov]; [discriminate|].
      set (em := Z.max (ndigits c + e - prec) Etiny).
      assert (Hem : Etiny <= em <= Etop)
        by (unfold em, Etop, Etiny, Emax, Emin, prec in *; lia).
      destruct (Z.ltb_spec e em) as [Hlt|Hge].
      * set (k := em - e). assert (Hk : 0 < k) by (unfold k; lia).
        destruct (round_half_even_error c k) as [Hq _].
        set (q := round_half_even c k) in *.
        pose proof (pow10_Z k ltac:(lia)) as HP.
        set (p := pow10 k) in *.
        assert (Hp : (0 < p)%N) by apply pow10_pos.
        assert (Hq2 : (c / p < 10 ^ 28)%N).
        { apply N.Div0.div_lt_upper_bound. apply N2Z.inj_lt.
          rewrite N2Z.inj_mul, HP. change (Z.of_N (10 ^ 28)) with (10 ^ 28).
          rewrite <- Z.pow_add_r by lia.
          assert (10 ^ ndigits c <= 10 ^ (k + 28))
            by (apply Z.pow_le_mono_r; unfold k, em, prec; lia).
          lia. }
        assert (Hqr : Z.of_N q <= 10 ^ 28) by lia.
        clearbody q p. clear Hq Hq2.
        destruct (Z.gtb_spec (ndigits q) prec) as [Hg|Hg].
        -- assert (Heq : Z.of_N q = 10 ^ 28).
           { assert (Hq0 : (0 < q)%N).
             { destruct (N.eq_dec q 0) as [->|]; [rewrite ndigits_0 in Hg; unfold prec in Hg; lia|lia]. }
             pose proof (ndigits_spec q Hq0) as [Hlo' _].
             assert (10 ^ 28 <= 10 ^ (ndigits q - 1))
               by (apply Z.pow_le_mono_r; unfold prec in Hg; lia).
             lia. }
           assert (Hq10 : Z.of_N (q / 10) = 10 ^ 27).
           { rewrite N2Z.inj_div. change (Z.of_N 10) with 10. rewrite Heq. reflexivity. }
           assert (Hnd' : ndigits (q / 10) = 28) by (apply ndigits_unique; lia).
           destruct (Z.gtb_spec (em + 1) Etop); [discriminate|].
           intros [= <-]. unfold normal. rewrite Hnd'. unfold prec. lia.
        -- destruct (Z.gtb_spec em Etop); [discriminate|].
           intros [= <-]. unfold normal. lia.
      * intros [= <-]. unfold normal. unfold em in *. lia.
  - intros [= <-]. exact I.
  - intros [= <-]. apply fix_payload_normal.
  - intros [= <-]. apply fix_payload_normal.
Qed.

Lemma check_nans_normal (a b : decimal) (r : result decimal) (d : decimal) :
  check_nans a b = Some r -> r = Ok d -> normal d.
Proof.
  destruct a, b; cbn [check_nans]; intros [= <-]; try discriminate;
    intros [= <-]; apply fix_payload_normal.
Qed.

Lemma add_normal (a b d : decimal) : add a b = Ok d -> normal d.
Proof.
  unfold add. destruct (check_nans a b) as [r|] eqn:Hn.
  - intros ->. eapply check_nans_normal; eauto.
  - destruct a as [sa ca ea|sa|sa pa|sa pa], b as [sb cb eb|sb|sb pb|sb pb];
      try discriminate.
    + apply fix_output_normal.
    + intros [= <-]. exact I.
    + intros [= <-]. exact I.
    + destruct (xorb sa sb); [discriminate|]. intros [= <-]. exact I.
Qed.

Lemma sub_normal (a b d : decimal) : sub a b = Ok d -> normal d.
Proof.
  unfold sub. destruct (check_nans a b) as [r|] eqn:Hn.
  - intros ->. eapply check_nans_normal; eauto.
  - apply add_normal.
Qed.

Lemma mul_normal (a b d : decimal) : mul a b = Ok d -> normal d.
Proof.
  unfold mul. destruct (check_nans a b) as [r|] eqn:Hn.
  - intros ->. eapply check_nans_normal; eauto.
  - destruct a as [sa ca ea|sa|sa pa|sa pa], b as [sb cb eb|sb|sb pb|sb pb];
      try discriminate.
    + apply fix_output_normal.
    + destruct (ca =? 0)%N; [discriminate|]. intros [= <-]. exact I.
    + destruct (cb =? 0)%N; [discriminate|]. intros [= <-]. exact I.
    + intros [= <-]. exact I.
Qed.

Lemma zero_Etiny_normal (s : bool) : normal (Finite s 0 Etiny).
Proof.
  unfold normal. rewrite ndigits_0. unfold Etop, Etiny, Emax, Emin, prec. lia.
Qed.

Lemma div_normal (a b d : decimal) : div a b = Ok d -> normal d.
Proof.
  unfold div. destruct (check_nans a b) as [r|] eqn:Hn.
  - intros ->. eapply check_nans_normal; eauto.
  - destruct a as [sa ca ea|sa|sa pa|sa pa], b as [sb cb eb|sb|sb pb|sb pb];
      try discriminate.
    + destruct (cb =? 0)%N.
      * destruct (ca =? 0)%N; discriminate.
      * destruct (ca =? 0)%N; [apply fix_output_normal|].
        destruct (0 <=? ndigits cb - ndigits ca + prec + 1).
        -- destruct (_ mod _ =? 0)%N.
           ++ destruct (strip_zeros _ _ _ _). apply fix_output_normal.
           ++ apply fix_output_normal.
        -- destruct (_ mod _ =? 0)%N.
           ++ destruct (strip_zeros _ _ _ _). apply fix_output_normal.
           ++ apply fix_output_normal.
    + intros [= <-]. apply zero_Etiny_normal.
    + intros [= <-]. exact I.
Qed.

(** The threshold test on normal operands. *)
Lemma abs_lt_threshold (d : decimal) :
  normal d ->
  (abs_lt_1 d -> exists a, abs d = Ok a /\ lt a (of_int 1) = Ok true) /\
  (forall a, abs d = Ok a -> lt a (of_int 1) = Ok true -> abs_lt_1 d).
Proof.
  intros Hn. destruct d as [s c e|s|s p|s p].
  - rewrite (abs_normal s c e Hn). split.
    + intros H. exists (Finite false c e). split; [reflexivity|].
      rewrite lt_one. f_equal. apply N.ltb_lt. exact H.
    + intros a [= <-]. rewrite lt_one. intros [= H]. apply N.ltb_lt. exact H.
  - split; [intros []|]. intros a Ha. destruct s; injection Ha as <-; discriminate.
  - split; [intros []|]. intros a [= <-]. discriminate.
  - split; [intros []|]. intros a; discriminate.
Qed.

Lemma below_threshold_iff (xd yd : decimal) :
  normal xd -> normal yd ->
  (below_threshold xd yd = Ok true <-> abs_lt_1 xd /\ abs_lt_1 yd).
Proof.
  intros Nx Ny. unfold below_threshold. cbv zeta.
  destruct (abs_lt_threshold xd Nx) as [X1 X2].
  destruct (abs_lt_threshold yd Ny) as [Y1 Y2].
  split.
  - destruct (abs xd) as [ax|] eqn:Eax; [|discriminate]. cbn [bind].
    destruct (lt ax (of_int 1)) as [bx|] eqn:Elx; cbn [bind]; [|discriminate].
    destruct bx; [|discriminate].
    destruct (abs yd) as [ay|] eqn:Eay; [|discriminate]. cbn [bind].
    intros Hly. split; [apply (X2 ax); auto|apply (Y2 ay); auto].
  - intros [Hx Hy].
    destruct (X1 Hx) as (ax & Hax & Hlx). destruct (Y1 Hy) as (ay & Hay & Hly).
    rewrite Hax. cbn [bind]. rewrite Hlx. cbn [bind]. rewrite Hay. cbn [bind]. exact Hly.
Qed.

End DecimalFacts.

Module StrFacts.

Ltac each_char c := destruct c as [[] [] [] [] [] [] [] []]; try reflexivity; try discriminate.

Lemma isspace_lower (c : ascii) : isspace (lower_char c) = isspace c.
Proof. each_char c. Qed.

Lemma lower_space (c : ascii) : isspace c = true -> lower_char c = c.
Proof. each_char c. Qed.

Lemma lower_digit (c : ascii) : isdigit c = true -> lower_char c = c.
Proof. each_char c. Qed.

Lemma not_underscore_lower (c : ascii) :
  not_underscore (lower_char c) = not_underscore c.
Proof. each_char c. Qed.

Lemma lower_char_idem (c : ascii) : lower_char (lower_char c) = lower_char c.
Proof. each_char c. Qed.

Lemma lower_x_not_space (c : ascii) :
  Ascii.eqb "x" (lower_char c) = true -> isspace c = false /\ not_underscore c = true.
Proof. each_char c; intros _; split; reflexivity. Qed.

Lemma space_not_x (c : ascii) : isspace c = true -> Ascii.eqb "x" c = false.
Proof. each_char c. Qed.

Lemma space_not_dash (c : ascii) : isspace c = true -> Ascii.eqb c "-" = false.
Proof. each_char c. Qed.

Lemma lower_lower (s : str) : lower (lower s) = lower s.
Proof.
  unfold lower. rewrite map_map. apply map_ext. apply lower_char_idem.
Qed.

Lemma lower_app (a b : str) : lower (a ++ b) = lower a ++ lower b.
Proof. apply map_app. Qed.

Lemma lower_spaces (s : str) : forallb isspace s = true -> lower s = s.
Proof.
  induction s as [|c r IH]; [reflexivity|]. cbn [forallb lower map].
  intros H. apply andb_prop in H as [Hc Hr].
  rewrite (lower_space c Hc). f_equal. apply IH, Hr.
Qed.

Lemma dropwhile_map (p : ascii -> bool) (f : ascii -> ascii) (s : str) :
  (forall c, p (f c) = p c) ->
  dropwhile p (map f s) = map f (dropwhile p s).
Proof.
  intros Hp. induction s as [|c r IH]; [reflexivity|].
  cbn [map dropwhile]. rewrite Hp. destruct (p c); [exact IH|reflexivity].
Qed.

Lemma lstrip_lower (s : str) : lstrip (lower s) = lower (lstrip s).
Proof. apply dropwhile_map, isspace_lower. Qed.

Lemma rstrip_lower (s : str) : rstrip (lower s) = lower (rstrip s).
Proof.
  unfold rstrip, lower. rewrite <- map_rev.
  rewrite (dropwhile_map isspace lower_char _ isspace_lower).
  apply eq_sym, map_rev.
Qed.

Lemma strip_lower (s : str) : strip (lower s) = lower (strip s).
Proof. unfold strip. rewrite lstrip_lower. apply rstrip_lower. Qed.

Lemma filter_lower (s : str) :
  filter not_underscore (lower s) = lower (filter not_underscore s).
Proof.
  induction s as [|c r IH]; [reflexivity|].
  cbn [lower map filter]. rewrite not_underscore_lower.
  destruct (not_underscore c); cbn [map]; [f_equal|]; exact IH.
Qed.

Lemma dropwhile_idem (p : ascii -> bool) (s : str) :
  dropwhile p (dropwhile p s) = dropwhile p s.
Proof.
  induction s as [|c r IH]; [reflexivity|].
  cbn [dropwhile]. destruct (p c) eqn:E; [exact IH|].
  cbn [dropwhile]. rewrite E. reflexivity.
Qed.

Lemma dropwhile_all (p : ascii -> bool) (s : str) :
  forallb p s = true -> dropwhile p s = [].
Proof.
  induction s as [|c r IH]; [reflexivity|].
  cbn [forallb dropwhile]. intros H. apply andb_prop in H as [-> Hr]. exact (IH Hr).
Qed.

Lemma dropwhile_nil_all (p : ascii -> bool) (s : str) :
  dropwhile p s = [] -> forallb p s = true.
Proof.
  induction s as [|c r IH]; [reflexivity|].
  cbn [forallb dropwhile]. destruct (p c); [exact IH|discriminate].
Qed.

(** A prefix that satisfies [p] is dropped; the first character that does
    not stops the dropping. *)
Lemma dropwhile_app_stop (p : ascii -> bool) (a : str) (c : ascii) (b : str) :
  p c = false -> dropwhile p (a ++ c :: b) = dropwhile p a ++ c :: b.
Proof.
  intros Hc. induction a as [|d a IH].
  - cbn [app dropwhile]. rewrite Hc. reflexivity.
  - cbn [app dropwhile]. destruct (p d); [exact IH|reflexivity].
Qed.

Lemma dropwhile_spaces_app (p : ascii -> bool) (a b : str) :
  forallb p a = true -> dropwhile p (a ++ b) = dropwhile p b.
Proof.
  induction a as [|d a IH]; [reflexivity|].
  cbn [forallb app dropwhile]. intros H. apply andb_prop in H as [-> Ha]. exact (IH Ha).
Qed.

Lemma lstrip_app_stop (a : str) (c : ascii) (b : str) :
  isspace c = false -> lstrip (a ++ c :: b) = lstrip a ++ c :: b.
Proof. apply dropwhile_app_stop. Qed.

Lemma rstrip_app_stop (a : str) (c : ascii) (b : str) :
  isspace c = false -> rstrip (a ++ c :: b) = a ++ c :: rstrip b.
Proof.
  intros Hc. unfold rstrip. rewrite rev_app_distr. cbn [rev].
  rewrite <- app_assoc. cbn [app].
  rewrite (dropwhile_app_stop isspace (rev b) c (rev a) Hc).
  rewrite rev_app_distr. cbn [rev]. rewrite rev_involutive, <- app_assoc. reflexivity.
Qed.

Lemma lstrip_idem (s : str) : lstrip (lstrip s) = lstrip s.
Proof. apply dropwhile_idem. Qed.

Lemma rstrip_idem (s : str) : rstrip (rstrip s) = rstrip s.
Proof.
  unfold rstrip. rewrite rev_involutive, dropwhile_idem. reflexivity.
Qed.

Lemma rstrip_all (s : str) : forallb isspace s = true -> rstrip s = [].
Proof.
  intros H. unfold rstrip. rewrite dropwhile_all; [reflexivity|].
  rewrite forallb_forall in *. intros c Hc. apply H, in_rev, Hc.
Qed.

Lemma rstrip_cons (c : ascii) (r : str) :
  rstrip (c :: r) =
  if forallb isspace r then (if isspace c then [] else [c]) else c :: rstrip r.
Proof.
  destruct (forallb isspace r) eqn:Hr.
  - destruct (isspace c) eqn:Hc.
    + apply rstrip_all. cbn [forallb]. rewrite Hc, Hr. reflexivity.
    + change (c :: r) with ([] ++ c :: r). rewrite (rstrip_app_stop [] c r Hc).
      rewrite (rstrip_all r Hr). reflexivity.
  - unfold rstrip. cbn [rev].
    assert (Hd : dropwhile isspace (rev r) <> []).
    { intros Hn. apply dropwhile_nil_all in Hn.
      assert (forallb isspace r = true); [|congruence].
      rewrite forallb_forall in *. intros a Ha. apply Hn. rewrite <- in_rev. exact Ha. }
    revert Hd. generalize (rev r). intros l Hd.
    assert (Hl : dropwhile isspace (l ++ [c]) = dropwhile isspace l ++ [c]).
    { induction l as [|d l IH]; [contradiction|].
      cbn [app dropwhile] in *. destruct (isspace d); [apply IH, Hd|reflexivity]. }
    rewrite Hl, rev_app_distr. reflexivity.
Qed.

Lemma lstrip_rstrip (s : str) : lstrip (rstrip s) = rstrip (lstrip s).
Proof.
  induction s as [|c r IH]; [reflexivity|].
  rewrite rstrip_cons. unfold lstrip at 2. cbn [dropwhile]. fold (lstrip r).
  destruct (isspace c) eqn:Hc.
  - destruct (forallb isspace r) eqn:Hr.
    + unfold lstrip at 2. rewrite (dropwhile_all isspace r Hr). reflexivity.
    + unfold lstrip at 1. cbn [dropwhile]. rewrite Hc. exact IH.
  - rewrite rstrip_cons. rewrite Hc.
    destruct (forallb isspace r); unfold lstrip; cbn [dropwhile]; rewrite Hc; reflexivity.
Qed.

Lemma strip_lstrip (s : str) : strip (lstrip s) = strip s.
Proof. unfold strip. rewrite lstrip_idem. reflexivity. Qed.

Lemma strip_rstrip (s : str) : strip (rstrip s) = strip s.
Proof. unfold strip. rewrite lstrip_rstrip, rstrip_idem. reflexivity. Qed.

Lemma takewhile_dropwhile (p : ascii -> bool) (s : str) :
  takewhile p s ++ dropwhile p s = s.
Proof.
  induction s as [|c r IH]; [reflexivity|].
  cbn [takewhile dropwhile]. destruct (p c); [cbn [app]; f_equal; exact IH|reflexivity].
Qed.

Lemma takewhile_all (p : ascii -> bool) (s : str) : forallb p (takewhile p s) = true.
Proof.
  induction s as [|c r IH]; [reflexivity|].
  cbn [takewhile]. destruct (p c) eqn:E; [|reflexivity].
  cbn [forallb]. rewrite E. exact IH.
Qed.

Lemma contains_app (c : ascii) (a b : str) :
  contains c (a ++ b) = contains c a || contains c b.
Proof. apply existsb_app. Qed.

Lemma contains_dropwhile (c : ascii) (p : ascii -> bool) (s : str) :
  contains c s = false -> contains c (dropwhile p s) = false.
Proof.
  induction s as [|d r IH]; [reflexivity|].
  cbn [dropwhile]. destruct (p d); [|auto].
  unfold contains in *. cbn [existsb]. intros H. apply orb_false_elim in H as [_ H]. auto.
Qed.

Lemma split1_first (c : ascii) (a b : str) :
  contains c a = false -> split1 c (a ++ c :: b) = Some (a, b).
Proof.
  induction a as [|d a IH]; intros H.
  - cbn [app split1]. rewrite Ascii.eqb_refl. reflexivity.
  - unfold contains in H. cbn [existsb] in H. apply orb_false_elim in H as [Hd Ha].
    cbn [app split1]. rewrite Ascii.eqb_sym, Hd. rewrite (IH Ha). reflexivity.
Qed.

(** Of a split at the first [c]: nothing before it is a [c]. *)
Lemma split1_inv (c : ascii) (s a b : str) :
  split1 c s = Some (a, b) -> s = a ++ c :: b /\ contains c a = false.
Proof.
  revert a. induction s as [|d r IH]; intros a; [discriminate|].
  cbn [split1]. destruct (Ascii.eqb d c) eqn:E.
  - apply Ascii.eqb_eq in E. subst d. intros [= <- <-]. split; reflexivity.
  - destruct (split1 c r) as [[u v]|]; [|discriminate].
    intros [= <- <-]. destruct (IH u eq_refl) as [-> Hu].
    split; [reflexivity|]. unfold contains. cbn [existsb].
    rewrite Ascii.eqb_sym, E. exact Hu.
Qed.

End StrFacts.

Module ParseFacts.

Import StrFacts.

Lemma digit_not_x (c : ascii) : isdigit c = true -> Ascii.eqb "x" c = false.
Proof. each_char c. Qed.

Lemma digits_no_x (s : str) : forallb isdigit s = true -> contains "x" s = false.
Proof.
  induction s as [|c r IH]; [reflexivity|].
  cbn [forallb]. intros H. apply andb_prop in H as [Hc Hr].
  unfold contains. cbn [existsb]. rewrite (digit_not_x c Hc). exact (IH Hr).
Qed.

Lemma split_sign_cases (t : str) :
  t = snd (split_sign t)
  \/ t = "-"%char :: snd (split_sign t)
  \/ t = "+"%char :: snd (split_sign t).
Proof.
  destruct t as [|c r]; [left; reflexivity|]. cbn [split_sign].
  destruct (Ascii.eqb c "-") eqn:E1.
  - apply Ascii.eqb_eq in E1. subst c. right; left. reflexivity.
  - destruct (Ascii.eqb c "+") eqn:E2.
    + apply Ascii.eqb_eq in E2. subst c. right; right. reflexivity.
    + left. reflexivity.
Qed.

Lemma split_sign_no_x (t : str) :
  contains "x" (snd (split_sign t)) = false -> contains "x" t = false.
Proof.
  intros H. destruct (split_sign_cases t) as [E|[E|E]]; rewrite E;
    [exact H|exact H|exact H].
Qed.

Lemma parse_exponent_no_x (r : str) (e : Z) :
  parse_exponent r = Some e -> contains "x" r = false.
Proof.
  destruct r as [|a r']; [reflexivity|]. cbn [parse_exponent].
  destruct (Ascii.eqb a "e") eqn:Ea; [|discriminate].
  apply Ascii.eqb_eq in Ea. subst a.
  destruct (split_sign r') as [eneg ds] eqn:Es.
  destruct ds as [|d ds']; [discriminate|].
  destruct (forallb isdigit (d :: ds')) eqn:Hd; [|discriminate].
  intros _. unfold contains. cbn [existsb].
  change (Ascii.eqb "x" "e") with false. cbn [orb].
  apply split_sign_no_x. rewrite Es. cbn [snd]. apply digits_no_x, Hd.
Qed.

Lemma parse_number_no_x (body : str) (r : N * Z) :
  parse_number body = Some r -> contains "x" body = false.
Proof.
  unfold parse_number.
  pose proof (takewhile_dropwhile isdigit body) as Hsplit.
  pose proof (takewhile_all isdigit body) as Hip.
  set (ip := takewhile isdigit body) in *.
  set (r1 := dropwhile isdigit body) in *.
  assert (Hgen : forall fp r2,
    forallb isdigit fp = true ->
    contains "x" r1 = contains "x" fp || contains "x" r2 ->
    match ip ++ fp with
    | [] => None
    | _ :: _ =>
        match parse_exponent r2 with
        | Some e => Some (digits_value (ip ++ fp), e - Z.of_nat (List.length fp))
        | None => None
        end
    end = Some r -> contains "x" body = false).
  { intros fp r2 Hfp Hr1 H.
    destruct (ip ++ fp); [discriminate|].
    destruct (parse_exponent r2) as [e|] eqn:He; [|discriminate].
    rewrite <- Hsplit, contains_app, Hr1.
    rewrite (digits_no_x ip Hip), (digits_no_x fp Hfp), (parse_exponent_no_x r2 e He).
    reflexivity. }
  clearbody ip. clear Hsplit Hip.
  destruct r1 as [|a r'].
  - apply Hgen; reflexivity.
  - destruct (Ascii.eqb a ".") eqn:Ea.
    + apply Ascii.eqb_eq in Ea. subst a. apply Hgen.
      * apply takewhile_all.
      * unfold contains at 1. cbn [existsb].
        change (Ascii.eqb "x" ".") with false. cbn [orb].
        fold (contains "x" r'). rewrite <- contains_app, takewhile_dropwhile. reflexivity.
    + apply Hgen; reflexivity.
Qed.

Lemma is_inf_word_no_x (body : str) :
  is_inf_word body = true -> contains "x" body = false.
Proof.
  unfold is_inf_word.
  destruct (list_eq_dec ascii_dec body (lit "inf")) as [->|_]; [reflexivity|].
  destruct (list_eq_dec ascii_dec body (lit "infinity")) as [->|_]; [reflexivity|].
  discriminate.
Qed.

Lemma startswith_app (s p : str) :
  startswith s p = true -> s = p ++ skipn (List.length p) s.
Proof.
  revert s. induction p as [|a p IH]; intros s; [reflexivity|].
  destruct s as [|c r]; [discriminate|]. cbn [startswith].
  intros H. apply andb_prop in H as [Hc Hr]. apply Ascii.eqb_eq in Hc. subst c.
  cbn [List.length skipn app]. f_equal. exact (IH r Hr).
Qed.

Lemma parse_nan_no_x (body : str) (r : bool * N) :
  parse_nan body = Some r -> contains "x" body = false.
Proof.
  unfold parse_nan.
  assert (Hgen : forall sg t,
    (if startswith t (lit "nan") then
       if forallb isdigit (slice_from 3 t)
       then Some (sg, digits_value (slice_from 3 t)) else None
     else None) = Some r -> contains "x" t = false).
  { intros sg t H. destruct (startswith t (lit "nan")) eqn:Hs; [|discriminate].
    destruct (forallb isdigit (slice_from 3 t)) eqn:Hd; [|discriminate].
    rewrite (startswith_app t (lit "nan") Hs), contains_app.
    change (contains "x" (lit "nan")) with false. cbn [orb].
    apply digits_no_x. exact Hd. }
  destruct body as [|a r'].
  - apply Hgen.
  - destruct (Ascii.eqb a "s") eqn:Ea.
    + apply Ascii.eqb_eq in Ea. subst a. intros H.
      unfold contains. cbn [existsb]. change (Ascii.eqb "x" "s") with false.
      cbn [orb]. exact (Hgen _ _ H).
    + apply Hgen.
Qed.

(** A literal that parses holds no [x]. *)
Lemma parse_literal_no_x (t : str) (d : decimal) :
  parse_literal t = Ok d -> contains "x" t = false.
Proof.
  unfold parse_literal. intros H. apply split_sign_no_x.
  destruct (split_sign t) as [sign body]. cbn [snd].
  destruct (parse_number body) as [[c e]|] eqn:Hn.
  - exact (parse_number_no_x body _ Hn).
  - destruct (is_inf_word body) eqn:Hi; [exact (is_inf_word_no_x body Hi)|].
    destruct (parse_nan body) as [[sg p]|] eqn:Hp; [|discriminate H].
    exact (parse_nan_no_x body _ Hp).
Qed.

(** The only exception of the conversion is InvalidOperation. *)
Lemma of_str_raises (s : str) (e : exn) :
  of_str s = Raise e -> e = InvalidOperation.
Proof.
  unfold of_str, parse_literal.
  destruct (split_sign _) as [sign body].
  destruct (parse_number body) as [[c x]|]; [discriminate|].
  destruct (is_inf_word body); [discriminate|].
  destruct (parse_nan body) as [[[|] p]|]; try discriminate.
  intros [= <-]. reflexivity.
Qed.

Lemma In_dropwhile (p : ascii -> bool) (c : ascii) (s : str) :
  In c s -> p c = false -> In c (dropwhile p s).
Proof.
  intros Hin Hc. induction s as [|d r IH]; [contradiction|].
  cbn [dropwhile]. destruct (p d) eqn:Hd; [|exact Hin].
  destruct Hin as [->|Hin]; [congruence|exact (IH Hin)].
Qed.

Lemma In_strip (c : ascii) (s : str) :
  In c s -> isspace c = false -> In c (strip s).
Proof.
  intros Hin Hc. unfold strip, rstrip, lstrip.
  apply in_rev. rewrite rev_involutive. apply In_dropwhile; [|exact Hc].
  apply in_rev. rewrite rev_involutive. apply In_dropwhile; assumption.
Qed.

(** A string that is a Decimal literal holds no [x], in either case. *)
Lemma of_str_no_x (s : str) (d : decimal) :
  of_str s = Ok d -> contains "x" (lower s) = false.
Proof.
  unfold of_str. intros H. apply parse_literal_no_x in H.
  destruct (contains "x" (lower s)) eqn:Hx; [exfalso|reflexivity].
  unfold contains in Hx. apply existsb_exists in Hx as (c' & Hin & Hc').
  unfold lower in Hin. apply in_map_iff in Hin as (c & <- & Hin).
  destruct (lower_x_not_space c Hc') as [Hsp Hus].
  assert (Hin' : In (lower_char c) (lower (filter not_underscore (strip s)))).
  { unfold lower. apply in_map. apply filter_In. split; [|exact Hus].
    apply In_strip; assumption. }
  assert (contains "x" (lower (filter not_underscore (strip s))) = true).
  { unfold contains. apply existsb_exists. exists (lower_char c). split; assumption. }
  congruence.
Qed.

Lemma of_str_lower (s : str) : of_str (lower s) = of_str s.
Proof.
  unfold of_str. rewrite strip_lower, filter_lower, lower_lower. reflexivity.
Qed.

Lemma of_str_lstrip (s : str) : of_str (lstrip s) = of_str s.
Proof. unfold of_str. rewrite strip_lstrip. reflexivity. Qed.

Lemma of_str_rstrip (s : str) : of_str (rstrip s) = of_str s.
Proof. unfold of_str. rewrite strip_rstrip. reflexivity. Qed.

End ParseFacts.

Import DecimalFacts.

(** What an iteration that returns did. *)
Lemma scale_page_inv (fmt_mm : format) (p : page) (o : outcome) :
  scale_page fmt_mm p = Ok o ->
  exists fmt width height x_diff y_diff small,
    measure fmt_mm p = Ok (fmt, width, height, x_diff, y_diff) /\
    below_threshold x_diff y_diff = Ok small /\
    if small then o = NoChange
    else exists mediabox scale translation,
      resized_box (MediaBox p) x_diff y_diff = Ok mediabox /\
      placement fmt width height x_diff y_diff (MediaBox p) mediabox
        = Ok (scale, translation) /\
      o = Changed
            {| MediaBox := mediabox;
               CropBox := sync_box mediabox (CropBox p);
               BleedBox := sync_box mediabox (BleedBox p);
               TrimBox := sync_box mediabox (TrimBox p);
               ArtBox := sync_box mediabox (ArtBox p);
               UserUnit := UserUnit p;
               Contents :=
                 cm_instruction (transform_of scale translation) :: Contents p |}.
Proof.
  unfold scale_page.
  destruct (measure fmt_mm p) as [[[[[fmt w] h] xd] yd]|]; [|discriminate].
  cbn [bind].
  destruct (below_threshold xd yd) as [small|] eqn:Eb; [|discriminate]. cbn [bind].
  intros H. exists fmt, w, h, xd, yd, small. split; [reflexivity|]. split; [exact Eb|].
  destruct small.
  - injection H as <-. reflexivity.
  - destruct (resized_box (MediaBox p) xd yd) as [mb|] eqn:Er; [|discriminate].
    cbn [bind] in H.
    destruct (placement fmt w h xd yd (MediaBox p) mb) as [[s t]|] eqn:Ep; [|discriminate].
    cbn [bind] in H. injection H as <-. exists mb, s, t. auto.
Qed.

Lemma measure_inv (fmt_mm : format) (p : page) fmt width height x_diff y_diff :
  measure fmt_mm p = Ok (fmt, width, height, x_diff, y_diff) ->
  to_native (user_unit_of p) (fst fmt_mm) = Ok (fst fmt) /\
  to_native (user_unit_of p) (snd fmt_mm) = Ok (snd fmt) /\
  nsub (x1 (MediaBox p)) (x0 (MediaBox p)) = Ok width /\
  nsub (y1 (MediaBox p)) (y0 (MediaBox p)) = Ok height /\
  sub (to_decimal width) (fst fmt) = Ok x_diff /\
  sub (to_decimal height) (snd fmt) = Ok y_diff.
Proof.
  unfold measure.
  destruct (to_native (user_unit_of p) (fst fmt_mm)) as [f0|]; [|discriminate]. cbn [bind].
  destruct (to_native (user_unit_of p) (snd fmt_mm)) as [f1|]; [|discriminate]. cbn [bind].
  destruct (nsub (x1 (MediaBox p)) (x0 (MediaBox p))) as [w|]; [|discriminate]. cbn [bind].
  destruct (nsub (y1 (MediaBox p)) (y0 (MediaBox p))) as [h|]; [|discriminate]. cbn [bind].
  destruct (sub (to_decimal w) f0) as [xd|] eqn:Ex; [|discriminate]. cbn [bind].
  destruct (sub (to_decimal h) f1) as [yd|] eqn:Ey; [|discriminate]. cbn [bind].
  intros [= <- <- <- <- <-]. cbn [fst snd]. repeat split; assumption || reflexivity.
Qed.

Lemma assign_box_inv (a b c d : number) (mb : box) :
  assign_box a b c d = Ok mb ->
  exists a' b' c' d',
    encode a = Ok a' /\ encode b = Ok b' /\
    encode c = Ok c' /\ encode d = Ok d' /\
    mb = mkBox a' b' c' d'.
Proof.
  unfold assign_box.
  destruct (encode a) as [a'|]; [|discriminate]. cbn [bind].
  destruct (encode b) as [b'|]; [|discriminate]. cbn [bind].
  destruct (encode c) as [c'|]; [|discriminate]. cbn [bind].
  destruct (encode d) as [d'|]; [|discriminate]. cbn [bind].
  intros [= <-]. exists a', b', c', d'. repeat split; reflexivity.
Qed.

Lemma resized_box_inv (b : box) (xd yd : decimal) (mb : box) :
  resized_box b xd yd = Ok mb ->
  exists nx1 ny1 nx0' ny0' nx1' ny1',
    sub (to_decimal (x1 b)) xd = Ok nx1 /\
    sub (to_decimal (y1 b)) yd = Ok ny1 /\
    encode (x0 b) = Ok nx0' /\ encode (y0 b) = Ok ny0' /\
    encode (Dec nx1) = Ok nx1' /\ encode (Dec ny1) = Ok ny1' /\
    mb = mkBox nx0' ny0' nx1' ny1'.
Proof.
  unfold resized_box.
  destruct (sub (to_decimal (x1 b)) xd) as [nx1|]; [|discriminate]. cbn [bind].
  destruct (sub (to_decimal (y1 b)) yd) as [ny1|]; [|discriminate]. cbn [bind].
  intros H. destruct (assign_box_inv _ _ _ _ _ H)
    as (a' & b' & c' & d' & Ha & Hb & Hc & Hd & ->).
  exists nx1, ny1, a', b', c', d'. repeat split; assumption.
Qed.

Ltac bind_step H :=
  match type of H with
  | bind ?m _ = Ok _ =>
      let E := fresh "E" in
      destruct m eqn:E; [cbn [bind] in H|discriminate H]
  end.

Lemma placement_inv fmt width height x_diff y_diff old_box new_box s t :
  placement fmt width height x_diff y_diff old_box new_box = Ok (s, t) ->
  exists wider,
    gt x_diff y_diff = Ok wider /\
    if wider then
      div (fst fmt) (to_decimal width) = Ok s /\
      width_bound_translation fmt height s old_box new_box = Ok t
    else
      div (snd fmt) (to_decimal height) = Ok s /\
      height_bound_translation fmt width s old_box new_box = Ok t.
Proof.
  unfold placement. intros H. bind_step H. exists a. split; [reflexivity|].
  destruct a.
  - unfold width_bound_translation. repeat bind_step H.
    injection H as <- <-. split; [reflexivity|].
    repeat match goal with E : _ = Ok _ |- _ => rewrite E; clear E; cbn [bind] end.
    reflexivity.
  - unfold height_bound_translation. repeat bind_step H.
    injection H as <- <-. split; [reflexivity|].
    repeat match goal with E : _ = Ok _ |- _ => rewrite E; clear E; cbn [bind] end.
    reflexivity.
Qed.

Lemma gt_strict (a b : decimal) (w : bool) :
  gt a b = Ok w -> w = match cmp a b with Gt => true | _ => false end.
Proof.
  unfold gt. destruct (is_nan a || is_nan b); [discriminate|]. intros [= <-]. reflexivity.
Qed.



Module FormatFacts.

Import StrFacts ParseFacts.

Lemma spaces_no_x (s : str) : forallb isspace s = true -> contains "x" s = false.
Proof.
  induction s as [|c r IH]; [reflexivity|].
  cbn [forallb]. intros H. apply andb_prop in H as [Hc Hr].
  unfold contains. cbn [existsb]. rewrite (space_not_x c Hc). exact (IH Hr).
Qed.

Lemma rstrip_spaces_app (a b : str) :
  forallb isspace b = true -> rstrip (a ++ b) = rstrip a.
Proof.
  intros Hb. unfold rstrip. rewrite rev_app_distr.
  rewrite dropwhile_spaces_app; [reflexivity|].
  rewrite forallb_forall in *. intros c Hc. apply Hb, in_rev, Hc.
Qed.

Lemma rstrip_ends (a : str) (l : ascii) :
  isspace l = false -> rstrip (a ++ [l]) = a ++ [l].
Proof.
  intros Hl. rewrite (rstrip_app_stop a l [] Hl). reflexivity.
Qed.

Lemma lstrip_spaces_app (a b : str) :
  forallb isspace a = true -> lstrip (a ++ b) = lstrip b.
Proof. apply dropwhile_spaces_app. Qed.

Lemma lstrip_stop (c : ascii) (r : str) :
  isspace c = false -> lstrip (c :: r) = c :: r.
Proof. intros H. unfold lstrip. cbn [dropwhile]. rewrite H. reflexivity. Qed.

Lemma skipn_app_length (p r : str) : skipn (List.length p) (p ++ r) = r.
Proof. induction p as [|a p IH]; [reflexivity|exact IH]. Qed.

Lemma startswith_app_same (p r : str) : startswith (p ++ r) p = true.
Proof.
  induction p as [|a p IH]; [destruct r; reflexivity|].
  cbn [app startswith]. rewrite Ascii.eqb_refl. exact IH.
Qed.

(** *** The explicit stage *)

Lemma explicit_stage_no_x (t : str) :
  contains "x" t = false -> explicit_stage t = Ok None.
Proof. intros H. unfold explicit_stage. rewrite H. reflexivity. Qed.

Lemma contains_split1 (c : ascii) (t : str) :
  contains c t = true -> exists a b, split1 c t = Some (a, b).
Proof.
  induction t as [|d r IH]; [discriminate|].
  unfold contains. cbn [existsb split1]. rewrite (Ascii.eqb_sym d c).
  destruct (Ascii.eqb c d); [eauto|]. cbn [orb]. intros H.
  destruct (IH H) as (a & b & ->). eauto.
Qed.

(** The stage in terms of the two sides of the first [x]. *)
Lemma explicit_stage_split (t w r : str) :
  split1 "x" t = Some (w, r) ->
  explicit_stage t =
  match of_str w, of_str r with
  | Ok dw, Ok dh => Ok (Some (dw, dh))
  | _, _ => Ok None
  end.
Proof.
  intros Hs. unfold explicit_stage.
  destruct (split1_inv _ _ _ _ Hs) as [-> Hw].
  rewrite contains_app. unfold contains at 2. cbn [existsb].
  rewrite Ascii.eqb_refl. cbn [orb]. rewrite orb_true_r.
  fold (contains "x" w). rewrite Hs.
  destruct (of_str w) as [dw|e] eqn:Ew; cbn [bind].
  - destruct (of_str r) as [dh|e] eqn:Er; cbn [bind]; [reflexivity|].
    rewrite (of_str_raises r e Er). reflexivity.
  - rewrite (of_str_raises w e Ew). reflexivity.
Qed.

(** [strip (lower (W ++ "x" ++ H))] splits into the two literals. *)
Lemma split_explicit (W H : str) :
  contains "x" (lower W) = false ->
  split1 "x" (strip (lower (W ++ "x"%char :: H)))
  = Some (lstrip (lower W), rstrip (lower H)).
Proof.
  intros Hw. rewrite lower_app. cbn [lower map].
  change (lower_char "x") with "x"%char. fold (lower H).
  unfold strip. rewrite (lstrip_app_stop (lower W) "x" (lower H) eq_refl).
  rewrite (rstrip_app_stop (lstrip (lower W)) "x" (lower H) eq_refl).
  apply split1_first. apply contains_dropwhile. exact Hw.
Qed.

(** *** The ISO 216 stage *)

Lemma iso_stage_miss (prefix : str) (rest : list str) (t : str) :
  startswith t prefix = false ->
  iso_stage (prefix :: rest) t = iso_stage rest t.
Proof. intros H. cbn [iso_stage]. rewrite H. reflexivity. Qed.

Lemma iso_stage_hit (prefix : str) (rest : list str) (t : str)
  (series : ascii) (digits : str) (size : Z) :
  startswith t prefix = true ->
  lstrip (slice_from (List.length prefix) t) = series :: digits ->
  int_of_str digits = Ok size ->
  contains series (lit "abc") = true -> 0 <= size <= 10 ->
  iso_stage (prefix :: rest) t
  = (fmt <- iso216_format series size ;; Ok (Some fmt)).
Proof.
  intros Hs Hl Hi Hc Hr. cbn [iso_stage]. rewrite Hs, Hl.
  cbn [index0 bind slice_from skipn]. rewrite Hi. cbn [bind]. rewrite Hc.
  destruct (Z.leb_spec 0 size); [|lia]. destruct (Z.leb_spec size 10); [|lia].
  reflexivity.
Qed.

(** Whatever the stage returns is an ISO 216 format of a series in
    [abc] and a size in 0..10. *)
Lemma iso_stage_inv (prefixes : list str) (t : str) (f : format) :
  iso_stage prefixes t = Ok (Some f) ->
  exists series size,
    contains series (lit "abc") = true /\ 0 <= size <= 10 /\
    iso216_format series size = Ok f.
Proof.
  induction prefixes as [|prefix rest IH]; [discriminate|].
  cbn [iso_stage]. destruct (startswith t prefix); [|exact IH].
  set (iso_str := lstrip (slice_from (List.length prefix) t)).
  destruct (index0 iso_str) as [series|e]; cbn [bind].
  - destruct (int_of_str (slice_from 1 iso_str)) as [size|e]; cbn [bind].
    + destruct (contains series (lit "abc")) eqn:Hc; cbn [andb]; [|exact IH].
      destruct (Z.leb_spec 0 size); cbn [andb]; [|exact IH].
      destruct (Z.leb_spec size 10); [|exact IH].
      destruct (iso216_format series size) as [fmt|e] eqn:Hf; cbn [bind];
        [|discriminate].
      intros [= <-]. exists series, size. split; [exact Hc|]. split; [lia|exact Hf].
    + destruct e; try discriminate; exact IH.
  - destruct e; try discriminate; exact IH.
Qed.

Lemma int_of_str_raises (s : str) (e : exn) :
  int_of_str s = Raise e -> e = ValueError.
Proof.
  unfold int_of_str. destruct (split_sign _) as [neg body].
  destruct (int_body body 0 true).
  - destruct (_ <? _)%N; [|discriminate]. intros [= <-]. reflexivity.
  - intros [= <-]. reflexivity.
Qed.

(** *** The tables *)

Lemma INCH_value : INCH = Ok (Finite false 254 (-1)).
Proof. vm_compute. reflexivity. Qed.

Lemma PT_value : PT = Ok (Finite false 3527777777777777777777777778 (-28)).
Proof. vm_compute. reflexivity. Qed.

Lemma FORMATS_value :
  FORMATS
  = Ok [(lit "us letter", (Finite false 21590 (-2), Finite false 3556 (-1)))].
Proof. vm_compute. reflexivity. Qed.

Lemma contains_abc (c : ascii) :
  contains c (lit "abc") = true -> c = "a"%char \/ c = "b"%char \/ c = "c"%char.
Proof.
  unfold contains. cbn [lit list_ascii_of_string existsb].
  rewrite orb_false_r. intros H.
  apply orb_prop in H as [H|H]; [left; apply Ascii.eqb_eq, H|].
  apply orb_prop in H as [H|H]; [right; left|right; right]; apply Ascii.eqb_eq, H.
Qed.

Lemma size_cases (size : Z) :
  0 <= size <= 10 ->
  In size [0; 1; 2; 3; 4; 5; 6; 7; 8; 9; 10].
Proof.
  intros H. cbn [In].
  assert (size = 0 \/ size = 1 \/ size = 2 \/ size = 3 \/ size = 4 \/ size = 5
          \/ size = 6 \/ size = 7 \/ size = 8 \/ size = 9 \/ size = 10) by lia.
  intuition auto.
Qed.

Ltac near_by_computation :=
  unfold near_pow2_eighths, Qlt; vm_compute; repeat split; reflexivity.

(** Every format of the ISO 216 stage: both components are positive and
    within [eps] of the powers of two they stand for. *)
Lemma iso216_table (series : ascii) (size : Z) :
  contains series (lit "abc") = true -> 0 <= size <= 10 ->
  exists width height,
    iso216_format series size = Ok (width, height) /\
    is_positive width = true /\ is_positive height = true /\
    near_pow2_eighths height (base_eighths series - 4 * size) /\
    near_pow2_eighths width (base_eighths series - 4 * (size + 1)).
Proof.
  intros Hc Hs. apply contains_abc in Hc. apply size_cases in Hs.
  cbn [In] in Hs.
  destruct Hc as [ -> | [ -> | -> ] ];
    repeat (destruct Hs as [ <- | Hs ];
            [eexists; eexists;
             split; [vm_compute; reflexivity|];
             split; [reflexivity|]; split; [reflexivity|];
             split; near_by_computation|]);
    contradiction.
Qed.

Lemma table_stage_positive (t : str) (f : format) :
  table_stage t = Ok (Some f) ->
  is_positive (fst f) = true /\ is_positive (snd f) = true.
Proof.
  unfold table_stage. rewrite FORMATS_value. cbn [bind lookup].
  destruct (str_eqb t (lit "us letter")).
  - intros [= <-]. split; reflexivity.
  - unfold SYNONYMS. cbn [lookup]. destruct (str_eqb t (lit "letter")); [|discriminate].
    change (str_eqb (lit "us letter") (lit "us letter")) with true. cbv iota.
    intros [= <-]. split; reflexivity.
Qed.

(** *** Strings of the ISO 216 notation *)

Lemma digit_not_space (c : ascii) : isdigit c = true -> isspace c = false.
Proof. each_char c. Qed.

Lemma abc_not_space (c : ascii) :
  contains c (lit "abc") = true -> isspace c = false /\ Ascii.eqb "x" c = false.
Proof.
  intros H. apply contains_abc in H as [ -> | [ -> | -> ] ]; split; reflexivity.
Qed.

Lemma nonempty_last (s : str) : s <> [] -> exists a l, s = a ++ [l].
Proof.
  intros H. destruct (exists_last H) as (a & l & ->). eauto.
Qed.

(** Stripping a string made of a core between whitespace, when the core
    starts and ends with something else. *)
Lemma strip_core (ws1 ws3 : str) (h : ascii) (m : str) (l : ascii) :
  forallb isspace ws1 = true -> forallb isspace ws3 = true ->
  isspace h = false -> isspace l = false ->
  strip (ws1 ++ (h :: m ++ [l]) ++ ws3) = h :: m ++ [l].
Proof.
  intros H1 H3 Hh Hl. unfold strip.
  rewrite (lstrip_spaces_app ws1 _ H1).
  cbn [app]. rewrite (lstrip_stop h _ Hh).
  change (h :: (m ++ [l]) ++ ws3) with ((h :: m ++ [l]) ++ ws3).
  rewrite (rstrip_spaces_app _ ws3 H3).
  change (h :: m ++ [l]) with ((h :: m) ++ [l]).
  apply rstrip_ends, Hl.
Qed.

Lemma forallb_app_spaces (a b : str) :
  forallb isspace a = true -> forallb isspace b = true ->
  forallb isspace (a ++ b) = true.
Proof. intros Ha Hb. rewrite forallb_app, Ha, Hb. reflexivity. Qed.

(** What is left of prefix, whitespace, series letter and digits between
    whitespace: with the empty prefix the inner whitespace goes too. *)
Lemma strip_iso (P ws1 ws2 ws3 digits : str) (c : ascii) :
  In P iso_prefixes ->
  forallb isspace ws1 = true -> forallb isspace ws2 = true ->
  forallb isspace ws3 = true ->
  isspace c = false -> forallb isdigit digits = true -> digits <> [] ->
  strip (ws1 ++ P ++ ws2 ++ c :: digits ++ ws3)
  = match P with
    | [] => c :: digits
    | _ :: _ => P ++ ws2 ++ c :: digits
    end.
Proof.
  intros HP H1 H2 H3 Hc Hd Hne.
  destruct (nonempty_last digits Hne) as (D & l & ->).
  assert (Hl : isspace l = false).
  { apply digit_not_space. rewrite forallb_app in Hd.
    apply andb_prop in Hd as [_ Hd]. cbn [forallb] in Hd.
    rewrite andb_true_r in Hd. exact Hd. }
  destruct P as [|p P'].
  - cbn [app]. rewrite app_assoc.
    change (c :: (D ++ [l]) ++ ws3) with ((c :: D ++ [l]) ++ ws3).
    apply strip_core; auto using forallb_app_spaces.
  - assert (Hp : isspace p = false).
    { cbn [iso_prefixes In] in HP.
      destruct HP as [E|[E|[E|[E|[E|[]]]]]]; try discriminate E;
        injection E as <- _; reflexivity. }
    replace ((p :: P') ++ ws2 ++ c :: (D ++ [l]) ++ ws3)
      with ((p :: (P' ++ ws2 ++ c :: D) ++ [l]) ++ ws3)
      by (repeat (progress (rewrite <- ?app_assoc; cbn [app])); reflexivity).
    rewrite (strip_core ws1 ws3 p _ l H1 H3 Hp Hl).
    repeat (progress (rewrite <- ?app_assoc; cbn [app])). reflexivity.
Qed.

Lemma startswith_space_dash (ws r : str) (c : ascii) :
  forallb isspace ws = true -> Ascii.eqb c "-" = false ->
  startswith (ws ++ c :: r) (lit "-") = false.
Proof.
  intros Hw Hc. destruct ws as [|w ws'].
  - cbn. rewrite Hc. reflexivity.
  - cbn [forallb] in Hw. apply andb_prop in Hw as [Hw _].
    cbn. rewrite (space_not_dash w Hw). reflexivity.
Qed.

(** The stage on a stripped string of the notation. *)
Lemma iso_stage_notation (P ws2 digits : str) (c : ascii) (size : Z) :
  In P iso_prefixes -> forallb isspace ws2 = true ->
  contains c (lit "abc") = true ->
  int_of_str digits = Ok size -> 0 <= size <= 10 ->
  iso_stage iso_prefixes
    match P with
    | [] => c :: digits
    | _ :: _ => P ++ ws2 ++ c :: digits
    end
  = (fmt <- iso216_format c size ;; Ok (Some fmt)).
Proof.
  intros HP H2 Hc Hi Hs.
  assert (Hsp : isspace c = false) by apply (abc_not_space c Hc).
  assert (Hdash : Ascii.eqb c "-" = false).
  { apply contains_abc in Hc as [ -> | [ -> | -> ] ]; reflexivity. }
  assert (Hlow : lstrip (ws2 ++ c :: digits) = c :: digits).
  { rewrite (lstrip_spaces_app ws2 _ H2). apply lstrip_stop, Hsp. }
  unfold iso_prefixes in *. cbn [In] in HP.
  destruct HP as [E|[E|[E|[E|[E|[]]]]]]; subst P;
    cbn [lit list_ascii_of_string app].
  - (* din- *)
    apply (iso_stage_hit _ _ _ c digits size);
      [reflexivity|exact Hlow|exact Hi|exact Hc|exact Hs].
  - (* din *)
    rewrite iso_stage_miss.
    2:{ change (startswith (ws2 ++ c :: digits) (lit "-") = false).
        apply startswith_space_dash; assumption. }
    apply (iso_stage_hit _ _ _ c digits size);
      [reflexivity|exact Hlow|exact Hi|exact Hc|exact Hs].
  - (* iso 216 *)
    rewrite !iso_stage_miss by reflexivity.
    apply (iso_stage_hit _ _ _ c digits size);
      [reflexivity|exact Hlow|exact Hi|exact Hc|exact Hs].
  - (* iso216 *)
    rewrite !iso_stage_miss by reflexivity.
    apply (iso_stage_hit _ _ _ c digits size);
      [reflexivity|exact Hlow|exact Hi|exact Hc|exact Hs].
  - (* no prefix *)
    assert (Hm : forall p,
               In p [lit "din-"; lit "din"; lit "iso 216"; lit "iso216"] ->
               startswith (c :: digits) p = false).
    { intros p Hp. apply contains_abc in Hc as [ -> | [ -> | -> ] ];
        cbn [In] in Hp; destruct Hp as [<-|[<-|[<-|[<-|[]]]]]; reflexivity. }
    rewrite (iso_stage_miss _ _ _ (Hm (lit "din-") ltac:(cbn [In]; auto))).
    rewrite (iso_stage_miss _ _ _ (Hm (lit "din") ltac:(cbn [In]; auto))).
    rewrite (iso_stage_miss _ _ _ (Hm (lit "iso 216") ltac:(cbn [In]; auto))).
    rewrite (iso_stage_miss _ _ _ (Hm (lit "iso216") ltac:(cbn [In]; auto))).
    apply (iso_stage_hit _ _ _ c digits size);
      [reflexivity|apply lstrip_stop, Hsp|exact Hi|exact Hc|exact Hs].
Qed.

Lemma notation_no_x (P ws2 digits : str) (c : ascii) :
  In P iso_prefixes -> forallb isspace ws2 = true ->
  contains c (lit "abc") = true -> forallb isdigit digits = true ->
  contains "x"
    match P with
    | [] => c :: digits
    | _ :: _ => P ++ ws2 ++ c :: digits
    end = false.
Proof.
  intros HP H2 Hc Hd.
  assert (Hcd : contains "x" (c :: digits) = false).
  { unfold contains. cbn [existsb]. rewrite (proj2 (abc_not_space c Hc)).
    apply digits_no_x, Hd. }
  unfold iso_prefixes in HP. cbn [In] in HP.
  destruct HP as [E|[E|[E|[E|[E|[]]]]]]; subst P;
    cbn [lit list_ascii_of_string]; cbv iota;
    try (rewrite !contains_app, (spaces_no_x ws2 H2), Hcd; reflexivity).
  exact Hcd.
Qed.

(** [int(str(n))] for the sizes of the notation. *)
Lemma int_show_size (size : Z) :
  0 <= size <= 10 ->
  int_of_str (show_N (Z.to_N size)) = Ok size /\
  forallb isdigit (show_N (Z.to_N size)) = true /\
  show_N (Z.to_N size) <> [] /\
  lower (show_N (Z.to_N size)) = show_N (Z.to_N size).
Proof.
  intros H. apply size_cases in H. cbn [In] in H.
  repeat (destruct H as [ <- | H ];
          [repeat split; try reflexivity; discriminate|]).
  contradiction.
Qed.

End FormatFacts.

(* ================================================================= *)
(** * Rounding, in terms of values *)

Module RoundingFacts.

Import DecimalFacts.

Lemma ten_pos (k : Z) : (0 < (10 # 1) ^ k)%Q.
Proof. apply Qpower_0_lt. reflexivity. Qed.

Lemma ten_Z (k : Z) : 0 <= k -> ((10 # 1) ^ k == inject_Z (10 ^ k))%Q.
Proof. intros H. rewrite (Zpower_Qpower 10 k H). reflexivity. Qed.

Lemma ten_add (a b : Z) : ((10 # 1) ^ (a + b) == (10 # 1) ^ a * (10 # 1) ^ b)%Q.
Proof. apply Qpower_plus. discriminate. Qed.

Lemma ten_shift (e e' : Z) :
  e <= e' -> ((10 # 1) ^ e' == inject_Z (10 ^ (e' - e)) * (10 # 1) ^ e)%Q.
Proof.
  intros H. replace e' with ((e' - e) + e) at 1 by lia.
  rewrite ten_add, (ten_Z (e' - e)) by lia. reflexivity.
Qed.

Lemma signed_factor (s : bool) (c : N) :
  signed s c = signed s 1 * Z.of_N c.
Proof. unfold signed. destruct s; lia. Qed.

Lemma Qabs_to_Q (s : bool) (c : N) (e : Z) :
  (Qabs (to_Q (Finite s c e)) == inject_Z (Z.of_N c) * (10 # 1) ^ e)%Q.
Proof.
  unfold to_Q. rewrite Qabs_Qmult.
  rewrite (Qabs_pos ((10 # 1) ^ e)) by apply Qlt_le_weak, ten_pos.
  apply Qmult_comp; [|reflexivity].
  unfold signed. destruct s.
  - rewrite inject_Z_opp, Qabs_opp. apply Qabs_pos.
    rewrite <- (Zle_Qle 0). lia.
  - apply Qabs_pos. rewrite <- (Zle_Qle 0). lia.
Qed.

(** The value of a rounded coefficient against the exact one. *)
Lemma rounded_Q (s : bool) (c c' : N) (e e' : Z) (k : Z) :
  e <= e' -> 0 < k ->
  k * Z.abs (Z.of_N c' * 10 ^ (e' - e) - Z.of_N c) <= Z.of_N c ->
  (inject_Z k * Qabs (to_Q (Finite s c' e') - to_Q (Finite s c e))
   <= Qabs (to_Q (Finite s c e)))%Q.
Proof.
  intros He Hk H.
  assert (E : (to_Q (Finite s c' e') - to_Q (Finite s c e)
               == inject_Z (signed s 1)
                  * inject_Z (Z.of_N c' * 10 ^ (e' - e) - Z.of_N c)
                  * (10 # 1) ^ e)%Q).
  { unfold to_Q. rewrite (ten_shift e e' He).
    rewrite (signed_factor s c'), (signed_factor s c).
    unfold Zminus. rewrite !inject_Z_plus, !inject_Z_mult, inject_Z_opp. ring. }
  rewrite E, !Qabs_Qmult, Qabs_to_Q.
  rewrite (Qabs_pos ((10 # 1) ^ e)) by apply Qlt_le_weak, ten_pos.
  assert (Es : (Qabs (inject_Z (signed s 1)) == 1)%Q).
  { destruct s; reflexivity. }
  rewrite Es, Qmult_1_l.
  rewrite Qmult_assoc. apply Qmult_le_compat_r; [|apply Qlt_le_weak, ten_pos].
  assert (Ea : forall z, (Qabs (inject_Z z) == inject_Z (Z.abs z))%Q).
  { intros z. unfold inject_Z. rewrite <- Zabs_Qabs. reflexivity. }
  rewrite Ea, <- inject_Z_mult, <- Zle_Qle. exact H.
Qed.

Lemma fix_Q (s : bool) (c : N) (e K : Z) :
  0 <= K -> - K <= e -> Etiny <= e ->
  ((0 < c)%N -> ndigits c + e - prec < Etop) ->
  exists c' e',
    _fix (Finite s c e) = Ok (Finite s c' e') /\ - K <= e' /\
    (inject_Z (2 * 10 ^ 27)
     * Qabs (to_Q (Finite s c' e') - to_Q (Finite s c e))
     <= Qabs (to_Q (Finite s c e)))%Q.
Proof.
  intros HK HKe He Hov.
  destruct (N.eq_dec c 0) as [->|Hc].
  - exists 0%N, (Z.min (Z.max e Etiny) Emax).
    split; [reflexivity|]. split; [unfold Emax; lia|].
    unfold to_Q. cbn [signed]. destruct s; cbn [signed];
      change (inject_Z (- Z.of_N 0)) with 0%Q;
      change (inject_Z (Z.of_N 0)) with 0%Q;
      rewrite !Qmult_0_l; unfold Qminus; rewrite Qplus_0_l;
      change (- 0)%Q with 0%Q; rewrite Qmult_0_r; apply Qle_refl.
  - destruct (fix_round s c e He (Hov ltac:(lia)))
      as (c' & e' & Hfix & Hee & Herr & _).
    exists c', e'. split; [exact Hfix|]. split; [lia|].
    apply rounded_Q; [exact Hee|lia|exact Herr].
Qed.

Lemma Q_bound_digits (s : bool) (c : N) (e M : Z) :
  (0 < c)%N -> (Qabs (to_Q (Finite s c e)) < (10 # 1) ^ M)%Q ->
  ndigits c + e <= M.
Proof.
  intros Hc Hb. rewrite Qabs_to_Q in Hb.
  pose proof (ndigits_spec c Hc) as [Hlo _].
  pose proof (ndigits_ge_1 c) as H1.
  assert (H : ((10 # 1) ^ (ndigits c - 1 + e) < (10 # 1) ^ M)%Q).
  { rewrite ten_add, (ten_Z (ndigits c - 1)) by lia.
    eapply Qle_lt_trans; [|exact Hb].
    apply Qmult_le_compat_r; [|apply Qlt_le_weak, ten_pos].
    rewrite <- Zle_Qle. exact Hlo. }
  apply Qpower_lt_compat_l_inv in H; [lia|reflexivity].
Qed.

Lemma tame_finite (K : Z) (d : decimal) :
  tame K d -> exists s c e, d = Finite s c e /\ - K <= e.
Proof. destruct d as [s c e| | |]; cbn; try tauto. eauto. Qed.

Lemma add_exact (sa : bool) (ca : N) (ea : Z) (sb : bool) (cb : N) (eb : Z) :
  let e := Z.min ea eb in
  let z := signed sa ca * Z.of_N (pow10 (ea - e))
           + signed sb cb * Z.of_N (pow10 (eb - e)) in
  let s := if z =? 0 then sa && sb else z <? 0 in
  (to_Q (Finite s (Z.abs_N z) e)
   == to_Q (Finite sa ca ea) + to_Q (Finite sb cb eb))%Q.
Proof.
  intros e z s.
  assert (Hs : signed s (Z.abs_N z) = z).
  { unfold s. destruct (Z.eqb_spec z 0) as [Hz0|Hz0].
    - rewrite Hz0. unfold signed. destruct (sa && sb); reflexivity.
    - apply signed_abs_N. }
  unfold to_Q. rewrite Hs. unfold z.
  rewrite !pow10_Z by (unfold e; lia).
  rewrite (ten_shift e ea), (ten_shift e eb) by (unfold e; lia).
  rewrite inject_Z_plus, !inject_Z_mult. ring.
Qed.

Lemma no_overflow (s : bool) (c : N) (e : Z) :
  (Qabs (to_Q (Finite s c e)) < big)%Q ->
  (0 < c)%N -> ndigits c + e - prec < Etop.
Proof.
  intros Hb Hc. pose proof (Q_bound_digits s c e 30 Hc Hb).
  unfold Etop, Emax, prec. lia.
Qed.

Lemma add_Q (a b : decimal) (K : Z) :
  tame K a -> tame K b -> 0 <= K <= 1000000 ->
  (Qabs (to_Q a + to_Q b) < big)%Q ->
  exists r,
    add a b = Ok r /\ tame K r /\
    (inject_Z (2 * 10 ^ 27) * Qabs (to_Q r - (to_Q a + to_Q b))
     <= Qabs (to_Q a + to_Q b))%Q.
Proof.
  intros Ha Hb HK Hbig.
  destruct (tame_finite K a Ha) as (sa & ca & ea & -> & Hea).
  destruct (tame_finite K b Hb) as (sb & cb & eb & -> & Heb).
  unfold add. cbn [check_nans]. cbv zeta.
  pose proof (add_exact sa ca ea sb cb eb) as Hex. cbv zeta in Hex.
  set (e := Z.min ea eb) in *.
  set (z := signed sa ca * Z.of_N (pow10 (ea - e))
            + signed sb cb * Z.of_N (pow10 (eb - e))) in *.
  set (s := if z =? 0 then sa && sb else z <? 0) in *.
  destruct (fix_Q s (Z.abs_N z) e K) as (c' & e' & Hfix & He' & Herr).
  - lia.
  - unfold e. lia.
  - unfold e, Etiny, Emin, prec. lia.
  - apply (no_overflow s). rewrite Hex. exact Hbig.
  - exists (Finite s c' e'). split; [exact Hfix|]. split; [exact He'|].
    rewrite Hex in Herr. exact Herr.
Qed.

Lemma to_Q_negate (b : decimal) : (to_Q (copy_negate b) == - to_Q b)%Q.
Proof.
  destruct b as [s c e| | |]; cbn [copy_negate to_Q]; try reflexivity.
  unfold signed. destruct s; cbn [negb]; rewrite ?inject_Z_opp; ring.
Qed.

Lemma sub_Q (a b : decimal) (K : Z) :
  tame K a -> tame K b -> 0 <= K <= 1000000 ->
  (Qabs (to_Q a - to_Q b) < big)%Q ->
  exists r,
    sub a b = Ok r /\ tame K r /\
    (inject_Z (2 * 10 ^ 27) * Qabs (to_Q r - (to_Q a - to_Q b))
     <= Qabs (to_Q a - to_Q b))%Q.
Proof.
  intros Ha Hb HK Hbig.
  assert (Hnb : tame K (copy_negate b)).
  { destruct b; cbn in *; tauto. }
  assert (Hs : sub a b = add a (copy_negate b)).
  { unfold sub. destruct a, b; cbn in Ha, Hb; solve [reflexivity | tauto]. }
  rewrite Hs.
  assert (E : (to_Q a + to_Q (copy_negate b) == to_Q a - to_Q b)%Q).
  { rewrite to_Q_negate. reflexivity. }
  destruct (add_Q a (copy_negate b) K Ha Hnb HK) as (r & H1 & H2 & H3).
  - rewrite E. exact Hbig.
  - exists r. split; [exact H1|]. split; [exact H2|].
    rewrite E in H3. exact H3.
Qed.

Lemma mul_exact (sa : bool) (ca : N) (ea : Z) (sb : bool) (cb : N) (eb : Z) :
  (to_Q (Finite (xorb sa sb) (ca * cb) (ea + eb))
   == to_Q (Finite sa ca ea) * to_Q (Finite sb cb eb))%Q.
Proof.
  unfold to_Q. rewrite ten_add.
  assert (Hs : signed (xorb sa sb) (ca * cb) = signed sa ca * signed sb cb).
  { unfold signed. destruct sa, sb; cbn [xorb]; lia. }
  rewrite Hs, inject_Z_mult. ring.
Qed.

Lemma mul_Q (a b : decimal) (Ka Kb : Z) :
  tame Ka a -> tame Kb b -> 0 <= Ka -> 0 <= Kb -> Ka + Kb <= 1000000 ->
  (Qabs (to_Q a * to_Q b) < big)%Q ->
  exists r,
    mul a b = Ok r /\ tame (Ka + Kb) r /\
    (inject_Z (2 * 10 ^ 27) * Qabs (to_Q r - to_Q a * to_Q b)
     <= Qabs (to_Q a * to_Q b))%Q.
Proof.
  intros Ha Hb HKa HKb HK Hbig.
  destruct (tame_finite Ka a Ha) as (sa & ca & ea & -> & Hea).
  destruct (tame_finite Kb b Hb) as (sb & cb & eb & -> & Heb).
  unfold mul. cbn [check_nans].
  pose proof (mul_exact sa ca ea sb cb eb) as Hex.
  destruct (fix_Q (xorb sa sb) (ca * cb) (ea + eb) (Ka + Kb))
    as (c' & e' & Hfix & He' & Herr).
  - lia.
  - lia.
  - unfold Etiny, Emin, prec. lia.
  - apply (no_overflow (xorb sa sb)). rewrite Hex. exact Hbig.
  - exists (Finite (xorb sa sb) c' e'). split; [exact Hfix|].
    split; [exact He'|]. rewrite Hex in Herr. exact Herr.
Qed.

Lemma to_Q_of_int (z : Z) : (to_Q (of_int z) == inject_Z z)%Q.
Proof.
  unfold of_int, to_Q. rewrite signed_abs_N.
  change ((10 # 1) ^ 0)%Q with 1%Q. ring.
Qed.

Lemma tame_of_int (z K : Z) : 0 <= K -> tame K (of_int z).
Proof. intros H. unfold of_int, tame. lia. Qed.

Lemma nsub_Q (a b : number) (K : Z) :
  tame K (to_decimal a) -> tame K (to_decimal b) -> 0 <= K <= 1000000 ->
  (Qabs (to_Q (to_decimal a) - to_Q (to_decimal b)) < big)%Q ->
  exists r,
    nsub a b = Ok r /\ tame K (to_decimal r) /\
    (inject_Z (2 * 10 ^ 27)
     * Qabs (to_Q (to_decimal r) - (to_Q (to_decimal a) - to_Q (to_decimal b)))
     <= Qabs (to_Q (to_decimal a) - to_Q (to_decimal b)))%Q.
Proof.
  intros Ha Hb HK Hbig.
  assert (Hgen : exists d, sub (to_decimal a) (to_decimal b) = Ok d /\
            tame K d /\
            (inject_Z (2 * 10 ^ 27)
             * Qabs (to_Q d - (to_Q (to_decimal a) - to_Q (to_decimal b)))
             <= Qabs (to_Q (to_decimal a) - to_Q (to_decimal b)))%Q)
    by (apply sub_Q; assumption).
  destruct a as [x|da], b as [y|db].
  - exists (Int (x - y)). split; [reflexivity|].
    split; [apply tame_of_int; lia|].
    cbn [to_decimal]. rewrite !to_Q_of_int.
    assert (E : (inject_Z (x - y) - (inject_Z x - inject_Z y) == 0)%Q).
    { unfold Zminus. rewrite inject_Z_plus, inject_Z_opp. ring. }
    rewrite E. change (Qabs 0) with 0%Q. rewrite Qmult_0_r. apply Qabs_nonneg.
  - destruct Hgen as (d & H1 & H2 & H3). exists (Dec d).
    unfold nsub. rewrite H1. auto.
  - destruct Hgen as (d & H1 & H2 & H3). exists (Dec d).
    unfold nsub. rewrite H1. auto.
  - destruct Hgen as (d & H1 & H2 & H3). exists (Dec d).
    unfold nsub. rewrite H1. auto.
Qed.

(** *** Division *)

Lemma strip_zeros_spec (fuel : nat) :
  forall (c : N) (e ideal : Z), (0 < c)%N ->
    e <= snd (strip_zeros fuel c e ideal) /\
    snd (strip_zeros fuel c e ideal) <= Z.max e ideal /\
    (0 < fst (strip_zeros fuel c e ideal))%N /\
    Z.of_N c
    = Z.of_N (fst (strip_zeros fuel c e ideal))
      * 10 ^ (snd (strip_zeros fuel c e ideal) - e).
Proof.
  induction fuel as [|f IH]; intros c e ideal Hc; cbn [strip_zeros].
  - cbn [fst snd]. rewrite Z.sub_diag. cbn. lia.
  - destruct (Z.ltb_spec e ideal) as [He|He]; cbn [andb].
    2:{ cbn [fst snd]. rewrite Z.sub_diag. cbn. lia. }
    destruct (N.eqb_spec (c mod 10) 0) as [Hm|Hm].
    2:{ cbn [fst snd]. rewrite Z.sub_diag. cbn. lia. }
    pose proof (N.Div0.div_mod c 10) as Hd. rewrite Hm, N.add_0_r in Hd.
    assert (Hc' : (0 < c / 10)%N) by lia.
    destruct (IH (c / 10)%N (e + 1) ideal Hc') as (H1 & H2 & H3 & H4).
    split; [lia|]. split; [lia|]. split; [exact H3|].
    replace (snd (strip_zeros f (c / 10) (e + 1) ideal) - e)
      with ((snd (strip_zeros f (c / 10) (e + 1) ideal) - (e + 1)) + 1) by lia.
    rewrite Z.pow_add_r by lia. change (10 ^ 1) with 10.
    rewrite Z.mul_assoc, <- H4. lia.
Qed.

Lemma div_err (c' D q den num : Z) :
  0 < den -> 0 <= q -> 10 ^ 28 * den <= num ->
  Z.abs (q * den - num) <= den ->
  2 * 10 ^ 27 * Z.abs (c' * D - q) <= q ->
  10 ^ 27 * Z.abs (c' * D * den - num) <= num.
Proof.
  intros Hden Hq Hnum Hr He.
  assert (H1 : 2 * 10 ^ 27 * Z.abs ((c' * D - q) * den) <= q * den).
  { rewrite Z.abs_mul, (Z.abs_eq den) by lia.
    rewrite Z.mul_assoc. apply Z.mul_le_mono_nonneg_r; lia. }
  replace (c' * D * den - num)
    with ((c' * D - q) * den + (q * den - num)) by ring.
  set (X := (c' * D - q) * den) in *. set (Y := q * den) in *.
  clearbody X Y. lia.
Qed.

Lemma ndigits_le (c : N) (n : Z) : 1 <= n -> Z.of_N c < 10 ^ n -> ndigits c <= n.
Proof.
  intros Hn H. destruct (N.eq_dec c 0) as [->|Hc].
  - rewrite ndigits_0. lia.
  - pose proof (ndigits_spec c ltac:(lia)) as [Hlo _].
    pose proof (ndigits_ge_1 c).
    destruct (Z.le_gt_cases (ndigits c) n) as [|Hgt]; [assumption|exfalso].
    assert (10 ^ n <= 10 ^ (ndigits c - 1)) by (apply Z.pow_le_mono_r; lia).
    lia.
Qed.

(** The quotient of two coefficients, with the sticky digit, rounded. *)
Lemma div_rounds (sign : bool) (num den : N) (e ideal : Z) (fuel : nat) :
  (0 < den)%N ->
  10 ^ 28 * Z.of_N den <= Z.of_N num < 10 ^ 30 * Z.of_N den ->
  Etiny <= e -> Z.max e ideal <= 950000 ->
  exists c' e',
    (let q := (num / den)%N in
     let r := (num mod den)%N in
     if (r =? 0)%N then
       let '(q', e') := strip_zeros fuel q e ideal in
       _fix (Finite sign q' e')
     else
       _fix (Finite sign (if (q mod 5 =? 0)%N then q + 1 else q)%N e))
    = Ok (Finite sign c' e') /\
    e <= e' /\
    10 ^ 27 * Z.abs (Z.of_N c' * 10 ^ (e' - e) * Z.of_N den - Z.of_N num)
    <= Z.of_N num.
Proof.
  intros Hden [Hlo Hhi] He Hmax. cbv zeta.
  pose proof (N.Div0.div_mod num den) as Hdm.
  pose proof (N.mod_lt num den ltac:(lia)) as Hr.
  set (q := (num / den)%N) in *. set (r := (num mod den)%N) in *.
  assert (Hq : 10 ^ 28 <= Z.of_N q < 10 ^ 30).
  { unfold q. rewrite N2Z.inj_div. split.
    - apply Z.div_le_lower_bound; lia.
    - apply Z.div_lt_upper_bound; lia. }
  clearbody q r.
  destruct (N.eqb_spec r 0) as [Hr0|Hr0].
  - subst r. rewrite N.add_0_r in Hdm.
    pose proof (strip_zeros_spec fuel q e ideal ltac:(lia)) as (S1 & S2 & S3 & S4).
    destruct (strip_zeros fuel q e ideal) as [q' es]. cbn [fst snd] in *.
    assert (HD2 : 0 < 10 ^ (es - e)) by (apply Zpow10_pos; lia).
    assert (Hq' : ndigits q' <= 30).
    { apply ndigits_le; [lia|]. nia. }
    destruct (fix_round sign q' es) as (c' & e' & Hfix & Hee & Herr & _).
    + lia.
    + unfold Etop, Emax, prec. lia.
    + exists c', e'. split; [exact Hfix|]. split; [lia|].
      replace (e' - e) with ((e' - es) + (es - e)) by lia.
      rewrite Z.pow_add_r by lia.
      set (D1 := 10 ^ (e' - es)) in *. set (D2 := 10 ^ (es - e)) in *.
      assert (E : Z.of_N c' * (D1 * D2) * Z.of_N den - Z.of_N num
                  = (Z.of_N c' * D1 - Z.of_N q') * (D2 * Z.of_N den)) by nia.
      rewrite E, Z.abs_mul, (Z.abs_eq (D2 * Z.of_N den)) by nia.
      assert (H2 : 2 * 10 ^ 27 * Z.abs (Z.of_N c' * D1 - Z.of_N q')
                   * (D2 * Z.of_N den)
                   <= Z.of_N q' * (D2 * Z.of_N den))
        by (apply Z.mul_le_mono_nonneg_r; [nia|exact Herr]).
      nia.
  - set (q2 := if (q mod 5 =? 0)%N then (q + 1)%N else q).
    assert (Hq2 : Z.of_N q2 = Z.of_N q \/ Z.of_N q2 = Z.of_N q + 1).
    { unfold q2. destruct (q mod 5 =? 0)%N; lia. }
    assert (Hnd : ndigits q2 <= 31).
    { apply ndigits_le; [lia|].
      assert (10 ^ 30 < 10 ^ 31) by (apply Z.pow_lt_mono_r; lia). lia. }
    destruct (fix_round sign q2 e) as (c' & e' & Hfix & Hee & Herr & _).
    + lia.
    + unfold Etop, Emax, prec. lia.
    + exists c', e'. split; [exact Hfix|]. split; [lia|].
      apply (div_err _ _ (Z.of_N q2)); try lia; nia.
Qed.

Lemma Qabs_inject (z : Z) : (Qabs (inject_Z z) == inject_Z (Z.abs z))%Q.
Proof. unfold inject_Z. rewrite <- Zabs_Qabs. reflexivity. Qed.

Lemma signed_quotient (sa sb : bool) (c' cb : N) :
  signed (xorb sa sb) c' * signed sb cb = signed sa 1 * (Z.of_N c' * Z.of_N cb).
Proof. unfold signed. destruct sa, sb; cbn [xorb]; lia. Qed.

(** From the coefficients to the values: the error of a quotient. *)
Lemma quotient_error (sa : bool) (d n : Z) (t : Z) (A X : Q) :
  (Qabs A == inject_Z n * (10 # 1) ^ t)%Q ->
  (X == inject_Z (signed sa 1) * inject_Z d * (10 # 1) ^ t)%Q ->
  10 ^ 27 * Z.abs d <= n ->
  (inject_Z (10 ^ 27) * Qabs X <= Qabs A)%Q.
Proof.
  intros HA HX H. rewrite HA, HX, !Qabs_Qmult.
  rewrite (Qabs_pos ((10 # 1) ^ t)) by apply Qlt_le_weak, ten_pos.
  assert (Es : (Qabs (inject_Z (signed sa 1)) == 1)%Q) by (destruct sa; reflexivity).
  rewrite Es, Qmult_1_l, Qabs_inject, Qmult_assoc.
  apply Qmult_le_compat_r; [|apply Qlt_le_weak, ten_pos].
  rewrite <- inject_Z_mult, <- Zle_Qle. exact H.
Qed.

Lemma to_Q_zero (s : bool) (e : Z) : (to_Q (Finite s 0 e) == 0)%Q.
Proof.
  unfold to_Q. assert (E : signed s 0 = 0) by (destruct s; reflexivity).
  rewrite E. apply Qmult_0_l.
Qed.

Lemma div_Q (a b : decimal) (Ka Kb : Z) :
  tame Ka a -> tame Kb b -> 0 <= Ka <= 900000 -> 0 <= Kb <= 900000 ->
  (Qabs (to_Q a) < big)%Q -> (Qabs (to_Q b) < big)%Q -> ~ (to_Q b == 0)%Q ->
  exists r,
    div a b = Ok r /\ tame (Ka + 58) r /\
    (inject_Z (10 ^ 27) * Qabs (to_Q r * to_Q b - to_Q a) <= Qabs (to_Q a))%Q.
Proof.
  intros Ha Hb HKa HKb Ba Bb Hnz.
  destruct (tame_finite Ka a Ha) as (sa & ca & ea & -> & Hea).
  destruct (tame_finite Kb b Hb) as (sb & cb & eb & -> & Heb).
  assert (Hcb : (0 < cb)%N).
  { destruct (N.eq_dec cb 0) as [->|]; [|lia].
    exfalso. apply Hnz, to_Q_zero. }
  pose proof (Q_bound_digits sb cb eb 30 Hcb Bb) as Db.
  pose proof (ndigits_ge_1 cb) as Nb1.
  pose proof (ndigits_spec cb Hcb) as [Lb Ub].
  unfold div. cbn [check_nans]. cbv zeta.
  destruct (N.eqb_spec cb 0) as [|_]; [lia|].
  destruct (N.eqb_spec ca 0) as [->|Hca0].
  - exists (Finite (xorb sa sb) 0 (Z.min (Z.max (ea - eb) Etiny) Emax)).
    split; [reflexivity|]. split; [unfold tame, Etiny, Emin, Emax, prec; lia|].
    rewrite !to_Q_zero.
    assert (E : (0 * to_Q (Finite sb cb eb) - 0 == 0)%Q) by ring.
    rewrite E. change (Qabs 0) with 0%Q. rewrite Qmult_0_r. apply Qle_refl.
  - assert (Hca : (0 < ca)%N) by lia.
    pose proof (Q_bound_digits sa ca ea 30 Hca Ba) as Da.
    pose proof (ndigits_ge_1 ca) as Na1.
    pose proof (ndigits_spec ca Hca) as [La Ua].
    set (na := ndigits ca) in *. set (nb := ndigits cb) in *.
    set (shift := nb - na + prec + 1).
    set (e := ea - eb - shift).
    assert (Hshift : shift = nb - na + 29) by (unfold shift, prec; lia).
    assert (HP2 : 10 ^ na = 10 * 10 ^ (na - 1)).
    { replace na with ((na - 1) + 1) at 1 by lia. apply Zpow10_succ. lia. }
    assert (HQ2 : 10 ^ nb = 10 * 10 ^ (nb - 1)).
    { replace nb with ((nb - 1) + 1) at 1 by lia. apply Zpow10_succ. lia. }
    assert (HP1 : 0 < 10 ^ (na - 1)) by (apply Zpow10_pos; lia).
    assert (HQ1 : 0 < 10 ^ (nb - 1)) by (apply Zpow10_pos; lia).
    assert (Hee : Etiny <= e) by (unfold e, Etiny, Emin, prec; lia).
    assert (Hmax : Z.max e (ea - eb) <= 950000) by (unfold e; lia).
    assert (Hsg : forall c' : N,
              (inject_Z (signed (xorb sa sb) c') * inject_Z (signed sb cb)
               == inject_Z (signed sa 1) * (inject_Z (Z.of_N c') * inject_Z (Z.of_N cb)))%Q).
    { intros c'. rewrite <- !inject_Z_mult, signed_quotient. reflexivity. }
    assert (Hsa : (inject_Z (signed sa ca)
                   == inject_Z (signed sa 1) * inject_Z (Z.of_N ca))%Q).
    { rewrite <- inject_Z_mult, <- signed_factor. reflexivity. }
    destruct (Z.leb_spec 0 shift) as [Hs|Hs]; cbv beta iota.
    + (* the dividend is scaled up *)
      assert (HS : 0 < 10 ^ shift) by (apply Zpow10_pos; lia).
      assert (Hid : 10 ^ (na - 1) * 10 ^ shift = 10 ^ 28 * 10 ^ nb).
      { rewrite <- !Z.pow_add_r by lia. f_equal. lia. }
      destruct (div_rounds (xorb sa sb) (ca * pow10 shift) cb e (ea - eb)
                  (Z.to_nat (ea - eb - e)) Hcb)
        as (c' & e' & Hdiv & He' & Herr).
      * rewrite N2Z.inj_mul, pow10_Z by lia.
        set (P1 := 10 ^ (na - 1)) in *. set (Q1 := 10 ^ (nb - 1)) in *.
        set (S := 10 ^ shift) in *. nia.
      * exact Hee.
      * exact Hmax.
      * exists (Finite (xorb sa sb) c' e'). split; [exact Hdiv|].
        split; [unfold tame, e; lia|].
        rewrite N2Z.inj_mul, pow10_Z in Herr by lia.
        assert (Tea : ((10 # 1) ^ ea
                       == inject_Z (10 ^ shift) * ((10 # 1) ^ e * (10 # 1) ^ eb))%Q).
        { rewrite <- ten_add, (ten_shift (e + eb) ea) by (unfold e; lia).
          replace (ea - (e + eb)) with shift by (unfold e; lia). reflexivity. }
        apply (quotient_error sa
                 (Z.of_N c' * 10 ^ (e' - e) * Z.of_N cb - Z.of_N ca * 10 ^ shift)
                 (Z.of_N ca * 10 ^ shift) (e + eb)); [| |exact Herr].
        -- rewrite Qabs_to_Q, Tea, ten_add, inject_Z_mult. ring.
        -- unfold to_Q. rewrite (ten_shift e e' He'), Tea, ten_add, Hsa.
           unfold Zminus.
           rewrite inject_Z_plus, inject_Z_opp, !inject_Z_mult.
           transitivity
             (inject_Z (signed (xorb sa sb) c') * inject_Z (signed sb cb)
              * (inject_Z (10 ^ (e' + - e)) * ((10 # 1) ^ e * (10 # 1) ^ eb))
              - inject_Z (signed sa 1) * inject_Z (Z.of_N ca)
                * (inject_Z (10 ^ shift) * ((10 # 1) ^ e * (10 # 1) ^ eb)))%Q;
             [ring|].
           rewrite Hsg. ring.
    + (* the divisor is scaled up *)
      set (m := - shift).
      assert (Hm : 0 < m) by (unfold m; lia).
      assert (HM : 0 < 10 ^ m) by (apply Zpow10_pos; lia).
      assert (Hid : 10 ^ 28 * 10 ^ nb * 10 ^ m = 10 ^ (na - 1)).
      { rewrite <- !Z.pow_add_r by lia. f_equal. unfold m. lia. }
      assert (Hden : (0 < cb * pow10 m)%N).
      { pose proof (pow10_pos m). lia. }
      destruct (div_rounds (xorb sa sb) ca (cb * pow10 m) e (ea - eb)
                  (Z.to_nat (ea - eb - e)) Hden)
        as (c' & e' & Hdiv & He' & Herr).
      * rewrite N2Z.inj_mul, pow10_Z by lia.
        set (P1 := 10 ^ (na - 1)) in *. set (Q1 := 10 ^ (nb - 1)) in *.
        set (S := 10 ^ m) in *. nia.
      * exact Hee.
      * exact Hmax.
      * exists (Finite (xorb sa sb) c' e'). split; [exact Hdiv|].
        split; [unfold tame, e; lia|].
        rewrite N2Z.inj_mul, pow10_Z in Herr by lia.
        assert (Tb : ((10 # 1) ^ e * (10 # 1) ^ eb
                      == inject_Z (10 ^ m) * (10 # 1) ^ ea)%Q).
        { rewrite <- ten_add, (ten_shift ea (e + eb)) by (unfold e; lia).
          replace (e + eb - ea) with m by (unfold e, m; lia). reflexivity. }
        apply (quotient_error sa
                 (Z.of_N c' * 10 ^ (e' - e) * (Z.of_N cb * 10 ^ m) - Z.of_N ca)
                 (Z.of_N ca) ea); [| |exact Herr].
        -- apply Qabs_to_Q.
        -- unfold to_Q. rewrite (ten_shift e e' He'), Hsa.
           unfold Zminus.
           rewrite inject_Z_plus, inject_Z_opp, !inject_Z_mult.
           transitivity
             (inject_Z (signed (xorb sa sb) c') * inject_Z (signed sb cb)
              * (inject_Z (10 ^ (e' + - e)) * ((10 # 1) ^ e * (10 # 1) ^ eb))
              - inject_Z (signed sa 1) * inject_Z (Z.of_N ca) * (10 # 1) ^ ea)%Q;
             [ring|].
           rewrite Hsg, Tb. ring.
Qed.

(** *** Errors as absolute bounds *)

Lemma modest_tame (d : decimal) : modest d -> tame 1000 d.
Proof. destruct d; cbn; tauto. Qed.

Lemma tame_weaken (K K' : Z) (d : decimal) : tame K d -> K <= K' -> tame K' d.
Proof. destruct d; cbn; try tauto. lia. Qed.

Lemma modest_bound (d : decimal) : modest d -> (Qabs (to_Q d) <= 1000000)%Q.
Proof.
  destruct d as [s c e| | |]; cbn [modest]; try tauto. intros [He Hd].
  rewrite Qabs_to_Q.
  destruct (N.eq_dec c 0) as [->|Hc].
  - change (inject_Z (Z.of_N 0)) with 0%Q. rewrite Qmult_0_l. discriminate.
  - pose proof (ndigits_spec c ltac:(lia)) as [_ Hhi].
    pose proof (ndigits_ge_1 c).
    apply Qle_trans with ((10 # 1) ^ (ndigits c + e))%Q.
    + rewrite ten_add, (ten_Z (ndigits c)) by lia.
      apply Qmult_le_compat_r; [|apply Qlt_le_weak, ten_pos].
      rewrite <- Zle_Qle. lia.
    + change 1000000%Q with ((10 # 1) ^ 6)%Q.
      apply Qpower_le_compat_l; [exact Hd|discriminate].
Qed.

Lemma Qabs_mul_le (x y a b : Q) :
  (Qabs x <= a -> Qabs y <= b -> Qabs (x * y) <= a * b)%Q.
Proof.
  intros Hx Hy. rewrite Qabs_Qmult.
  apply Qle_trans with (a * Qabs y)%Q.
  - apply Qmult_le_compat_r; [exact Hx|apply Qabs_nonneg].
  - rewrite (Qmult_comm a), (Qmult_comm a). apply Qmult_le_compat_r; [exact Hy|].
    apply Qle_trans with (Qabs x); [apply Qabs_nonneg|exact Hx].
Qed.

Lemma half_ulp_error (X Y bnd : Q) :
  (inject_Z (2 * 10 ^ 27) * Qabs X <= Qabs Y -> Qabs Y <= bnd ->
   Qabs X <= bnd * half_ulp)%Q.
Proof.
  intros H1 H2. unfold half_ulp.
  change (inject_Z (2 * 10 ^ 27)) with (2000000000000000000000000000 # 1)%Q in H1.
  lra.
Qed.

Lemma ulp_error (X Y bnd : Q) :
  (inject_Z (10 ^ 27) * Qabs X <= Qabs Y -> Qabs Y <= bnd ->
   Qabs X <= bnd * ulp)%Q.
Proof.
  intros H1 H2. unfold ulp.
  change (inject_Z (10 ^ 27)) with (1000000000000000000000000000 # 1)%Q in H1.
  lra.
Qed.

Lemma below_big (x bnd : Q) :
  (Qabs x <= bnd -> bnd <= 10000000000000000000 -> Qabs x < big)%Q.
Proof.
  intros H1 H2. unfold big. set (ax := Qabs x) in *. lra.
Qed.

Lemma sub_abs (a b r : decimal) (K : Z) (bnd : Q) :
  tame K a -> tame K b -> 0 <= K <= 1000000 ->
  (Qabs (to_Q a - to_Q b) <= bnd)%Q -> (bnd <= 10000000000000000000)%Q ->
  sub a b = Ok r ->
  tame K r /\ (Qabs (to_Q r - (to_Q a - to_Q b)) <= bnd * half_ulp)%Q.
Proof.
  intros Ha Hb HK B Hbnd H.
  destruct (sub_Q a b K Ha Hb HK (below_big _ _ B Hbnd)) as (r' & E & T & Err).
  rewrite H in E. injection E as <-. split; [exact T|].
  exact (half_ulp_error _ _ _ Err B).
Qed.

Lemma add_abs (a b r : decimal) (K : Z) (bnd : Q) :
  tame K a -> tame K b -> 0 <= K <= 1000000 ->
  (Qabs (to_Q a + to_Q b) <= bnd)%Q -> (bnd <= 10000000000000000000)%Q ->
  add a b = Ok r ->
  tame K r /\ (Qabs (to_Q r - (to_Q a + to_Q b)) <= bnd * half_ulp)%Q.
Proof.
  intros Ha Hb HK B Hbnd H.
  destruct (add_Q a b K Ha Hb HK (below_big _ _ B Hbnd)) as (r' & E & T & Err).
  rewrite H in E. injection E as <-. split; [exact T|].
  exact (half_ulp_error _ _ _ Err B).
Qed.

Lemma mul_abs (a b r : decimal) (Ka Kb : Z) (bnd : Q) :
  tame Ka a -> tame Kb b -> 0 <= Ka -> 0 <= Kb -> Ka + Kb <= 1000000 ->
  (Qabs (to_Q a * to_Q b) <= bnd)%Q -> (bnd <= 10000000000000000000)%Q ->
  mul a b = Ok r ->
  tame (Ka + Kb) r /\ (Qabs (to_Q r - to_Q a * to_Q b) <= bnd * half_ulp)%Q.
Proof.
  intros Ha Hb HKa HKb HK B Hbnd H.
  destruct (mul_Q a b Ka Kb Ha Hb HKa HKb HK (below_big _ _ B Hbnd))
    as (r' & E & T & Err).
  rewrite H in E. injection E as <-. split; [exact T|].
  exact (half_ulp_error _ _ _ Err B).
Qed.

Lemma nsub_abs (a b r : number) (K : Z) (bnd : Q) :
  tame K (to_decimal a) -> tame K (to_decimal b) -> 0 <= K <= 1000000 ->
  (Qabs (to_Q (to_decimal a) - to_Q (to_decimal b)) <= bnd)%Q ->
  (bnd <= 10000000000000000000)%Q ->
  nsub a b = Ok r ->
  tame K (to_decimal r) /\
  (Qabs (to_Q (to_decimal r) - (to_Q (to_decimal a) - to_Q (to_decimal b)))
   <= bnd * half_ulp)%Q.
Proof.
  intros Ha Hb HK B Hbnd H.
  destruct (nsub_Q a b K Ha Hb HK (below_big _ _ B Hbnd)) as (r' & E & T & Err).
  rewrite H in E. injection E as <-. split; [exact T|].
  exact (half_ulp_error _ _ _ Err B).
Qed.

Lemma div_abs (a b r : decimal) (Ka Kb : Z) (bnd bb : Q) :
  tame Ka a -> tame Kb b -> 0 <= Ka <= 900000 -> 0 <= Kb <= 900000 ->
  (Qabs (to_Q a) <= bnd)%Q -> (bnd <= 10000000000000000000)%Q ->
  (Qabs (to_Q b) <= bb)%Q -> (bb <= 10000000000000000000)%Q ->
  ~ (to_Q b == 0)%Q ->
  div a b = Ok r ->
  tame (Ka + 58) r /\ (Qabs (to_Q r * to_Q b - to_Q a) <= bnd * ulp)%Q.
Proof.
  intros Ha Hb HKa HKb B Hbnd B' Hbb Hnz H.
  destruct (div_Q a b Ka Kb Ha Hb HKa HKb (below_big _ _ B Hbnd)
              (below_big _ _ B' Hbb) Hnz) as (r' & E & T & Err).
  rewrite H in E. injection E as <-. split; [exact T|].
  exact (ulp_error _ _ _ Err B).
Qed.

Lemma bound_quotient (S W c : Q) :
  (9 # 10 <= W -> Qabs (S * W) <= c -> Qabs S <= c * (10 # 9))%Q.
Proof.
  intros HW H. rewrite Qabs_Qmult in H.
  assert (HWp : (Qabs W == W)%Q) by (apply Qabs_pos; lra).
  rewrite HWp in H.
  assert (H1 : ((9 # 10) * Qabs S <= W * Qabs S)%Q)
    by (apply Qmult_le_compat_r; [exact HW|apply Qabs_nonneg]).
  set (aS := Qabs S) in *. set (P := (W * aS)%Q) in *.
  assert (HP : (P == aS * W)%Q) by (unfold P; ring).
  lra.
Qed.

Ltac split_abs H := apply Qabs_Qle_condition in H.

End RoundingFacts.

(** * What pikepdf keeps of a number *)

Module StoreFacts.
Import Str Decimal DecimalFacts RoundingFacts.

(** [round_at] at the precision of pikepdf, on a finite Decimal above the
    underflow and below the overflow of that precision: the result is off
    by at most half a unit of the last of 15 digits. *)
Lemma round_at_spec (s : bool) (c : N) (e : Z) :
  Emin - 14 <= e -> ndigits c + e - 15 < Emax - 14 ->
  exists c' e',
    round_at decimal_precision s c e = Ok (Finite s c' e') /\
    e <= e' /\
    2 * 10 ^ 14 * Z.abs (Z.of_N c' * 10 ^ (e' - e) - Z.of_N c) <= Z.of_N c.
Proof.
  intros He Hov. unfold round_at, decimal_precision.
  destruct (N.eqb_spec c 0) as [->|Hc].
  - exists 0%N, e. rewrite ndigits_0 in Hov. split.
    + f_equal. f_equal. unfold Emax, Emin in *. lia.
    + split; [lia|]. change (Z.of_N 0) with 0. lia.
  - pose proof (ndigits_spec c ltac:(lia)) as [Hlo Hhi].
    pose proof (ndigits_ge_1 c) as H1.
    destruct (Z.gtb_spec (ndigits c + e - 15) (Emax - 15 + 1)); [lia|].
    destruct (Z.le_gt_cases (ndigits c) 15) as [Hle|Hgt].
    + destruct (Z.ltb_spec e (Z.max (ndigits c + e - 15) (Emin - 15 + 1)));
        [lia|].
      exists c, e. split; [reflexivity|]. split; [lia|].
      rewrite Z.sub_diag, Z.pow_0_r. lia.
    + rewrite Z.max_l by lia.
      destruct (Z.ltb_spec e (ndigits c + e - 15)); [|lia].
      replace (ndigits c + e - 15 - e) with (ndigits c - 15) by lia.
      set (k := ndigits c - 15) in *.
      assert (Hk : 0 < k) by (unfold k; lia).
      destruct (round_half_even_error c k) as [Hq Herr].
      set (q := round_half_even c k) in *.
      pose proof (pow10_Z k ltac:(lia)) as HP.
      set (p := pow10 k) in *.
      assert (Hp : (0 < p)%N) by apply pow10_pos.
      assert (Hlo' : 10 ^ 14 * Z.of_N p <= Z.of_N c).
      { rewrite HP, <- Z.pow_add_r by lia.
        replace (14 + k) with (ndigits c - 1) by (unfold k; lia). exact Hlo. }
      assert (Hhi' : Z.of_N c < 10 ^ 15 * Z.of_N p).
      { rewrite HP, <- Z.pow_add_r by lia.
        replace (15 + k) with (ndigits c) by (unfold k; lia). exact Hhi. }
      assert (Hq1 : (10 ^ 14 <= c / p)%N).
      { apply N.div_le_lower_bound; [lia|]. lia. }
      assert (Hq2 : (c / p < 10 ^ 15)%N).
      { apply N.Div0.div_lt_upper_bound. lia. }
      assert (Hqr : 10 ^ 14 <= Z.of_N q <= 10 ^ 15) by lia.
      clearbody q p. clear Hq Hq1 Hq2.
      destruct (Z.eq_dec (Z.of_N q) (10 ^ 15)) as [Heq|Hne].
      * assert (Hnd : ndigits q = 16) by (apply ndigits_unique; lia).
        assert (Hq10 : Z.of_N (q / 10) = 10 ^ 14).
        { rewrite N2Z.inj_div. change (Z.of_N 10) with 10. rewrite Heq.
          reflexivity. }
        rewrite Hnd.
        destruct (Z.gtb_spec 16 15) as [_|Hf]; [|lia].
        destruct (Z.gtb_spec (ndigits c + e - 15 + 1) (Emax - 15 + 1)); [lia|].
        exists (q / 10)%N, (ndigits c + e - 15 + 1).
        split; [reflexivity|]. split; [lia|].
        replace (ndigits c + e - 15 + 1 - e) with (k + 1) by (unfold k; lia).
        rewrite Zpow10_succ by lia. rewrite <- HP. lia.
      * assert (Hnd : ndigits q = 15) by (apply ndigits_unique; lia).
        rewrite Hnd.
        destruct (Z.gtb_spec 15 15) as [Hf|_]; [lia|].
        destruct (Z.gtb_spec (ndigits c + e - 15) (Emax - 15 + 1)); [lia|].
        exists q, (ndigits c + e - 15).
        split; [reflexivity|]. split; [lia|].
        replace (ndigits c + e - 15 - e) with k by (unfold k; lia).
        rewrite <- HP. lia.
Qed.

(** What pikepdf keeps, in terms of values. *)
Lemma encode_Q (n : number) (K : Z) :
  tame K (to_decimal n) -> 0 <= K <= 1000000 ->
  (Qabs (to_Q (to_decimal n)) < big)%Q ->
  exists n',
    encode n = Ok n' /\ tame K (to_decimal n') /\
    (inject_Z (2 * 10 ^ 14)
     * Qabs (to_Q (to_decimal n') - to_Q (to_decimal n))
     <= Qabs (to_Q (to_decimal n)))%Q.
Proof.
  intros Ht HK Hbig. destruct n as [z|d].
  - exists (Int z). split; [reflexivity|]. split; [exact Ht|].
    assert (E : (to_Q (to_decimal (Int z)) - to_Q (to_decimal (Int z)) == 0)%Q)
      by ring.
    rewrite E. change (Qabs 0) with 0%Q. rewrite Qmult_0_r. apply Qabs_nonneg.
  - cbn [to_decimal] in *.
    destruct (tame_finite K d Ht) as (s & c & e & -> & He).
    cbn [encode].
    destruct (N.eqb_spec c 0) as [->|Hc].
    + unfold round_at. cbn [N.eqb bind].
      eexists. split; [reflexivity|]. cbn [to_decimal]. split.
      * unfold tame, decimal_precision, Emin, Emax. lia.
      * rewrite !to_Q_zero.
        assert (E : (0 - 0 == 0)%Q) by ring.
        rewrite E. change (Qabs 0) with 0%Q. rewrite Qmult_0_r. apply Qle_refl.
    + destruct (round_at_spec s c e) as (c' & e' & Hr & Hee & Herr).
      * unfold Emin. lia.
      * pose proof (Q_bound_digits s c e 30 ltac:(lia) Hbig). unfold Emax. lia.
      * rewrite Hr. cbn [bind]. exists (Dec (Finite s c' e')).
        split; [reflexivity|]. cbn [to_decimal]. split; [unfold tame; lia|].
        apply rounded_Q; [exact Hee|lia|exact Herr].
Qed.

Lemma store_error (X Y bnd : Q) :
  (inject_Z (2 * 10 ^ 14) * Qabs X <= Qabs Y -> Qabs Y <= bnd ->
   Qabs X <= bnd * (1 # 200000000000000))%Q.
Proof.
  intros H1 H2.
  change (inject_Z (2 * 10 ^ 14)) with (200000000000000 # 1)%Q in H1.
  lra.
Qed.

Lemma encode_abs (n n' : number) (K : Z) (bnd : Q) :
  tame K (to_decimal n) -> 0 <= K <= 1000000 ->
  (Qabs (to_Q (to_decimal n)) <= bnd)%Q -> (bnd <= 10000000000000000000)%Q ->
  encode n = Ok n' ->
  tame K (to_decimal n') /\
  (Qabs (to_Q (to_decimal n') - to_Q (to_decimal n))
   <= bnd * (1 # 200000000000000))%Q.
Proof.
  intros Ht HK B Hbnd H.
  destruct (encode_Q n K Ht HK (below_big _ _ B Hbnd)) as (r & E & T & Err).
  rewrite H in E. injection E as <-. split; [exact T|].
  exact (store_error _ _ _ Err B).
Qed.

(** A number within the precision keeps its value. *)
Lemma encode_kept (n n' : number) :
  within_precision n -> encode n = Ok n' ->
  (to_Q (to_decimal n') == to_Q (to_decimal n))%Q.
Proof.
  destruct n as [z|[s c e| | |]]; cbn [within_precision encode];
    try tauto.
  - intros _ [= <-]. reflexivity.
  - intros [Hd He]. unfold round_at, decimal_precision in *.
    destruct (N.eqb_spec c 0) as [->|Hc].
    + cbn [bind]. intros [= <-]. cbn [to_decimal]. rewrite !to_Q_zero.
      reflexivity.
    + destruct (Z.gtb_spec (ndigits c + e - 15) (Emax - 15 + 1));
        [discriminate|].
      destruct (Z.ltb_spec e (Z.max (ndigits c + e - 15) (Emin - 15 + 1)));
        [lia|].
      cbn [bind]. intros [= <-]. reflexivity.
Qed.

(** The threshold test, from the value. *)
Lemma abs_lt_1_of_Q (d : decimal) :
  is_finite d = true -> (Qabs (to_Q d) < 1)%Q -> abs_lt_1 d.
Proof.
  destruct d as [s c e| | |]; try discriminate. intros _ H.
  rewrite Qabs_to_Q in H. unfold abs_lt_1.
  destruct (Z.le_gt_cases 0 e) as [He|He].
  - rewrite (pow10_nonpos (- e)) by lia.
    assert (Hc : Z.of_N c < 1).
    { destruct (Z.lt_ge_cases (Z.of_N c) 1) as [|Hge]; [assumption|exfalso].
      apply (Qlt_not_le _ _ H).
      rewrite (ten_Z e He), <- inject_Z_mult.
      change 1%Q with (inject_Z 1). rewrite <- Zle_Qle.
      pose proof (Zpow10_pos e He). nia. }
    assert (c = 0%N) by lia. subst c. rewrite N.mul_0_l. lia.
  - rewrite (pow10_nonpos e) by lia. rewrite N.mul_1_r.
    apply N2Z.inj_lt. rewrite pow10_Z by lia.
    assert (Hm : ((10 # 1) ^ e * (10 # 1) ^ (- e) == 1)%Q).
    { rewrite <- ten_add. replace (e + - e) with 0 by lia. reflexivity. }
    assert (Hp : (0 < (10 # 1) ^ (- e))%Q) by apply ten_pos.
    assert (H' : (inject_Z (Z.of_N c) * ((10 # 1) ^ e * (10 # 1) ^ (- e))
                  < 1 * (10 # 1) ^ (- e))%Q).
    { rewrite Qmult_assoc. apply Qmult_lt_compat_r; assumption. }
    rewrite Hm, Qmult_1_r, Qmult_1_l, (ten_Z (- e)) in H' by lia.
    rewrite <- Zlt_Qlt in H'. exact H'.
Qed.

Lemma steady_tame (d : decimal) : steady d -> tame 1000000 d.
Proof. destruct d; cbn; tauto. Qed.

Lemma steady_bound (d : decimal) : steady d -> (Qabs (to_Q d) <= 10000000000000)%Q.
Proof.
  destruct d as [s c e| | |]; cbn [steady]; try tauto. intros [He Hd].
  rewrite Qabs_to_Q.
  destruct (N.eq_dec c 0) as [->|Hc].
  - change (inject_Z (Z.of_N 0)) with 0%Q. rewrite Qmult_0_l. discriminate.
  - pose proof (ndigits_spec c ltac:(lia)) as [_ Hhi].
    pose proof (ndigits_ge_1 c).
    apply Qle_trans with ((10 # 1) ^ (ndigits c + e))%Q.
    + rewrite ten_add, (ten_Z (ndigits c)) by lia.
      apply Qmult_le_compat_r; [|apply Qlt_le_weak, ten_pos].
      rewrite <- Zle_Qle. lia.
    + change 10000000000000%Q with ((10 # 1) ^ 13)%Q.
      apply Qpower_le_compat_l; [exact Hd|discriminate].
Qed.

(** One axis of the page, resized, stored and measured again: the new
    difference to the target is below one unit. *)
Lemma axis_settles_stored (lo hi w lo' hi' : number) (f diff nhi : decimal) :
  steady (to_decimal lo) -> steady (to_decimal hi) -> steady f ->
  nsub hi lo = Ok w ->
  sub (to_decimal w) f = Ok diff ->
  sub (to_decimal hi) diff = Ok nhi ->
  encode lo = Ok lo' ->
  encode (Dec nhi) = Ok hi' ->
  exists w' diff' a,
    nsub hi' lo' = Ok w' /\
    sub (to_decimal w') f = Ok diff' /\
    abs diff' = Ok a /\
    lt a (of_int 1) = Ok true.
Proof.
  intros Mlo Mhi Mf Hw Hd Hn El Eh.
  pose proof (steady_tame _ Mlo) as Tlo. pose proof (steady_bound _ Mlo) as Blo.
  pose proof (steady_tame _ Mhi) as Thi. pose proof (steady_bound _ Mhi) as Bhi.
  pose proof (steady_tame _ Mf) as Tf. pose proof (steady_bound _ Mf) as Bf.
  set (LO := to_Q (to_decimal lo)) in *. set (HI := to_Q (to_decimal hi)) in *.
  set (F := to_Q f) in *.
  pose proof Blo as Blo'. pose proof Bhi as Bhi'. pose proof Bf as Bf'.
  split_abs Blo'. split_abs Bhi'. split_abs Bf'.
  destruct (nsub_abs hi lo w 1000000 20000000000000 Thi Tlo ltac:(lia))
    as [Tw Ew]; [apply Qabs_Qle_condition; fold HI LO; lra|lra|exact Hw|].
  fold HI LO in Ew. set (W := to_Q (to_decimal w)) in *.
  split_abs Ew. unfold half_ulp in Ew.
  destruct (sub_abs (to_decimal w) f diff 1000000 40000000000000 Tw Tf
              ltac:(lia)) as [Td Ed];
    [apply Qabs_Qle_condition; fold W F; lra|lra|exact Hd|].
  fold W F in Ed. set (DIFF := to_Q diff) in *.
  split_abs Ed. unfold half_ulp in Ed.
  destruct (sub_abs (to_decimal hi) diff nhi 1000000 60000000000000 Thi Td
              ltac:(lia)) as [Tn En];
    [apply Qabs_Qle_condition; fold HI DIFF; lra|lra|exact Hn|].
  fold HI DIFF in En. set (NHI := to_Q nhi) in *.
  split_abs En. unfold half_ulp in En.
  (* what is kept *)
  destruct (encode_abs lo lo' 1000000 10000000000000 Tlo ltac:(lia) Blo
              ltac:(lra) El) as [Tlo' Elo].
  fold LO in Elo. set (LO' := to_Q (to_decimal lo')) in *.
  split_abs Elo.
  destruct (encode_abs (Dec nhi) hi' 1000000 30000000000000 Tn ltac:(lia))
    as [Thi' Ehi];
    [cbn [to_decimal]; apply Qabs_Qle_condition; fold NHI; lra|lra|exact Eh|].
  cbn [to_decimal] in Ehi. fold NHI in Ehi.
  set (HI' := to_Q (to_decimal hi')) in *.
  split_abs Ehi.
  (* measured again *)
  destruct (nsub_Q hi' lo' 1000000 Thi' Tlo' ltac:(lia))
    as (w' & Hw' & Tw' & Ew').
  { apply (below_big _ 50000000000000); [|lra].
    apply Qabs_Qle_condition. fold HI' LO'. lra. }
  fold HI' LO' in Ew'.
  apply (half_ulp_error _ _ 50000000000000) in Ew';
    [|apply Qabs_Qle_condition; lra].
  set (W' := to_Q (to_decimal w')) in *. split_abs Ew'. unfold half_ulp in Ew'.
  destruct (sub_Q (to_decimal w') f 1000000 Tw' Tf ltac:(lia))
    as (diff' & Hd' & Td' & Ed').
  { apply (below_big _ 70000000000000); [|lra].
    apply Qabs_Qle_condition. fold W' F. lra. }
  fold W' F in Ed'.
  apply (half_ulp_error _ _ 70000000000000) in Ed';
    [|apply Qabs_Qle_condition; lra].
  set (DIFF' := to_Q diff') in *. split_abs Ed'. unfold half_ulp in Ed'.
  assert (Hsmall : (Qabs DIFF' < 1)%Q).
  { apply Qabs_Qlt_condition. lra. }
  assert (Hfin : is_finite diff' = true).
  { destruct diff'; cbn in Td'; first [reflexivity|tauto]. }
  destruct (proj1 (abs_lt_threshold diff' (sub_normal _ _ _ Hd'))
              (abs_lt_1_of_Q diff' Hfin Hsmall)) as (a & Ha & Hlt).
  exists w', diff', a. repeat split; assumption.
Qed.

End StoreFacts.

(* ================================================================= *)
(** * The claims *)

Import StrFacts ParseFacts FormatFacts.





(** C3, as the claim states it, fails: pikepdf keeps 15 significant
    digits of a number it stores.  The page with the media box
    [0.1234567890123456 0 595 842], scaled to US letter, gets a lower left
    corner that is not where it was, and an upper right corner that is not
    [x1 - x_diff]. *)
Lemma resized_box_is_rounded :
  exists p' fmt width height x_diff y_diff nx1,
    measure us_letter fine_page = Ok (fmt, width, height, x_diff, y_diff) /\
    scale_page us_letter fine_page = Ok (Changed p') /\
    sub (to_decimal (x1 (MediaBox fine_page))) x_diff = Ok nx1 /\
    x0 (MediaBox p') <> x0 (MediaBox fine_page) /\
    ~ (coordinate (x0 (MediaBox p')) == coordinate (x0 (MediaBox fine_page)))%Q /\
    x1 (MediaBox p') <> Dec nx1 /\
    ~ (coordinate (x1 (MediaBox p')) == to_Q nx1)%Q.
Proof.
  do 7 eexists.
  split; [vm_compute; reflexivity|].
  split; [vm_compute; reflexivity|].
  split; [vm_compute; reflexivity|].
  repeat split; vm_compute; intros H; discriminate H.
Qed.

(** C3, amended: a resized page gets the media box
    [(x0, y0, x1 - x_diff, y1 - y_diff)] as pikepdf stores it, each
    number rounded to 15 significant digits and an int kept as it is.  A
    coordinate of the lower left corner that has no more than 15 digits
    keeps its value, so that the origin [(0, 0)] stays the origin; and
    every auxiliary box the page has is set to the new media box. *)
Theorem resized_boxes (fmt_mm : format) (p p' : page)
  (fmt : format) (width height : number) (x_diff y_diff : decimal) :
  measure fmt_mm p = Ok (fmt, width, height, x_diff, y_diff) ->
  scale_page fmt_mm p = Ok (Changed p') ->
  (exists nx1 ny1,
     sub (to_decimal (x1 (MediaBox p))) x_diff = Ok nx1 /\
     sub (to_decimal (y1 (MediaBox p))) y_diff = Ok ny1 /\
     encode (x0 (MediaBox p)) = Ok (x0 (MediaBox p')) /\
     encode (y0 (MediaBox p)) = Ok (y0 (MediaBox p')) /\
     encode (Dec nx1) = Ok (x1 (MediaBox p')) /\
     encode (Dec ny1) = Ok (y1 (MediaBox p'))) /\
  (within_precision (x0 (MediaBox p)) ->
   (coordinate (x0 (MediaBox p')) == coordinate (x0 (MediaBox p)))%Q) /\
  (within_precision (y0 (MediaBox p)) ->
   (coordinate (y0 (MediaBox p')) == coordinate (y0 (MediaBox p)))%Q) /\
  (x0 (MediaBox p) = Int 0 -> y0 (MediaBox p) = Int 0 ->
   x0 (MediaBox p') = Int 0 /\ y0 (MediaBox p') = Int 0) /\
  Forall2 (fun before after =>
             match before with
             | Some _ => after = Some (MediaBox p')
             | None => after = None
             end)
          (aux_boxes p) (aux_boxes p').
Proof.
  intros Hm H.
  destruct (scale_page_inv _ _ _ H) as (fmt' & w' & h' & xd' & yd' & small & Hm' & Hb & Hs).
  rewrite Hm in Hm'. injection Hm' as <- <- <- <- <-.
  destruct small; [discriminate Hs|].
  destruct Hs as (mb & s & t & Hr & _ & Ho). injection Ho as ->.
  destruct (resized_box_inv _ _ _ _ Hr)
    as (nx1 & ny1 & nx0' & ny0' & nx1' & ny1' & Hx & Hy & E0 & E1 & E2 & E3 & ->).
  cbn [MediaBox x0 y0 x1 y1].
  split; [exists nx1, ny1; repeat split; assumption|].
  split; [intros W; exact (StoreFacts.encode_kept _ _ W E0)|].
  split; [intros W; exact (StoreFacts.encode_kept _ _ W E1)|].
  split.
  - intros Z0 Z1. rewrite Z0 in E0. rewrite Z1 in E1.
    cbn [encode] in E0, E1. injection E0 as <-. injection E1 as <-.
    split; reflexivity.
  - unfold aux_boxes. cbn [CropBox BleedBox TrimBox ArtBox].
    repeat constructor;
      match goal with |- match ?b with _ => _ end => destruct b; reflexivity end.
Qed.

(** The example page scaled to US letter: the CropBox it had is the new
    media box, 612 x 1008 units from the origin. *)
Lemma resized_boxes_witness :
  exists p',
    scale_page us_letter example_page = Ok (Changed p') /\
    CropBox p' = Some (MediaBox p') /\
    MediaBox p'
    = mkBox (Int 0) (Int 0)
            (Dec (Finite false 612000000000000 (-12)))
            (Dec (Finite false 100800000000000 (-11))).
Proof.
  destruct (measure us_letter example_page) as [[[[[fmt w] h] xd] yd]|e] eqn:Hm.
  2:{ vm_compute in Hm. discriminate Hm. }
  destruct (scale_page us_letter example_page) as [[|p']|e] eqn:H.
  - vm_compute in H. discriminate H.
  - exists p'. split; [reflexivity|].
    destruct (resized_boxes us_letter example_page p' _ _ _ _ _ Hm H)
      as (_ & _ & _ & _ & Haux).
    unfold aux_boxes in Haux. inversion Haux as [|? ? ? ? Hcrop _]. subst.
    cbn [example_page CropBox] in Hcrop. split; [exact Hcrop|].
    vm_compute in H. injection H as <-. reflexivity.
  - vm_compute in H. discriminate H.
Defined.

(** C4, as the claim states it, fails: the page that the first application
    leaves for [huge_page] is resized again by the second one. *)
Lemma second_application_changes_again :
  exists p' p'',
    scale_page mm_210_297 huge_page = Ok (Changed p') /\
    scale_page mm_210_297 (commit huge_page (Changed p')) = Ok (Changed p'').
Proof.
  eexists. eexists. split; [vm_compute; reflexivity|].
  vm_compute. reflexivity.
Qed.

(** C4, amended: when the coordinates of the media box and the target
    size in page units are finite, with no more than 10^6 decimals, and
    below 10^13 in magnitude, the page that a first application has resized
    is left alone by a second application with the same target; and a page
    within the threshold is left alone at once. *)
Theorem second_application_no_change (fmt_mm : format) (p p' : page)
  (fmt : format) (width height : number) (x_diff y_diff : decimal) :
  measure fmt_mm p = Ok (fmt, width, height, x_diff, y_diff) ->
  (steady_box (MediaBox p) -> steady (fst fmt) -> steady (snd fmt) ->
   scale_page fmt_mm p = Ok (Changed p') ->
   scale_page fmt_mm (commit p (Changed p')) = Ok NoChange) /\
  (abs_lt_1 x_diff -> abs_lt_1 y_diff -> scale_page fmt_mm p = Ok NoChange).
Proof.
  intros Hm.
  destruct (measure_inv _ _ _ _ _ _ _ Hm) as (Hf0 & Hf1 & Hw & Hh & Hxd & Hyd).
  split.
  - intros (Mx0 & My0 & Mx1 & My1) Mf0 Mf1 H.
    destruct (scale_page_inv _ _ _ H)
      as (fmt' & w' & h' & xd' & yd' & small & Hm' & Hb & Hs).
    rewrite Hm in Hm'. injection Hm' as <- <- <- <- <-.
    destruct small; [discriminate Hs|].
    destruct Hs as (mb & s & t & Hr & _ & Ho). injection Ho as ->.
    destruct (resized_box_inv _ _ _ _ Hr)
      as (nx1 & ny1 & nx0' & ny0' & nx1' & ny1' & Hx & Hy & E0 & E1 & E2 & E3 & ->).
    destruct (StoreFacts.axis_settles_stored _ _ _ _ _ _ _ _
                Mx0 Mx1 Mf0 Hw Hxd Hx E0 E2)
      as (w2 & xd2 & ax & Ew & Exd & Eax & Elx).
    destruct (StoreFacts.axis_settles_stored _ _ _ _ _ _ _ _
                My0 My1 Mf1 Hh Hyd Hy E1 E3)
      as (h2 & yd2 & ay & Eh & Eyd & Eay & Ely).
    cbn [commit]. unfold scale_page, measure.
    unfold user_unit_of in *. cbn [UserUnit MediaBox x0 x1 y0 y1].
    rewrite Hf0. cbn [bind]. rewrite Hf1. cbn [bind].
    rewrite Ew. cbn [bind]. rewrite Eh. cbn [bind].
    rewrite Exd. cbn [bind]. rewrite Eyd. cbn [bind].
    unfold below_threshold. cbv zeta.
    rewrite Eax. cbn [bind]. rewrite Elx. cbn [bind].
    rewrite Eay. cbn [bind]. rewrite Ely. reflexivity.
  - intros Hx Hy. unfold scale_page. rewrite Hm. cbn [bind].
    rewrite (proj2 (below_threshold_iff x_diff y_diff
                      (sub_normal _ _ _ Hxd) (sub_normal _ _ _ Hyd))
                   (conj Hx Hy)).
    reflexivity.
Qed.

(** The example page, scaled to US letter and committed, is left alone by
    the second application. *)
Lemma second_application_no_change_witness :
  exists p',
    scale_page us_letter example_page = Ok (Changed p') /\
    scale_page us_letter (commit example_page (Changed p')) = Ok NoChange.
Proof.
  destruct (measure us_letter example_page) as [[[[[fmt w] h] xd] yd]|e] eqn:Hm.
  2:{ vm_compute in Hm. discriminate Hm. }
  destruct (scale_page us_letter example_page) as [[|p']|e] eqn:H.
  - vm_compute in H. discriminate H.
  - exists p'. split; [reflexivity|].
    refine (proj1 (second_application_no_change us_letter example_page p'
                     fmt w h xd yd Hm) _ _ _ H).
    + repeat split; vm_compute; discriminate.
    + vm_compute in Hm. injection Hm as <- _ _ _ _.
      split; vm_compute; discriminate.
    + vm_compute in Hm. injection Hm as <- _ _ _ _.
      split; vm_compute; discriminate.
  - vm_compute in H. discriminate H.
Defined.

(** C5: a string made of one of the prefixes in any case, optional
    whitespace, a series letter [a], [b] or [c] in either case and a size
    0..10, with whitespace around it, resolves to the ISO 216 format of
    the series and size: its height is [2^(base - size/2) * 1000] and its
    width [2^(base - (size+1)/2) * 1000], both to within 10^-24 mm.  The
    five spellings of A4 give one format, about 210 mm x 297 mm. *)
Theorem iso216_resolution (pre ws1 ws2 ws3 : str) (series : ascii) (size : Z) :
  In (lower pre) iso_prefixes ->
  forallb isspace ws1 = true -> forallb isspace ws2 = true ->
  forallb isspace ws3 = true ->
  contains (lower_char series) (lit "abc") = true ->
  0 <= size <= 10 ->
  (exists width height,
     get_format (ws1 ++ pre ++ ws2 ++ series :: show_N (Z.to_N size) ++ ws3)
       = Ok (Some (width, height)) /\
     iso216_format (lower_char series) size = Ok (width, height) /\
     near_pow2_eighths height (base_eighths (lower_char series) - 4 * size) /\
     near_pow2_eighths width
       (base_eighths (lower_char series) - 4 * (size + 1))) /\
  (get_format (lit "a4") = Ok (Some a4_format) /\
   get_format (lit "A4") = Ok (Some a4_format) /\
   get_format (lit " A4 ") = Ok (Some a4_format) /\
   get_format (lit "din a4") = Ok (Some a4_format) /\
   get_format (lit "iso216 a4") = Ok (Some a4_format) /\
   between (419 # 2) (421 # 2) (fst a4_format) /\
   between (593 # 2) (595 # 2) (snd a4_format)).
Proof.
  intros HP H1 H2 H3 Hc Hs. split.
  - destruct (int_show_size size Hs) as (Hi & Hd & Hne & Hlow).
    destruct (iso216_table _ _ Hc Hs) as (w & h & Hf & _ & _ & Nh & Nw).
    exists w, h. split; [|auto].
    unfold get_format.
    assert (Hl : lower (ws1 ++ pre ++ ws2 ++ series :: show_N (Z.to_N size) ++ ws3)
                 = ws1 ++ lower pre ++ ws2
                   ++ lower_char series :: show_N (Z.to_N size) ++ ws3).
    { rewrite !lower_app. cbn [lower map]. fold (lower (show_N (Z.to_N size) ++ ws3)).
      rewrite lower_app, Hlow.
      rewrite (lower_spaces ws1 H1), (lower_spaces ws2 H2), (lower_spaces ws3 H3).
      reflexivity. }
    rewrite Hl.
    rewrite (strip_iso (lower pre) ws1 ws2 ws3 _ _ HP H1 H2 H3
               (proj1 (abc_not_space _ Hc)) Hd Hne).
    rewrite (explicit_stage_no_x _ (notation_no_x _ ws2 _ _ HP H2 Hc Hd)).
    cbn [bind].
    rewrite (iso_stage_notation _ ws2 _ _ size HP H2 Hc Hi Hs).
    rewrite Hf. reflexivity.
  - repeat split; vm_compute; reflexivity.
Qed.

(** " DIN- B5 " resolves to the format of B5. *)
Lemma iso216_resolution_witness :
  exists width height,
    get_format (lit " DIN- B5 ") = Ok (Some (width, height)) /\
    iso216_format "b" 5 = Ok (width, height).
Proof.
  destruct (proj1 (iso216_resolution (lit "DIN-") (lit " ") (lit " ") (lit " ")
                     "B" 5
                     ltac:(vm_compute; auto) eq_refl eq_refl eq_refl eq_refl
                     ltac:(lia)))
    as (w & h & Hg & Hf & _).
  exists w, h. split; [exact Hg|exact Hf].
Defined.

(** C6: for two strings that are Decimal literals, ["WxH"] resolves to
    the pair of their values as converted, at the explicit stage, which
    returns before any other stage is tried. *)
Theorem explicit_dimensions (W H : str) (dW dH : decimal) :
  of_str W = Ok dW -> of_str H = Ok dH ->
  get_format (W ++ "x"%char :: H) = Ok (Some (dW, dH)) /\
  explicit_stage (strip (lower (W ++ "x"%char :: H))) = Ok (Some (dW, dH)).
Proof.
  intros HW HH.
  assert (He : explicit_stage (strip (lower (W ++ "x"%char :: H)))
               = Ok (Some (dW, dH))).
  { rewrite (explicit_stage_split _ _ _ (split_explicit W H (of_str_no_x W dW HW))).
    rewrite of_str_lstrip, of_str_lower, HW.
    rewrite of_str_rstrip, of_str_lower, HH. reflexivity. }
  split; [|exact He]. unfold get_format. rewrite He. reflexivity.
Qed.

(** " 2.5 x1E3" resolves to (2.5, 1E+3). *)
Lemma explicit_dimensions_witness :
  get_format (lit " 2.5 x1E3")
  = Ok (Some (Finite false 25 (-1), Finite false 1 3)).
Proof.
  exact (proj1 (explicit_dimensions (lit " 2.5 ") (lit "1E3")
                  (Finite false 25 (-1)) (Finite false 1 3) eq_refl eq_refl)).
Defined.

(** C7, as the claim states it, fails: "-1x0" resolves to (-1, 0). *)
Lemma format_not_positive :
  get_format (lit "-1x0") = Ok (Some (Finite true 1 0, Finite false 0 0)) /\
  is_positive (Finite true 1 0) = false /\
  is_positive (Finite false 0 0) = false.
Proof. repeat split; vm_compute; reflexivity. Qed.

(** C7, amended: a format that does not come from the explicit stage
    (the ISO 216 stage and the tables) has a finite width and a finite
    height, both above zero. *)
Theorem later_formats_positive (s : str) (width height : decimal) :
  get_format s = Ok (Some (width, height)) ->
  explicit_stage (strip (lower s)) = Ok None ->
  is_positive width = true /\ is_positive height = true.
Proof.
  unfold get_format. intros H He. rewrite He in H. cbn [bind] in H.
  destruct (iso_stage iso_prefixes (strip (lower s))) as [[f|]|e] eqn:Hi;
    cbn [bind] in H.
  - injection H as ->.
    destruct (iso_stage_inv _ _ _ Hi) as (series & size & Hc & Hs & Hf).
    destruct (iso216_table _ _ Hc Hs) as (w & h & Hf' & Pw & Ph & _).
    rewrite Hf in Hf'. injection Hf' as <- <-. auto.
  - exact (table_stage_positive _ _ H).
  - discriminate H.
Qed.

(** "letter" resolves to a positive format. *)
Lemma later_formats_positive_witness :
  get_format (lit "letter") = Ok (Some us_letter) /\
  is_positive (fst us_letter) = true /\ is_positive (snd us_letter) = true.
Proof.
  split; [vm_compute; reflexivity|].
  exact (later_formats_positive (lit "letter") (fst us_letter) (snd us_letter)
           ltac:(vm_compute; reflexivity) eq_refl).
Defined.

(** C8, as the claim states it, fails: the constant is not the rational
    25.4/72, and the target of the example page for 210 mm x 297 mm is not
    the exact quotient of 210 by it. *)
Lemma PT_is_rounded :
  exists pt f0 f1 w h xd yd,
    PT = Ok pt /\
    ~ (to_Q pt == 254 # 720)%Q /\
    measure mm_210_297 example_page = Ok ((f0, f1), w, h, xd, yd) /\
    ~ (to_Q f0 * (to_Q pt * 1) == 210)%Q.
Proof.
  do 7 eexists. split; [vm_compute; reflexivity|].
  split; [vm_compute; discriminate|].
  split; [vm_compute; reflexivity|].
  vm_compute. discriminate.
Qed.

(** C8, amended: the constant is [Decimal(1)/72 * Decimal('25.4')] as the
    28-digit arithmetic gives it, 0.3527777777777777777777777778, less than
    10^-28 away from 25.4/72; the target in page units is, component by
    component, the Decimal quotient of the target in millimetres by the
    Decimal product [PT * user_unit], each rounded to at most 28 digits. *)
Theorem PT_and_native_target (fmt_mm : format) (p : page)
  (fmt : format) (width height : number) (x_diff y_diff : decimal) :
  measure fmt_mm p = Ok (fmt, width, height, x_diff, y_diff) ->
  exists pt k,
    PT = Ok pt /\
    pt = Finite false 3527777777777777777777777778 (-28) /\
    (Qabs (to_Q pt - (254 # 720)) < 1 # 10 ^ 28)%Q /\
    mul pt (user_unit_of p) = Ok k /\
    div (fst fmt_mm) k = Ok (fst fmt) /\
    div (snd fmt_mm) k = Ok (snd fmt) /\
    normal k /\ normal (fst fmt) /\ normal (snd fmt).
Proof.
  intros Hm. destruct (measure_inv _ _ _ _ _ _ _ Hm) as (H0 & H1 & _).
  unfold to_native in H0, H1. rewrite PT_value in H0, H1. cbn [bind] in H0, H1.
  destruct (mul _ (user_unit_of p)) as [k|e] eqn:Hk; [|discriminate H0].
  cbn [bind] in H0, H1.
  exists (Finite false 3527777777777777777777777778 (-28)), k.
  split; [exact PT_value|]. split; [reflexivity|].
  split; [vm_compute; reflexivity|].
  split; [exact Hk|]. split; [exact H0|]. split; [exact H1|].
  split; [exact (mul_normal _ _ _ Hk)|].
  split; [exact (div_normal _ _ _ H0)|exact (div_normal _ _ _ H1)].
Qed.

(** The example page and 210 mm x 297 mm: the target is
    595.2755905511811023622047244 x 841.8897637795275590551181102 units. *)
Lemma PT_and_native_target_witness :
  exists k,
    mul (Finite false 3527777777777777777777777778 (-28))
        (user_unit_of example_page) = Ok k /\
    div (fst mm_210_297) k
    = Ok (Finite false 5952755905511811023622047244 (-25)) /\
    div (snd mm_210_297) k
    = Ok (Finite false 8418897637795275590551181102 (-25)).
Proof.
  destruct (PT_and_native_target mm_210_297 example_page
              (Finite false 5952755905511811023622047244 (-25),
               Finite false 8418897637795275590551181102 (-25))
              (Int 595) (Int 842)
              (Finite true 2755905511811023622047244 (-25))
              (Finite false 1102362204724409448818898 (-25))
              ltac:(vm_compute; reflexivity))
    as (pt & k & _ & -> & _ & Hk & H0 & H1 & _).
  exists k. auto.
Defined.

(** C9: the explicit stage takes the special literals: "nanxinf" resolves
    to (NaN, Infinity), a format without a finite component. *)
Theorem non_finite_format :
  get_format (lit "nanxinf") = Ok (Some (NaN false 0, Infinity false)) /\
  is_finite (NaN false 0) = false /\ is_finite (Infinity false) = false.
Proof. repeat split; vm_compute; reflexivity. Qed.

(** C10: the explicit stage splits at the first [x] only.  With both sides
    literals it returns them; a remainder that holds another [x] is no
    literal, and when the remainder does not convert the stage is passed
    over and the result is that of the later stages.  "1x2x3" resolves to
    nothing. *)
Theorem first_x_only (s w r : str) :
  split1 "x" (strip (lower s)) = Some (w, r) ->
  strip (lower s) = w ++ "x"%char :: r /\
  contains "x" w = false /\
  (forall dw dh, of_str w = Ok dw -> of_str r = Ok dh ->
                 get_format s = Ok (Some (dw, dh))) /\
  (contains "x" r = true -> of_str r = Raise InvalidOperation) /\
  (of_str r = Raise InvalidOperation ->
   get_format s = later_stages (strip (lower s))) /\
  get_format (lit "1x2x3") = Ok None.
Proof.
  intros Hs. destruct (split1_inv _ _ _ _ Hs) as [Ht Hw].
  split; [exact Ht|]. split; [exact Hw|].
  pose proof (explicit_stage_split _ _ _ Hs) as He.
  split; [|split; [|split]].
  - intros dw dh Ew Er. unfold get_format. rewrite He, Ew, Er. reflexivity.
  - intros Hx. destruct (of_str r) as [d|e] eqn:Er.
    + pose proof (of_str_no_x r d Er) as Hn.
      assert (contains "x" (lower r) = true); [|congruence].
      unfold contains in *. apply existsb_exists in Hx as (c & Hin & Hc).
      apply existsb_exists. exists (lower_char c). split.
      * unfold lower. apply in_map, Hin.
      * apply Ascii.eqb_eq in Hc. subst c. reflexivity.
    + rewrite (of_str_raises r e Er). reflexivity.
  - intros Er. unfold get_format, later_stages. rewrite He, Er.
    destruct (of_str w); reflexivity.
  - vm_compute. reflexivity.
Qed.

(** "1x2x3" splits into "1" and "2x3", and "2x3" is no literal. *)
Lemma first_x_only_witness :
  split1 "x" (strip (lower (lit "1x2x3"))) = Some (lit "1", lit "2x3") /\
  of_str (lit "2x3") = Raise InvalidOperation.
Proof.
  split; [reflexivity|].
  exact (proj1 (proj2 (proj2 (proj2
           (first_x_only (lit "1x2x3") (lit "1") (lit "2x3") eq_refl))))
           eq_refl).
Defined.

(* ================================================================= *)
(** * Further properties of the resolver and the driver *)

Module ResolverFacts.

Import StrFacts ParseFacts FormatFacts.

Lemma strip_idem (s : str) : strip (strip s) = strip s.
Proof.
  unfold strip at 1 2. rewrite lstrip_rstrip, lstrip_idem, rstrip_idem. reflexivity.
Qed.

Lemma strip_spaces_around (ws1 ws2 s : str) :
  forallb isspace ws1 = true -> forallb isspace ws2 = true ->
  strip (ws1 ++ s ++ ws2) = strip s.
Proof.
  intros H1 H2. unfold strip.
  rewrite (lstrip_spaces_app ws1 _ H1).
  rewrite <- !lstrip_rstrip. rewrite (rstrip_spaces_app s ws2 H2). reflexivity.
Qed.

Lemma int_space_not_x (c : ascii) : Ascii.eqb "x" c = true -> int_space c = false.
Proof. each_char c. Qed.

Lemma int_body_no_x (s : str) :
  forall acc b n, int_body s acc b = Some n -> contains "x" s = false.
Proof.
  induction s as [|c r IH]; intros acc b n; [reflexivity|].
  cbn [int_body]. unfold contains. cbn [existsb]. fold (contains "x" r).
  destruct (isdigit c) eqn:Hd.
  - intros H. rewrite (digit_not_x c Hd). exact (IH _ _ _ H).
  - destruct (Ascii.eqb c "_") eqn:Hu; [|discriminate].
    apply Ascii.eqb_eq in Hu. subst c.
    destruct b; [discriminate|]. intros H. exact (IH _ _ _ H).
Qed.

(** A string that [int()] takes holds no [x]. *)
Lemma int_of_str_no_x (s : str) (z : Z) :
  int_of_str s = Ok z -> contains "x" s = false.
Proof.
  unfold int_of_str. intros H.
  destruct (contains "x" s) eqn:Hx; [exfalso|reflexivity].
  set (t := rev (dropwhile int_space (rev (dropwhile int_space s)))) in *.
  assert (Ht : contains "x" t = true).
  { unfold contains in *. apply existsb_exists in Hx as (c & Hin & Hc).
    apply existsb_exists. exists c. split; [|exact Hc].
    unfold t. apply in_rev. rewrite rev_involutive.
    apply In_dropwhile; [|exact (int_space_not_x c Hc)].
    apply in_rev. rewrite rev_involutive.
    apply In_dropwhile; [exact Hin|exact (int_space_not_x c Hc)]. }
  destruct (split_sign t) as [neg body] eqn:Es.
  destruct (int_body body 0 true) as [n|] eqn:Eb; [|discriminate H].
  clear H.
  pose proof (int_body_no_x _ _ _ _ Eb) as Hb.
  pose proof (split_sign_no_x t) as Hn. rewrite Es in Hn. cbn [snd] in Hn.
  rewrite (Hn Hb) in Ht. discriminate Ht.
Qed.

Lemma str_eqb_eq (a b : str) : str_eqb a b = true -> a = b.
Proof. unfold str_eqb. destruct (list_eq_dec ascii_dec a b); [auto|discriminate]. Qed.

Lemma iso_prefixes_no_x : Forall (fun p => contains "x" p = false) iso_prefixes.
Proof. repeat constructor. Qed.

(** On a string that holds an [x] the ISO 216 stage finds nothing. *)
Lemma iso_stage_x (prefixes : list str) (t : str) :
  Forall (fun p => contains "x" p = false) prefixes ->
  contains "x" t = true -> iso_stage prefixes t = Ok None.
Proof.
  intros HP Hx. induction HP as [|prefix rest Hp _ IH]; [reflexivity|].
  cbn [iso_stage]. destruct (startswith t prefix) eqn:Hs; [|exact IH].
  set (tail := slice_from (List.length prefix) t).
  destruct (lstrip tail) as [|c tl] eqn:Hl; cbn [index0 bind]; [exact IH|].
  cbn [slice_from skipn].
  destruct (int_of_str tl) as [size|e] eqn:Hi; cbn [bind].
  - destruct (contains c (lit "abc")) eqn:Hc; cbn [andb]; [|exact IH].
    exfalso.
    assert (Ht : contains "x" t = false); [|congruence].
    rewrite (startswith_app t prefix Hs). fold (slice_from (List.length prefix) t).
    fold tail. rewrite contains_app, Hp. cbn [orb].
    rewrite <- (takewhile_dropwhile isspace tail), contains_app.
    rewrite (spaces_no_x _ (takewhile_all isspace tail)). cbn [orb].
    fold (lstrip tail). rewrite Hl. unfold contains. cbn [existsb].
    rewrite (proj2 (abc_not_space c Hc)). exact (int_of_str_no_x tl size Hi).
  - rewrite (int_of_str_raises tl e Hi). exact IH.
Qed.

Lemma table_stage_x (t : str) :
  contains "x" t = true -> table_stage t = Ok None.
Proof.
  intros Hx. unfold table_stage. rewrite FORMATS_value. cbn [bind lookup].
  destruct (str_eqb t (lit "us letter")) eqn:E1.
  - apply str_eqb_eq in E1. subst t. discriminate Hx.
  - unfold SYNONYMS. cbn [lookup].
    destruct (str_eqb t (lit "letter")) eqn:E2; [|reflexivity].
    apply str_eqb_eq in E2. subst t. discriminate Hx.
Qed.

Lemma explicit_stage_ok (t : str) : exists r, explicit_stage t = Ok r.
Proof.
  unfold explicit_stage. destruct (contains "x" t) eqn:Hx; [|eauto].
  destruct (contains_split1 _ _ Hx) as (w & h & ->).
  destruct (of_str w) as [dw|e] eqn:Ew; cbn [bind].
  - destruct (of_str h) as [dh|e] eqn:Eh; cbn [bind]; [eauto|].
    rewrite (of_str_raises h e Eh). eauto.
  - rewrite (of_str_raises w e Ew). eauto.
Qed.

Lemma iso_stage_ok (prefixes : list str) (t : str) :
  exists r, iso_stage prefixes t = Ok r.
Proof.
  induction prefixes as [|prefix rest IH]; [cbn; eauto|].
  cbn [iso_stage]. destruct (startswith t prefix); [|exact IH].
  set (iso_str := lstrip (slice_from (List.length prefix) t)).
  destruct (index0 iso_str) as [series|e] eqn:E0; cbn [bind].
  - destruct (int_of_str (slice_from 1 iso_str)) as [size|e] eqn:Hi; cbn [bind].
    + destruct (contains series (lit "abc")) eqn:Hc; cbn [andb]; [|exact IH].
      destruct (Z.leb_spec 0 size); cbn [andb]; [|exact IH].
      destruct (Z.leb_spec size 10); [|exact IH].
      destruct (iso216_table series size Hc ltac:(lia)) as (w & h & -> & _).
      cbn [bind]. eauto.
    + rewrite (int_of_str_raises _ e Hi). exact IH.
  - destruct iso_str; [|discriminate E0]. injection E0 as <-. exact IH.
Qed.

Lemma table_stage_ok (t : str) : exists r, table_stage t = Ok r.
Proof.
  unfold table_stage. rewrite FORMATS_value. cbn [bind lookup].
  destruct (str_eqb t (lit "us letter")); [eauto|].
  unfold SYNONYMS. cbn [lookup].
  destruct (str_eqb t (lit "letter")); [|eauto].
  change (str_eqb (lit "us letter") (lit "us letter")) with true. cbv iota. eauto.
Qed.

(** *** Sizes written with digits *)

Lemma digit_not_int_space (c : ascii) : isdigit c = true -> int_space c = false.
Proof. each_char c. Qed.

Lemma digit_not_sign (c : ascii) :
  isdigit c = true -> Ascii.eqb c "-" = false /\ Ascii.eqb c "+" = false.
Proof. each_char c; intros _; split; reflexivity. Qed.

Lemma dropwhile_digits (s : str) :
  forallb isdigit s = true -> dropwhile int_space s = s.
Proof.
  destruct s as [|c r]; [reflexivity|]. cbn [forallb dropwhile].
  intros H. apply andb_prop in H as [Hc _].
  rewrite (digit_not_int_space c Hc). reflexivity.
Qed.

Lemma forallb_rev (p : ascii -> bool) (s : str) :
  forallb p s = true -> forallb p (rev s) = true.
Proof.
  rewrite !forallb_forall. intros H c Hc. apply H, in_rev, Hc.
Qed.

Lemma int_body_digits (s : str) :
  forallb isdigit s = true -> s <> [] ->
  forall acc b,
    int_body s acc b
    = Some (fold_left (fun a c => (10 * a + digit_val c)%N) s acc).
Proof.
  induction s as [|c r IH]; intros Hd Hne acc b; [contradiction|].
  cbn [forallb] in Hd. apply andb_prop in Hd as [Hc Hr].
  cbn [int_body fold_left]. rewrite Hc.
  destruct r as [|c' r']; [reflexivity|].
  apply (IH Hr); discriminate.
Qed.

Lemma filter_digits (ds : str) :
  forallb isdigit ds = true -> filter isdigit ds = ds.
Proof.
  induction ds as [|c r IH]; [reflexivity|].
  cbn [forallb filter]. intros H. apply andb_prop in H as [-> Hr].
  rewrite (IH Hr). reflexivity.
Qed.

(** [int()] of a string of digits is their value, leading zeros or not,
    when there are no more than 4300 of them; with more it raises
    ValueError. *)
Lemma int_of_digits (ds : str) :
  forallb isdigit ds = true -> ds <> [] ->
  int_of_str ds
  = if (max_str_digits <? N.of_nat (List.length ds))%N
    then Raise ValueError
    else Ok (Z.of_N (digits_value ds)).
Proof.
  intros Hd Hne. unfold int_of_str.
  rewrite (dropwhile_digits ds Hd).
  rewrite (dropwhile_digits (rev ds) (forallb_rev _ _ Hd)), rev_involutive.
  destruct ds as [|c r]; [contradiction|].
  pose proof Hd as Hd'. cbn [forallb] in Hd'. apply andb_prop in Hd' as [Hc _].
  unfold split_sign. destruct (digit_not_sign c Hc) as [-> ->].
  rewrite (int_body_digits (c :: r) Hd Hne), (filter_digits (c :: r) Hd).
  reflexivity.
Qed.

Lemma lower_digits (ds : str) : forallb isdigit ds = true -> lower ds = ds.
Proof.
  induction ds as [|c r IH]; [reflexivity|]. cbn [forallb lower map].
  intros H. apply andb_prop in H as [Hc Hr].
  rewrite (lower_digit c Hc). fold (lower r). rewrite (IH Hr). reflexivity.
Qed.

(** A prefix that matches without a result is passed over. *)
Lemma iso_stage_pass (prefix : str) (rest : list str) (t : str)
  (series : ascii) (digits : str) :
  startswith t prefix = true ->
  lstrip (slice_from (List.length prefix) t) = series :: digits ->
  (forall size, int_of_str digits = Ok size ->
     contains series (lit "abc") && (0 <=? size) && (size <=? 10) = false) ->
  iso_stage (prefix :: rest) t = iso_stage rest t.
Proof.
  intros Hs Hl Hno. cbn [iso_stage]. rewrite Hs, Hl.
  cbn [index0 bind slice_from skipn].
  destruct (int_of_str digits) as [size|e] eqn:Hi; cbn [bind].
  - rewrite (Hno size eq_refl). reflexivity.
  - rewrite (int_of_str_raises digits e Hi). reflexivity.
Qed.

Ltac pass_prefix a Hl Hno :=
  erewrite (iso_stage_pass _ _ _ a); [|reflexivity|exact Hl|exact Hno].

Ltac pass_other a :=
  erewrite (iso_stage_pass _ _ _ a);
  [|reflexivity|reflexivity|intros ? _; reflexivity].

(** The stage on a stripped string of the notation whose size is not in
    0..10: no prefix gives a format. *)
Lemma iso_stage_above (P ws2 digits : str) (c : ascii) :
  In P iso_prefixes -> forallb isspace ws2 = true ->
  contains c (lit "abc") = true ->
  (forall size, int_of_str digits = Ok size ->
     contains c (lit "abc") && (0 <=? size) && (size <=? 10) = false) ->
  iso_stage iso_prefixes
    match P with
    | [] => c :: digits
    | _ :: _ => P ++ ws2 ++ c :: digits
    end
  = Ok None.
Proof.
  intros HP H2 Hc Hsize.
  assert (Hsp : isspace c = false) by apply (abc_not_space c Hc).
  assert (Hlow : lstrip (ws2 ++ c :: digits) = c :: digits).
  { rewrite (lstrip_spaces_app ws2 _ H2). apply lstrip_stop, Hsp. }
  unfold iso_prefixes in *. cbn [In] in HP.
  destruct HP as [E|[E|[E|[E|[E|[]]]]]]; subst P;
    cbn [lit list_ascii_of_string app].
  - (* din- *)
    pass_prefix c Hlow Hsize.
    pass_other "-"%char.
    rewrite !iso_stage_miss by reflexivity.
    pass_other "d"%char.
    reflexivity.
  - (* din *)
    rewrite iso_stage_miss.
    2:{ change (startswith (ws2 ++ c :: digits) (lit "-") = false).
        apply startswith_space_dash; [assumption|].
        apply contains_abc in Hc as [ -> | [ -> | -> ] ]; reflexivity. }
    pass_prefix c Hlow Hsize.
    rewrite !iso_stage_miss by reflexivity.
    pass_other "d"%char.
    reflexivity.
  - (* iso 216 *)
    rewrite !iso_stage_miss by reflexivity.
    pass_prefix c Hlow Hsize.
    rewrite !iso_stage_miss by reflexivity.
    pass_other "i"%char.
    reflexivity.
  - (* iso216 *)
    rewrite !iso_stage_miss by reflexivity.
    pass_prefix c Hlow Hsize.
    pass_other "i"%char.
    reflexivity.
  - (* no prefix *)
    assert (Hm : forall p,
               In p [lit "din-"; lit "din"; lit "iso 216"; lit "iso216"] ->
               startswith (c :: digits) p = false).
    { intros p Hp. apply contains_abc in Hc as [ -> | [ -> | -> ] ];
        cbn [In] in Hp; destruct Hp as [<-|[<-|[<-|[<-|[]]]]]; reflexivity. }
    rewrite (iso_stage_miss _ _ _ (Hm (lit "din-") ltac:(cbn [In]; auto))).
    rewrite (iso_stage_miss _ _ _ (Hm (lit "din") ltac:(cbn [In]; auto))).
    rewrite (iso_stage_miss _ _ _ (Hm (lit "iso 216") ltac:(cbn [In]; auto))).
    rewrite (iso_stage_miss _ _ _ (Hm (lit "iso216") ltac:(cbn [In]; auto))).
    pass_prefix c (lstrip_stop c digits Hsp) Hsize.
    reflexivity.
Qed.

(** The tables hold no name with a digit. *)
Lemma table_stage_digit (t : str) :
  existsb isdigit t = true -> table_stage t = Ok None.
Proof.
  intros Hx. unfold table_stage. rewrite FORMATS_value. cbn [bind lookup].
  destruct (str_eqb t (lit "us letter")) eqn:E1.
  - apply str_eqb_eq in E1. subst t. discriminate Hx.
  - unfold SYNONYMS. cbn [lookup].
    destruct (str_eqb t (lit "letter")) eqn:E2; [|reflexivity].
    apply str_eqb_eq in E2. subst t. discriminate Hx.
Qed.

Lemma notation_has_digit (P ws2 digits : str) (c : ascii) :
  forallb isdigit digits = true -> digits <> [] ->
  existsb isdigit
    match P with
    | [] => c :: digits
    | _ :: _ => P ++ ws2 ++ c :: digits
    end = true.
Proof.
  intros Hd Hne.
  assert (H : existsb isdigit (c :: digits) = true).
  { destruct digits as [|d r]; [contradiction|].
    cbn [forallb] in Hd. apply andb_prop in Hd as [Hd _].
    cbn [existsb]. rewrite Hd. apply orb_true_r. }
  destruct P; [exact H|].
  rewrite !existsb_app, H, !orb_true_r. reflexivity.
Qed.

(** *** Strings without a digit *)

Lemma In_dropwhile_inv (p : ascii -> bool) (c : ascii) (s : str) :
  In c (dropwhile p s) -> In c s.
Proof.
  induction s as [|d r IH]; [auto|]. cbn [dropwhile].
  destruct (p d); [intros H; right; exact (IH H)|auto].
Qed.

Lemma int_body_has_digit (s : str) (n : N) :
  int_body s 0 true = Some n -> existsb isdigit s = true.
Proof.
  destruct s as [|c r]; [discriminate|]. cbn [int_body existsb].
  destruct (isdigit c); [reflexivity|].
  destruct (Ascii.eqb c "_"); discriminate.
Qed.

Lemma split_sign_sub (t : str) (c : ascii) :
  In c (snd (split_sign t)) -> In c t.
Proof.
  unfold split_sign. destruct t as [|a r]; [auto|].
  destruct (Ascii.eqb a "-"); [cbn [snd]; intros H; right; exact H|].
  destruct (Ascii.eqb a "+"); [cbn [snd]; intros H; right; exact H|auto].
Qed.

(** A string that [int()] takes holds a digit. *)
Lemma int_of_str_has_digit (s : str) (z : Z) :
  int_of_str s = Ok z -> existsb isdigit s = true.
Proof.
  unfold int_of_str.
  set (t := rev (dropwhile int_space (rev (dropwhile int_space s)))).
  destruct (split_sign t) as [neg body] eqn:Es.
  destruct (int_body body 0 true) as [n|] eqn:Eb; [|discriminate].
  intros _. apply int_body_has_digit in Eb.
  apply existsb_exists in Eb as (c & Hin & Hc).
  apply existsb_exists. exists c. split; [|exact Hc].
  assert (Ht : In c t).
  { apply split_sign_sub. rewrite Es. exact Hin. }
  unfold t in Ht. apply in_rev in Ht. apply In_dropwhile_inv in Ht.
  apply in_rev in Ht. apply In_dropwhile_inv in Ht. exact Ht.
Qed.

(** On a string without a digit the ISO 216 stage finds nothing. *)
Lemma iso_stage_no_digit (prefixes : list str) (t : str) :
  existsb isdigit t = false -> iso_stage prefixes t = Ok None.
Proof.
  intros Hd. induction prefixes as [|prefix rest IH]; [reflexivity|].
  cbn [iso_stage]. destruct (startswith t prefix) eqn:Hs; [|exact IH].
  set (tail := slice_from (List.length prefix) t).
  destruct (lstrip tail) as [|c tl] eqn:Hl; cbn [index0 bind]; [exact IH|].
  cbn [slice_from skipn].
  destruct (int_of_str tl) as [size|e] eqn:Hi; cbn [bind].
  - exfalso. apply int_of_str_has_digit in Hi.
    apply existsb_exists in Hi as (d & Hin & Hdd).
    assert (Ht : existsb isdigit t = true); [|congruence].
    apply existsb_exists. exists d. split; [|exact Hdd].
    rewrite (startswith_app t prefix Hs). apply in_or_app. right.
    fold (slice_from (List.length prefix) t). fold tail.
    apply (In_dropwhile_inv isspace). fold (lstrip tail). rewrite Hl.
    right. exact Hin.
  - rewrite (int_of_str_raises tl e Hi). exact IH.
Qed.

(** *** Numbers written with digits and a point *)

Lemma plain_char_facts (c : ascii) :
  plain_char c = true ->
  isspace c = false /\ not_underscore c = true /\ lower_char c = c /\
  Ascii.eqb c "-" = false /\ Ascii.eqb c "+" = false.
Proof. each_char c; intros _; repeat split; reflexivity. Qed.

Lemma plain_decimal_chars (ip fp : str) :
  forallb isdigit ip = true -> forallb isdigit fp = true ->
  forallb plain_char (plain_decimal ip fp) = true.
Proof.
  intros Hi Hf. unfold plain_decimal. rewrite forallb_app. cbn [forallb].
  assert (H : forall s, forallb isdigit s = true -> forallb plain_char s = true).
  { intros s Hs. rewrite forallb_forall in *. intros c Hc.
    unfold plain_char. rewrite (Hs c Hc). reflexivity. }
  rewrite (H ip Hi), (H fp Hf). reflexivity.
Qed.

Lemma plain_lstrip (s : str) : forallb plain_char s = true -> lstrip s = s.
Proof.
  destruct s as [|c r]; [reflexivity|]. cbn [forallb]. intros H.
  apply andb_prop in H as [Hc _]. apply lstrip_stop.
  apply (plain_char_facts c Hc).
Qed.

Lemma plain_strip (s : str) : forallb plain_char s = true -> strip s = s.
Proof.
  intros H. unfold strip. rewrite (plain_lstrip s H). unfold rstrip.
  fold (lstrip (rev s)). rewrite (plain_lstrip (rev s) (forallb_rev _ _ H)).
  apply rev_involutive.
Qed.

Lemma plain_filter_lower (s : str) :
  forallb plain_char s = true -> lower (filter not_underscore s) = s.
Proof.
  induction s as [|c r IH]; [reflexivity|]. cbn [forallb]. intros H.
  apply andb_prop in H as [Hc Hr].
  destruct (plain_char_facts c Hc) as (_ & Hu & Hl & _).
  cbn [filter]. rewrite Hu. cbn [lower map]. rewrite Hl.
  fold (lower (filter not_underscore r)). rewrite (IH Hr). reflexivity.
Qed.

Lemma takewhile_app_stop (p : ascii -> bool) (a : str) (c : ascii) (b : str) :
  forallb p a = true -> p c = false -> takewhile p (a ++ c :: b) = a.
Proof.
  intros Ha Hc. induction a as [|d a IH]; cbn [app takewhile].
  - rewrite Hc. reflexivity.
  - cbn [forallb] in Ha. apply andb_prop in Ha as [Hd Ha].
    rewrite Hd, (IH Ha). reflexivity.
Qed.

Lemma takewhile_forall (p : ascii -> bool) (a : str) :
  forallb p a = true -> takewhile p a = a.
Proof.
  induction a as [|d a IH]; [reflexivity|]. cbn [forallb takewhile].
  intros H. apply andb_prop in H as [Hd Ha]. rewrite Hd, (IH Ha). reflexivity.
Qed.

(** [Decimal()] of digits, a point and digits: the digits are the
    coefficient, all of them, and the exponent counts those after the
    point. *)
Lemma of_str_plain (ip fp : str) :
  forallb isdigit ip = true -> forallb isdigit fp = true -> ip ++ fp <> [] ->
  of_str (plain_decimal ip fp)
  = Ok (Finite false (digits_value (ip ++ fp)) (- Z.of_nat (List.length fp))).
Proof.
  intros Hi Hf Hne. unfold of_str.
  pose proof (plain_decimal_chars ip fp Hi Hf) as Hp.
  rewrite (plain_strip _ Hp), (plain_filter_lower _ Hp).
  unfold parse_literal.
  assert (Hs : split_sign (plain_decimal ip fp) = (false, plain_decimal ip fp)).
  { unfold split_sign. destruct (plain_decimal ip fp) as [|c r] eqn:E;
      [reflexivity|].
    cbn [forallb] in Hp. apply andb_prop in Hp as [Hc _].
    destruct (plain_char_facts c Hc) as (_ & _ & _ & -> & ->). reflexivity. }
  rewrite Hs. unfold parse_number, plain_decimal.
  rewrite (takewhile_app_stop isdigit ip "." fp Hi eq_refl).
  rewrite (dropwhile_spaces_app isdigit ip _ Hi).
  change (dropwhile isdigit ("."%char :: fp)) with ("."%char :: fp).
  cbv beta iota. rewrite Ascii.eqb_refl.
  rewrite (takewhile_forall isdigit fp Hf), (dropwhile_all isdigit fp Hf).
  cbv beta iota zeta.
  destruct (ip ++ fp) as [|c r] eqn:E; [contradiction|].
  cbn [parse_exponent]. reflexivity.
Qed.

Lemma digits_above (ds : str) (c : ascii) :
  forallb isdigit ds = true -> ds <> [] ->
  (N.of_nat (List.length ds) <=? max_str_digits)%N
  && (digits_value ds <=? 10)%N = false ->
  forall size, int_of_str ds = Ok size ->
    contains c (lit "abc") && (0 <=? size) && (size <=? 10) = false.
Proof.
  intros Hd Hne Hbig size Hi. rewrite (int_of_digits ds Hd Hne) in Hi.
  destruct (N.ltb_spec max_str_digits (N.of_nat (List.length ds))) as [Hl|Hl];
    [discriminate Hi|].
  injection Hi as <-.
  destruct (N.leb_spec (N.of_nat (List.length ds)) max_str_digits); [|lia].
  cbn [andb] in Hbig. apply N.leb_gt in Hbig.
  destruct (Z.leb_spec (Z.of_N (digits_value ds)) 10);
    [lia|]. apply andb_false_r.
Qed.

(** *** Sizes as [int()] takes them *)

Lemma int_char_facts (c : ascii) :
  int_char c = true -> isspace c = false /\ lower_char c = c.
Proof. each_char c; intros _; split; reflexivity. Qed.

Lemma lower_int_chars (s : str) : forallb int_char s = true -> lower s = s.
Proof.
  induction s as [|c r IH]; [reflexivity|]. cbn [forallb lower map].
  intros H. apply andb_prop in H as [Hc Hr].
  rewrite (proj2 (int_char_facts c Hc)). fold (lower r).
  rewrite (IH Hr). reflexivity.
Qed.

Lemma strip_no_space (s : str) : existsb isspace s = false -> strip s = s.
Proof.
  assert (L : forall t, existsb isspace t = false -> lstrip t = t).
  { intros [|c r]; [reflexivity|]. cbn [existsb]. intros H.
    apply orb_false_elim in H as [Hc _]. apply lstrip_stop, Hc. }
  intros H. unfold strip. rewrite (L s H). unfold rstrip.
  fold (lstrip (rev s)). rewrite L; [apply rev_involutive|].
  destruct (existsb isspace (rev s)) eqn:E; [|reflexivity].
  apply existsb_exists in E as (c & Hin & Hc).
  assert (E' : existsb isspace s = true); [|congruence].
  apply existsb_exists. exists c. split; [apply in_rev, Hin|exact Hc].
Qed.

Lemma int_chars_no_space (s : str) :
  forallb int_char s = true -> existsb isspace s = false.
Proof.
  induction s as [|c r IH]; [reflexivity|]. cbn [forallb existsb].
  intros H. apply andb_prop in H as [Hc Hr].
  rewrite (proj1 (int_char_facts c Hc)), (IH Hr). reflexivity.
Qed.

(** *** The tables *)

Lemma table_stage_names (t : str) (f : format) :
  table_stage t = Ok (Some f) <->
  (t = lit "us letter" \/ t = lit "letter") /\ f = us_letter.
Proof.
  unfold table_stage. rewrite FORMATS_value. cbn [bind lookup].
  destruct (str_eqb t (lit "us letter")) eqn:E1.
  - apply str_eqb_eq in E1. split.
    + intros [= <-]. split; [left; exact E1|reflexivity].
    + intros [_ ->]. reflexivity.
  - unfold SYNONYMS. cbn [lookup].
    destruct (str_eqb t (lit "letter")) eqn:E2.
    + apply str_eqb_eq in E2.
      change (str_eqb (lit "us letter") (lit "us letter")) with true. cbv iota.
      split.
      * intros [= <-]. split; [right; exact E2|reflexivity].
      * intros [_ ->]. reflexivity.
    + split; [discriminate|]. intros [[-> | ->] _].
      * discriminate E1.
      * discriminate E2.
Qed.

Lemma get_format_tables (s : str) :
  contains "x" (strip (lower s)) = false ->
  existsb isdigit (strip (lower s)) = false ->
  get_format s = table_stage (strip (lower s)).
Proof.
  intros Hx Hd. unfold get_format.
  rewrite (explicit_stage_no_x _ Hx). cbn [bind].
  rewrite (iso_stage_no_digit _ _ Hd). reflexivity.
Qed.

End ResolverFacts.

Import StrFacts ParseFacts FormatFacts ResolverFacts.

(** [get_format] never raises: the exceptions of the two conversions are
    caught, the guard keeps [iso216_format] within its tables, and every
    synonym names an entry of [FORMATS]. *)
Theorem get_format_never_raises (s : str) : exists r, get_format s = Ok r.
Proof.
  unfold get_format.
  destruct (explicit_stage_ok (strip (lower s))) as ([f|] & ->); cbn [bind];
    [eauto|].
  destruct (iso_stage_ok iso_prefixes (strip (lower s))) as ([f|] & ->);
    cbn [bind]; [eauto|].
  apply table_stage_ok.
Qed.

(** [get_format] does not see the case of its argument nor whitespace
    around it. *)
Theorem get_format_case_and_space (s ws1 ws2 : str) :
  forallb isspace ws1 = true -> forallb isspace ws2 = true ->
  get_format (lower s) = get_format s /\
  get_format (ws1 ++ s ++ ws2) = get_format s.
Proof.
  intros H1 H2. unfold get_format. split.
  - rewrite lower_lower. reflexivity.
  - rewrite !lower_app, (lower_spaces ws1 H1), (lower_spaces ws2 H2).
    rewrite (strip_spaces_around ws1 ws2 (lower s) H1 H2). reflexivity.
Qed.

(** " US Letter " resolves as "us letter" does. *)
Lemma get_format_case_and_space_witness :
  get_format (lit " US Letter ") = get_format (lit "US Letter").
Proof.
  exact (proj2 (get_format_case_and_space (lit "US Letter") (lit " ") (lit " ")
                  eq_refl eq_refl)).
Defined.

(** Which stage of [get_format] can resolve a string is settled by its
    characters: with an [x], in either case, the explicit stage alone;
    without an [x] and with a digit the ISO 216 stage alone; with neither
    the tables alone. *)
Theorem stages_by_characters (s : str) :
  (contains "x" (strip (lower s)) = true ->
   get_format s = explicit_stage (strip (lower s))) /\
  (contains "x" (strip (lower s)) = false ->
   existsb isdigit (strip (lower s)) = true ->
   get_format s = iso_stage iso_prefixes (strip (lower s))) /\
  (contains "x" (strip (lower s)) = false ->
   existsb isdigit (strip (lower s)) = false ->
   get_format s = table_stage (strip (lower s))).
Proof.
  unfold get_format. split; [|split].
  - intros Ht.
    destruct (explicit_stage_ok (strip (lower s))) as ([f|] & He); rewrite He;
      cbn [bind]; [reflexivity|].
    rewrite (iso_stage_x _ _ iso_prefixes_no_x Ht). cbn [bind].
    exact (table_stage_x _ Ht).
  - intros Hx Hd. rewrite (explicit_stage_no_x _ Hx). cbn [bind].
    destruct (iso_stage_ok iso_prefixes (strip (lower s))) as ([f|] & He);
      rewrite He; cbn [bind]; [reflexivity|].
    exact (table_stage_digit _ Hd).
  - intros Hx Hd. rewrite (explicit_stage_no_x _ Hx). cbn [bind].
    rewrite (iso_stage_no_digit _ _ Hd). reflexivity.
Qed.

(** "A4 x" is not resolved, "b5" by the ISO 216 stage and "Letter" by the
    tables. *)
Lemma stages_by_characters_witness :
  get_format (lit "A4 x") = Ok None /\
  get_format (lit "b5") = iso_stage iso_prefixes (lit "b5") /\
  get_format (lit "Letter") = Ok (Some us_letter).
Proof.
  split; [|split].
  - rewrite (proj1 (stages_by_characters (lit "A4 x")) eq_refl). reflexivity.
  - exact (proj1 (proj2 (stages_by_characters (lit "b5"))) eq_refl eq_refl).
  - rewrite (proj2 (proj2 (stages_by_characters (lit "Letter"))) eq_refl eq_refl).
    reflexivity.
Defined.

(** The ISO 216 notation with any string of digits for the size, leading
    zeros included: the format of the series and the value of the digits
    when there are no more than 4300 digits and the value is at most 10,
    and no format at all otherwise: [int()] raises ValueError on more
    than 4300 digits, and the loop goes on to the next prefix. *)
Theorem iso216_size_range (pre ws1 ws2 ws3 ds : str) (series : ascii) :
  In (lower pre) iso_prefixes ->
  forallb isspace ws1 = true -> forallb isspace ws2 = true ->
  forallb isspace ws3 = true ->
  contains (lower_char series) (lit "abc") = true ->
  forallb isdigit ds = true -> ds <> [] ->
  get_format (ws1 ++ pre ++ ws2 ++ series :: ds ++ ws3)
  = if (N.of_nat (List.length ds) <=? max_str_digits)%N
       && (digits_value ds <=? 10)%N
    then fmt <- iso216_format (lower_char series) (Z.of_N (digits_value ds)) ;;
         Ok (Some fmt)
    else Ok None.
Proof.
  intros HP H1 H2 H3 Hc Hd Hne.
  unfold get_format.
  assert (Hl : lower (ws1 ++ pre ++ ws2 ++ series :: ds ++ ws3)
               = ws1 ++ lower pre ++ ws2 ++ lower_char series :: ds ++ ws3).
  { rewrite !lower_app. cbn [lower map]. fold (lower (ds ++ ws3)).
    rewrite lower_app, (lower_digits ds Hd).
    rewrite (lower_spaces ws1 H1), (lower_spaces ws2 H2), (lower_spaces ws3 H3).
    reflexivity. }
  rewrite Hl.
  rewrite (strip_iso (lower pre) ws1 ws2 ws3 _ _ HP H1 H2 H3
             (proj1 (abc_not_space _ Hc)) Hd Hne).
  rewrite (explicit_stage_no_x _ (notation_no_x _ ws2 _ _ HP H2 Hc Hd)).
  cbn [bind].
  destruct ((N.of_nat (List.length ds) <=? max_str_digits)%N
            && (digits_value ds <=? 10)%N) eqn:Hin.
  - apply andb_prop in Hin as [Hlen Hle].
    apply N.leb_le in Hlen, Hle.
    pose proof (int_of_digits ds Hd Hne) as Hi.
    destruct (N.ltb_spec max_str_digits (N.of_nat (List.length ds))); [lia|].
    rewrite (iso_stage_notation _ ws2 _ _ _ HP H2 Hc Hi ltac:(lia)).
    destruct (iso216_format (lower_char series) (Z.of_N (digits_value ds)));
      reflexivity.
  - rewrite (iso_stage_above _ ws2 _ _ HP H2 Hc
               (digits_above ds _ Hd Hne Hin)).
    cbn [bind].
    apply table_stage_digit, notation_has_digit; assumption.
Qed.

(** "din A11" is no format, "a04" is A4, and [a] with 4300 zeros and a
    4 is no format. *)
Lemma iso216_size_range_witness :
  get_format (lit "din A11") = Ok None /\
  get_format (lit "a04") = Ok (Some a4_format) /\
  get_format ("a"%char :: repeat "0"%char 4300 ++ lit "4") = Ok None.
Proof.
  split; [|split].
  - exact (iso216_size_range (lit "din") [] (lit " ") [] (lit "11") "A"
             ltac:(vm_compute; auto) eq_refl eq_refl eq_refl eq_refl eq_refl
             ltac:(discriminate)).
  - exact (iso216_size_range [] [] [] [] (lit "04") "a"
             ltac:(do 4 right; left; reflexivity) eq_refl eq_refl eq_refl eq_refl eq_refl
             ltac:(discriminate)).
  - assert (Hd : forallb isdigit (repeat "0"%char 4300 ++ lit "4") = true)
      by (vm_compute; reflexivity).
    assert (Hne : repeat "0"%char 4300 ++ lit "4" <> [])
      by (intros E; apply (f_equal (@List.length ascii)) in E;
          vm_compute in E; discriminate E).
    exact (iso216_size_range [] [] [] [] (repeat "0"%char 4300 ++ lit "4") "a"
             ltac:(do 4 right; left; reflexivity) eq_refl eq_refl eq_refl
             eq_refl Hd Hne
           <: get_format ("a"%char :: repeat "0"%char 4300 ++ lit "4")
              = Ok None).
Defined.

(* ================================================================= *)
(** ** The loop over the pages *)

Module DriverFacts.

Import DecimalFacts.

Lemma scale_pages_cons (fmt_mm : format) (p : page) (rest pages' : list page)
  (n : nat) :
  scale_pages fmt_mm (p :: rest) = Ok (pages', n) ->
  exists o rest' m,
    scale_page fmt_mm p = Ok o /\
    scale_pages fmt_mm rest = Ok (rest', m) /\
    pages' = commit p o :: rest' /\
    n = match o with NoChange => m | Changed _ => S m end.
Proof.
  cbn [scale_pages]. intros H.
  destruct (scale_page fmt_mm p) as [o|] eqn:Eo; [|discriminate H].
  cbn [bind] in H.
  destruct (scale_pages fmt_mm rest) as [[rest' m]|] eqn:Er; [|discriminate H].
  cbn [bind] in H. injection H as <- <-.
  exists o, rest', m. repeat split; reflexivity.
Qed.

(** The loop commits the outcome of each page and counts the changed ones. *)
Lemma scale_pages_inv (fmt_mm : format) (pdf : list page) :
  forall pages' n,
    scale_pages fmt_mm pdf = Ok (pages', n) ->
    Forall2 (fun p p' => exists o, scale_page fmt_mm p = Ok o /\ p' = commit p o)
      pdf pages' /\
    n = List.length (filter (changed fmt_mm) pdf).
Proof.
  induction pdf as [|p rest IH]; intros pages' n H.
  - injection H as <- <-. split; [constructor|reflexivity].
  - destruct (scale_pages_cons _ _ _ _ _ H) as (o & rest' & m & Eo & Er & -> & ->).
    destruct (IH _ _ Er) as [HF Hn]. split.
    + constructor; [exists o; split; [exact Eo|reflexivity]|exact HF].
    + cbn [filter]. unfold changed at 1. rewrite Eo.
      destruct o; cbn [List.length]; rewrite Hn; reflexivity.
Qed.

Lemma scale_pages_unchanged (fmt_mm : format) (pdf : list page) :
  Forall (fun p => scale_page fmt_mm p = Ok NoChange) pdf ->
  scale_pages fmt_mm pdf = Ok (pdf, O).
Proof.
  induction 1 as [|p rest Hp _ IH]; [reflexivity|].
  cbn [scale_pages]. rewrite Hp. cbn [bind]. rewrite IH. reflexivity.
Qed.

Lemma no_filter (fmt_mm : format) (pdf : list page) :
  (forall p, In p pdf -> exists o, scale_page fmt_mm p = Ok o) ->
  List.length (filter (changed fmt_mm) pdf) = O ->
  Forall (fun p => scale_page fmt_mm p = Ok NoChange) pdf.
Proof.
  induction pdf as [|p rest IH]; intros Hok Hn; [constructor|].
  cbn [filter] in Hn. unfold changed at 1 in Hn.
  destruct (Hok p (or_introl eq_refl)) as [o Eo]. rewrite Eo in Hn.
  destruct o; [|discriminate Hn].
  constructor; [exact Eo|].
  apply IH; [|exact Hn]. intros q Hq. apply Hok. right. exact Hq.
Qed.

(** A page in the steady range that an iteration has changed is left
    alone by the next one. *)
Lemma page_settles (fmt_mm : format) (p p' : page) :
  steady_page fmt_mm p ->
  scale_page fmt_mm p = Ok (Changed p') ->
  scale_page fmt_mm p' = Ok NoChange.
Proof.
  intros ((Mx0 & My0 & Mx1 & My1) & f0 & f1 & Hf0 & Hf1 & Mf0 & Mf1) H.
  destruct (scale_page_inv _ _ _ H)
    as (fmt & w & h & xd & yd & small & Hm & Hb & Hs).
  destruct (measure_inv _ _ _ _ _ _ _ Hm) as (Hf0' & Hf1' & Hw & Hh & Hxd & Hyd).
  rewrite Hf0 in Hf0'. injection Hf0' as G0.
  rewrite Hf1 in Hf1'. injection Hf1' as G1.
  destruct fmt as [g0 g1]. cbn [fst snd] in *. subst g0 g1.
  destruct small; [discriminate Hs|].
  destruct Hs as (mb & s & t & Hr & _ & Ho). injection Ho as ->.
  destruct (resized_box_inv _ _ _ _ Hr)
    as (nx1 & ny1 & nx0' & ny0' & nx1' & ny1' & Hx & Hy & E0 & E1 & E2 & E3 & ->).
  destruct (StoreFacts.axis_settles_stored _ _ _ _ _ _ _ _
              Mx0 Mx1 Mf0 Hw Hxd Hx E0 E2)
    as (w2 & xd2 & ax & Ew & Exd & Eax & Elx).
  destruct (StoreFacts.axis_settles_stored _ _ _ _ _ _ _ _
              My0 My1 Mf1 Hh Hyd Hy E1 E3)
    as (h2 & yd2 & ay & Eh & Eyd & Eay & Ely).
  unfold scale_page, measure.
  unfold user_unit_of in *. cbn [UserUnit MediaBox x0 x1 y0 y1].
  rewrite Hf0. cbn [bind]. rewrite Hf1. cbn [bind].
  rewrite Ew. cbn [bind]. rewrite Eh. cbn [bind].
  rewrite Exd. cbn [bind]. rewrite Eyd. cbn [bind].
  unfold below_threshold. cbv zeta.
  rewrite Eax. cbn [bind]. rewrite Elx. cbn [bind].
  rewrite Eay. cbn [bind]. rewrite Ely. reflexivity.
Qed.

Lemma sync_box_none (mb : box) (b : option box) :
  b = None <-> sync_box mb b = None.
Proof. destruct b; cbn [sync_box]; split; intros H; congruence. Qed.

Lemma commit_same_frame (fmt_mm : format) (p : page) (o : outcome) :
  scale_page fmt_mm p = Ok o -> same_frame p (commit p o).
Proof.
  intros H.
  destruct (scale_page_inv _ _ _ H)
    as (fmt & w & h & xd & yd & small & Hm & Hb & Hs).
  destruct small.
  - subst o. cbn [commit]. unfold same_frame.
    repeat split; try reflexivity.
    + unfold aux_boxes. repeat constructor; intros E; exact E.
    + left. reflexivity.
  - destruct Hs as (mb & s & t & Hr & _ & ->).
    destruct (resized_box_inv _ _ _ _ Hr)
      as (nx1 & ny1 & nx0' & ny0' & nx1' & ny1' & _ & _ & E0 & E1 & _ & _ & ->).
    cbn [commit]. unfold same_frame, aux_boxes.
    cbn [UserUnit MediaBox CropBox BleedBox TrimBox ArtBox Contents x0 y0].
    split; [reflexivity|]. split.
    + repeat constructor; apply sync_box_none.
    + right. split; [exact E0|]. split; [exact E1|].
      eexists. split; [|reflexivity]. reflexivity.
Qed.

End DriverFacts.

Import DriverFacts.

(** What [scale] reports: nothing to do exactly when the iteration
    changes no page; otherwise the document is saved with as many pages
    as it had, each one as its iteration left it, and [scaled_count] is
    the number of pages that were changed, at least one. *)
Theorem scale_reports (fmt_mm : format) (pdf : list page) (r : report) :
  scale pdf fmt_mm = Ok r ->
  match r with
  | NothingToDo =>
      Forall (fun p => scale_page fmt_mm p = Ok NoChange) pdf
  | Scaled pages scaled_count total =>
      total = List.length pdf /\
      List.length pages = List.length pdf /\
      scaled_count = List.length (filter (changed fmt_mm) pdf) /\
      (1 <= scaled_count <= total)%nat /\
      Forall2 (fun p p' => exists o, scale_page fmt_mm p = Ok o /\ p' = commit p o)
        pdf pages
  end.
Proof.
  unfold scale. intros H.
  destruct (scale_pages fmt_mm pdf) as [[pages n]|] eqn:Ep; [|discriminate H].
  cbn [bind] in H. destruct (scale_pages_inv _ _ _ _ Ep) as [HF Hn].
  destruct n as [|n].
  - injection H as <-. apply no_filter; [|symmetry; exact Hn].
    intros p Hp. clear Hn Ep. induction HF as [|q q' ps ps' (o & Ho & _) _ IH].
    + destruct Hp.
    + destruct Hp as [<-|Hp]; [exists o; exact Ho|exact (IH Hp)].
  - injection H as <-. split; [reflexivity|].
    split; [symmetry; exact (Forall2_length HF)|].
    split; [exact Hn|]. split; [|exact HF].
    split; [lia|]. rewrite Hn. apply filter_length_le.
Qed.

(** The example page is scaled to US letter: one page of one. *)
Lemma scale_reports_witness :
  exists pages,
    scale [example_page] us_letter = Ok (Scaled pages 1 1) /\
    List.length pages = 1%nat.
Proof.
  destruct (scale [example_page] us_letter) as [[pages n total|]|e] eqn:H.
  - pose proof (scale_reports us_letter [example_page] _ H) as (-> & Hl & Hn & _).
    exists pages. split; [|exact Hl].
    rewrite Hn. vm_compute. reflexivity.
  - vm_compute in H. discriminate H.
  - vm_compute in H. discriminate H.
Defined.

(** [scale] raises exactly when the iteration raises on some page, and
    then with the exception of the first such page: nothing is saved. *)
Theorem scale_raises (fmt_mm : format) (pdf : list page) (e : exn) :
  scale pdf fmt_mm = Raise e <->
  exists before p after,
    pdf = before ++ p :: after /\
    Forall (fun q => exists o, scale_page fmt_mm q = Ok o) before /\
    scale_page fmt_mm p = Raise e.
Proof.
  assert (Hs : scale pdf fmt_mm = Raise e <-> scale_pages fmt_mm pdf = Raise e).
  { unfold scale. destruct (scale_pages fmt_mm pdf) as [[pages [|n]]|e'];
      cbn [bind]; split; intros H;
      solve [discriminate H | injection H as ->; reflexivity]. }
  rewrite Hs. clear Hs. induction pdf as [|q rest IH].
  - split; [discriminate|]. intros (before & p & after & H & _).
    destruct before; discriminate H.
  - cbn [scale_pages]. destruct (scale_page fmt_mm q) as [o|e'] eqn:Eq; cbn [bind].
    + split.
      * intros H.
        destruct (scale_pages fmt_mm rest) as [[rest' m]|e''] eqn:Er;
          [discriminate H|]. cbn [bind] in H. injection H as ->.
        destruct (proj1 IH eq_refl) as (before & p & after & -> & HB & Hp).
        exists (q :: before), p, after. split; [reflexivity|].
        split; [constructor; [exists o; exact Eq|exact HB]|exact Hp].
      * intros (before & p & after & H & HB & Hp).
        destruct before as [|b before]; cbn [app] in H; injection H as -> ->.
        { rewrite Hp in Eq. discriminate Eq. }
        inversion HB as [|? ? _ HB']; subst.
        rewrite (proj2 IH (ex_intro _ before (ex_intro _ p (ex_intro _ after
                   (conj eq_refl (conj HB' Hp)))))).
        reflexivity.
    + split.
      * intros [= ->]. exists [], q, rest. split; [reflexivity|].
        split; [constructor|exact Eq].
      * intros (before & p & after & H & HB & Hp).
        destruct before as [|b before]; cbn [app] in H; injection H as -> ->.
        { rewrite Hp in Eq. injection Eq as ->. reflexivity. }
        inversion HB as [|? ? (o & Ho) _]; subst.
        rewrite Ho in Eq. discriminate Eq.
Qed.

(** Every page that [scale] leaves keeps its unit, the presence or
    absence of each other box, and its content, in front of which a
    changed page has one [cm] instruction with six operands; the lower
    left corner of the media box of a changed page is the old one as
    pikepdf stores it, rounded to 15 significant digits. *)
Theorem pages_keep_frame (fmt_mm : format) (pdf pages : list page) (n : nat) :
  scale_pages fmt_mm pdf = Ok (pages, n) ->
  Forall2 same_frame pdf pages.
Proof.
  intros H. destruct (scale_pages_inv _ _ _ _ H) as [HF _]. clear H.
  induction HF as [|p p' ps ps' (o & Ho & ->) _ IH]; constructor;
    [exact (commit_same_frame fmt_mm p o Ho)|exact IH].
Qed.

(** The example page after the loop has its two instructions behind one
    [cm]. *)
Lemma pages_keep_frame_witness :
  exists pages n,
    scale_pages us_letter [example_page] = Ok (pages, n) /\
    Forall2 same_frame [example_page] pages.
Proof.
  destruct (scale_pages us_letter [example_page]) as [[pages n]|e] eqn:H.
  - exists pages, n. split; [reflexivity|].
    exact (pages_keep_frame us_letter [example_page] pages n H).
  - vm_compute in H. discriminate H.
Defined.

(** A second run, on the pages as a first run has left them, finds
    nothing to do, when every page is in the steady range: the coordinates
    of its media box and the target in its units are finite, with no more
    than 10^6 decimals, and below 10^13. *)
Theorem second_run_nothing_to_do (fmt_mm : format) (pdf pages : list page)
  (scaled_count total : nat) :
  Forall (steady_page fmt_mm) pdf ->
  scale pdf fmt_mm = Ok (Scaled pages scaled_count total) ->
  scale pages fmt_mm = Ok NothingToDo.
Proof.
  intros HM H. unfold scale in H.
  destruct (scale_pages fmt_mm pdf) as [[pages' n]|] eqn:Ep; [|discriminate H].
  cbn [bind] in H. destruct n as [|n]; [discriminate H|].
  injection H as <- _ _.
  destruct (scale_pages_inv _ _ _ _ Ep) as [HF _]. clear Ep.
  unfold scale. rewrite (scale_pages_unchanged fmt_mm pages'); [reflexivity|].
  induction HF as [|p p' ps ps' (o & Ho & ->) _ IH]; [constructor|].
  inversion HM as [|? ? Mp Mps]; subst.
  constructor; [|exact (IH Mps)].
  destruct o as [|q]; cbn [commit]; [exact Ho|].
  exact (page_settles fmt_mm p q Mp Ho).
Qed.

(** The document of the example page, scaled to US letter and scaled
    again. *)
Lemma second_run_nothing_to_do_witness :
  exists pages n total,
    scale [example_page] us_letter = Ok (Scaled pages n total) /\
    scale pages us_letter = Ok NothingToDo.
Proof.
  destruct (scale [example_page] us_letter) as [[pages n total|]|e] eqn:H.
  - exists pages, n, total. split; [reflexivity|].
    refine (second_run_nothing_to_do us_letter [example_page] pages n total _ H).
    constructor; [|constructor]. split.
    + repeat split; vm_compute; discriminate.
    + eexists. eexists. split; [vm_compute; reflexivity|].
      split; [vm_compute; reflexivity|].
      split; split; vm_compute; discriminate.
  - vm_compute in H. discriminate H.
  - vm_compute in H. discriminate H.
Defined.

(* ================================================================= *)
(** ** Formats that are not numbers *)

Module NaNFacts.

Lemma sub_nan (a b r : decimal) :
  is_nan a || is_nan b = true -> sub a b = Ok r -> is_nan r = true.
Proof.
  intros Hn. unfold sub.
  destruct a, b; cbn [is_nan orb] in Hn; try discriminate Hn;
    cbn [check_nans]; intros [= <-]; reflexivity.
Qed.

Lemma div_nan (a b r : decimal) :
  is_nan a = true -> div a b = Ok r -> is_nan r = true.
Proof.
  intros Hn. unfold div.
  destruct a, b; cbn [is_nan] in Hn; try discriminate Hn;
    cbn [check_nans]; intros [= <-]; reflexivity.
Qed.

Lemma to_native_nan (u e f : decimal) :
  is_nan e = true -> to_native u e = Ok f -> is_nan f = true.
Proof.
  intros Hn. unfold to_native.
  destruct PT as [pt|]; [|discriminate]. cbn [bind].
  destruct (mul pt u) as [k|]; [|discriminate]. cbn [bind].
  apply div_nan, Hn.
Qed.

Lemma abs_nan (a r : decimal) : is_nan a = true -> abs a = Ok r -> is_nan r = true.
Proof.
  intros Hn. unfold abs.
  destruct a; cbn [is_nan] in Hn; try discriminate Hn;
    cbn [check_nan]; intros [= <-]; reflexivity.
Qed.

Lemma lt_nan (a b : decimal) (r : bool) : lt a b = Ok r -> is_nan a = false.
Proof.
  unfold lt. destruct (is_nan a); [discriminate|reflexivity].
Qed.

Lemma gt_nan (a b : decimal) (r : bool) :
  gt a b = Ok r -> is_nan a || is_nan b = false.
Proof.
  unfold gt. destruct (is_nan a || is_nan b); [discriminate|reflexivity].
Qed.

(** The test against the threshold compares both differences when it
    succeeds, and the first one in any case. *)
Lemma below_threshold_numbers (xd yd : decimal) (small : bool) :
  below_threshold xd yd = Ok small ->
  is_nan xd = false /\ (small = true -> is_nan yd = false).
Proof.
  unfold below_threshold. cbv zeta.
  destruct (abs xd) as [ax|] eqn:Eax; [|discriminate]. cbn [bind].
  destruct (lt ax (of_int 1)) as [bx|] eqn:Ebx; [|discriminate]. cbn [bind].
  assert (Hx : is_nan xd = false).
  { destruct (is_nan xd) eqn:E; [|reflexivity].
    pose proof (lt_nan _ _ _ Ebx) as Hax.
    rewrite (abs_nan _ _ E Eax) in Hax. discriminate Hax. }
  destruct bx.
  - destruct (abs yd) as [ay|] eqn:Eay; [|discriminate]. cbn [bind].
    intros Hlt. split; [exact Hx|]. intros _.
    destruct (is_nan yd) eqn:E; [|reflexivity].
    pose proof (lt_nan _ _ _ Hlt) as Hay.
    rewrite (abs_nan _ _ E Eay) in Hay. discriminate Hay.
  - intros [= <-]. split; [exact Hx|discriminate].
Qed.

(** With a NaN in the format no iteration returns. *)
Lemma scale_page_nan (fmt_mm : format) (p : page) (o : outcome) :
  is_nan (fst fmt_mm) || is_nan (snd fmt_mm) = true ->
  scale_page fmt_mm p = Ok o -> False.
Proof.
  intros Hn H.
  destruct (scale_page_inv _ _ _ H)
    as (fmt & w & h & xd & yd & small & Hm & Hb & Hs).
  destruct (measure_inv _ _ _ _ _ _ _ Hm) as (Hf0 & Hf1 & _ & _ & Hxd & Hyd).
  destruct (below_threshold_numbers _ _ _ Hb) as [Hx Hy].
  apply orb_prop in Hn as [Hn|Hn].
  - pose proof (to_native_nan _ _ _ Hn Hf0) as N0.
    assert (E : is_nan xd = true).
    { apply (sub_nan _ _ _ (eq_trans (f_equal (orb _) N0) (orb_true_r _)) Hxd). }
    congruence.
  - pose proof (to_native_nan _ _ _ Hn Hf1) as N1.
    assert (E : is_nan yd = true).
    { apply (sub_nan _ _ _ (eq_trans (f_equal (orb _) N1) (orb_true_r _)) Hyd). }
    destruct small; [rewrite (Hy eq_refl) in E; discriminate E|].
    destruct Hs as (mb & s & t & _ & Hp & _).
    destruct (placement_inv _ _ _ _ _ _ _ _ _ Hp) as (wider & Hg & _).
    apply gt_nan in Hg. rewrite E, orb_true_r in Hg. discriminate Hg.
Qed.

End NaNFacts.

(** When the width or the height of the format is a NaN, [scale] raises
    on every document that has a page: in the first iteration the NaN
    traps in a comparison or is refused when the media box is assigned,
    and nothing is saved. *)
Theorem nan_format_raises (fmt_mm : format) (pdf : list page) :
  is_nan (fst fmt_mm) || is_nan (snd fmt_mm) = true -> pdf <> [] ->
  exists e, scale pdf fmt_mm = Raise e.
Proof.
  intros Hn Hne. destruct pdf as [|p rest]; [contradiction|].
  unfold scale. cbn [scale_pages].
  destruct (scale_page fmt_mm p) as [o|e] eqn:E.
  - destruct (NaNFacts.scale_page_nan fmt_mm p o Hn E).
  - cbn [bind]. exists e. reflexivity.
Qed.

(** "1xnan" is resolved, and the run on the example page raises. *)
Lemma nan_format_raises_witness :
  get_format (lit "1xnan") = Ok (Some (Finite false 1 0, NaN false 0)) /\
  exists e, scale [example_page] (Finite false 1 0, NaN false 0) = Raise e.
Proof.
  split; [reflexivity|].
  exact (nan_format_raises (Finite false 1 0, NaN false 0) [example_page]
           eq_refl ltac:(discriminate)).
Defined.

(* ================================================================= *)
(** ** The ISO 216 sizes *)

(** The height of a size is the width of the size before it, as the same
    Decimal, in every series and for every size; and in the series and
    sizes of the notation the width is less than the height. *)
Theorem iso216_sizes_nest (series : ascii) (size : Z) :
  (forall w h w' h',
     iso216_format series size = Ok (w, h) ->
     iso216_format series (size + 1) = Ok (w', h') ->
     h' = w) /\
  (contains series (lit "abc") = true -> 0 <= size <= 10 ->
   exists w h, iso216_format series size = Ok (w, h) /\ lt w h = Ok true).
Proof.
  split.
  - intros w h w' h'. unfold iso216_format.
    destruct (ISO216_VALUES series) as [base|]; [|discriminate]. cbn [bind].
    destruct (div (of_int size) (of_int 2)) as [half|]; [|discriminate].
    cbn [bind].
    destruct (sub base half) as [eh|]; [|discriminate]. cbn [bind].
    destruct (pow2 eh) as [ph|]; [|discriminate]. cbn [bind].
    destruct (mul ph (of_int 1000)) as [height|]; [|discriminate]. cbn [bind].
    destruct (div (of_int (size + 1)) (of_int 2)) as [half'|]; [|discriminate].
    cbn [bind].
    destruct (sub base half') as [ew|]; [|discriminate]. cbn [bind].
    destruct (pow2 ew) as [pw|]; [|discriminate]. cbn [bind].
    destruct (mul pw (of_int 1000)) as [width|]; [|discriminate]. cbn [bind].
    intros [= <- <-].
    destruct (div (of_int (size + 1 + 1)) (of_int 2)) as [half''|];
      [|discriminate]. cbn [bind].
    destruct (sub base half'') as [ew'|]; [|discriminate]. cbn [bind].
    destruct (pow2 ew') as [pw'|]; [|discriminate]. cbn [bind].
    destruct (mul pw' (of_int 1000)) as [width'|]; [|discriminate]. cbn [bind].
    intros [= _ <-]. reflexivity.
  - intros Hc Hs. apply FormatFacts.contains_abc in Hc.
    apply FormatFacts.size_cases in Hs. cbn [In] in Hs.
    destruct Hc as [ -> | [ -> | -> ] ];
      repeat (destruct Hs as [ <- | Hs ];
              [eexists; eexists; split; [vm_compute; reflexivity|];
               vm_compute; reflexivity|]);
      contradiction.
Qed.

(** The height of A4 is the width of A3. *)
Lemma iso216_sizes_nest_witness :
  exists w h w' h',
    iso216_format "a" 3 = Ok (w, h) /\ iso216_format "a" 4 = Ok (w', h') /\
    h' = w.
Proof.
  destruct (iso216_format "a" 3) as [[w h]|e] eqn:E3.
  - destruct (iso216_format "a" 4) as [[w' h']|e] eqn:E4.
    + exists w, h, w', h'. split; [reflexivity|]. split; [reflexivity|].
      exact (proj1 (iso216_sizes_nest "a" 3) w h w' h' E3 E4).
    + vm_compute in E4. discriminate E4.
  - vm_compute in E3. discriminate E3.
Defined.

(* ================================================================= *)
(** ** The file that is written and the default format *)

(** The path under which [scale] saves is never the path it has read: it
    is longer by seven characters, or has the eleven of the suffix when
    the path has fewer than four.  The last four characters of the path,
    whatever they are, give way to the suffix. *)
Theorem output_path_is_new (fpath : str) :
  output_path fpath <> fpath /\
  List.length (output_path fpath)
  = (if (List.length fpath <? 4)%nat then 11 else List.length fpath + 7)%nat /\
  (forall stem ext, fpath = stem ++ ext -> List.length ext = 4%nat ->
     output_path fpath = stem ++ lit "-scaled.pdf").
Proof.
  assert (Hl : List.length (output_path fpath)
               = (if (List.length fpath <? 4)%nat then 11
                  else List.length fpath + 7)%nat).
  { unfold output_path. rewrite length_app, length_firstn.
    change (List.length (lit "-scaled.pdf")) with 11%nat.
    destruct (Nat.ltb_spec (List.length fpath) 4); lia. }
  split; [|split; [exact Hl|]].
  - intros E. rewrite E in Hl.
    destruct (Nat.ltb_spec (List.length fpath) 4); lia.
  - intros stem ext -> He. unfold output_path.
    rewrite length_app, He.
    replace (List.length stem + 4 - 4)%nat with (List.length stem + 0)%nat by lia.
    rewrite firstn_app_2. cbn [firstn]. rewrite app_nil_r. reflexivity.
Qed.

(** "doc.pdf" is saved as "doc-scaled.pdf". *)
Lemma output_path_is_new_witness :
  output_path (lit "doc.pdf") = lit "doc-scaled.pdf".
Proof.
  exact (proj2 (proj2 (output_path_is_new (lit "doc.pdf")))
           (lit "doc") (lit ".pdf") eq_refl eq_refl).
Defined.

(** On a document whose pages have the size of A4 in points, [main]
    without a format option finds nothing to do and writes nothing. *)
Theorem default_format_leaves_a4 (file : str) (pdf : list page) :
  Forall a4_in_points pdf ->
  main (parse_arguments None file) pdf = Ok (Ran NothingToDo) /\
  saved file NothingToDo = None.
Proof.
  intros HA. split; [|reflexivity].
  unfold main, parse_arguments. cbn [format_arg].
  assert (Hg : get_format (lit "A4") = Ok (Some a4_format))
    by (vm_compute; reflexivity).
  rewrite Hg. cbn [bind]. unfold scale.
  rewrite (scale_pages_unchanged a4_format pdf); [reflexivity|].
  apply (Forall_impl _ (P := a4_in_points)); [|exact HA].
  intros [mb cb bb tb ab uu ct] (Hu & x & y & w & h & Hb & Hw & Hh).
  cbn [UserUnit MediaBox] in Hu, Hb. subst uu mb.
  unfold scale_page, measure, user_unit_of.
  cbn [UserUnit MediaBox x0 y0 x1 y1 nsub].
  replace (x + w - x) with w by lia. replace (y + h - y) with h by lia.
  assert (Cw : w = 595 \/ w = 596) by lia.
  assert (Ch : h = 842 \/ h = 843) by lia.
  clear Hw Hh. destruct Cw as [-> | ->], Ch as [-> | ->];
    vm_compute; reflexivity.
Qed.

(** A document of two such pages. *)
Lemma default_format_leaves_a4_witness :
  main (parse_arguments None (lit "doc.pdf"))
    [ {| MediaBox := mkBox (Int 0) (Int 0) (Int 595) (Int 842);
         CropBox := None; BleedBox := None; TrimBox := None; ArtBox := None;
         UserUnit := None; Contents := [] |};
      {| MediaBox := mkBox (Int 10) (Int 20) (Int 606) (Int 863);
         CropBox := None; BleedBox := None; TrimBox := None; ArtBox := None;
         UserUnit := None; Contents := [([], lit "q")] |} ]
  = Ok (Ran NothingToDo).
Proof.
  refine (proj1 (default_format_leaves_a4 (lit "doc.pdf") _ _)).
  constructor; [|constructor; [|constructor]].
  - split; [reflexivity|]. exists 0, 0, 595, 842.
    split; [reflexivity|]. split; lia.
  - split; [reflexivity|]. exists 10, 20, 596, 843.
    split; [reflexivity|]. split; lia.
Defined.

(** Two numbers written with digits and a point around the [x] are taken
    as they are written: all their digits are kept, however many they
    are, where a result of the arithmetic would be rounded to 28 of
    them. *)
Theorem explicit_numbers_exact (ip1 fp1 ip2 fp2 : str) :
  forallb isdigit ip1 = true -> forallb isdigit fp1 = true ->
  forallb isdigit ip2 = true -> forallb isdigit fp2 = true ->
  ip1 ++ fp1 <> [] -> ip2 ++ fp2 <> [] ->
  get_format (plain_decimal ip1 fp1 ++ "x"%char :: plain_decimal ip2 fp2)
  = Ok (Some (Finite false (digits_value (ip1 ++ fp1))
                (- Z.of_nat (List.length fp1)),
              Finite false (digits_value (ip2 ++ fp2))
                (- Z.of_nat (List.length fp2)))).
Proof.
  intros Hi1 Hf1 Hi2 Hf2 Hn1 Hn2.
  pose proof (of_str_plain ip1 fp1 Hi1 Hf1 Hn1) as HW.
  pose proof (of_str_plain ip2 fp2 Hi2 Hf2 Hn2) as HH.
  unfold get_format.
  rewrite (explicit_stage_split _ _ _
             (split_explicit _ (plain_decimal ip2 fp2) (of_str_no_x _ _ HW))).
  rewrite of_str_lstrip, of_str_lower, HW.
  rewrite of_str_rstrip, of_str_lower, HH. reflexivity.
Qed.

(** A width of 30 digits. *)
Lemma explicit_numbers_exact_witness :
  get_format (lit "210.000000000000000000000000001x297.")
  = Ok (Some (Finite false 210000000000000000000000000001 (-27),
              Finite false 297 0)).
Proof.
  exact (explicit_numbers_exact (lit "210") (lit "000000000000000000000000001")
           (lit "297") [] eq_refl eq_refl eq_refl eq_refl
           ltac:(discriminate) ltac:(discriminate)).
Defined.

(** A string without [x] and without a digit, once in lower case and
    stripped, resolves exactly when it is "us letter" or its synonym
    "letter", and then to 215.90 mm by 355.6 mm. *)
Theorem named_formats (s : str) (f : format) :
  contains "x" (strip (lower s)) = false ->
  existsb isdigit (strip (lower s)) = false ->
  (get_format s = Ok (Some f) <->
   (strip (lower s) = lit "us letter" \/ strip (lower s) = lit "letter") /\
   f = us_letter).
Proof.
  intros Hx Hd. rewrite (get_format_tables s Hx Hd).
  apply table_stage_names.
Qed.

(** " LETTER" is US letter. *)
Lemma named_formats_witness : get_format (lit " LETTER") = Ok (Some us_letter).
Proof.
  apply (named_formats (lit " LETTER") us_letter eq_refl eq_refl).
  split; [right|]; reflexivity.
Defined.

(** The size after the series letter is whatever [int()] takes: with
    digits, underscores and a sign after the letter, the string resolves
    to the ISO 216 format of the value when that is in 0..10, and to
    nothing otherwise. *)
Theorem iso216_size_as_int (series : ascii) (tail : str) (size : Z) :
  contains (lower_char series) (lit "abc") = true ->
  forallb int_char tail = true ->
  int_of_str tail = Ok size ->
  get_format (series :: tail)
  = if (0 <=? size) && (size <=? 10)
    then fmt <- iso216_format (lower_char series) size ;; Ok (Some fmt)
    else Ok None.
Proof.
  intros Hc Ht Hi. unfold get_format.
  cbn [lower map]. fold (lower tail). rewrite (lower_int_chars tail Ht).
  destruct (abc_not_space _ Hc) as [Hsp Hcx].
  rewrite strip_no_space.
  2:{ cbn [existsb]. rewrite Hsp. apply int_chars_no_space, Ht. }
  rewrite explicit_stage_no_x.
  2:{ unfold contains. cbn [existsb]. rewrite Hcx.
      exact (int_of_str_no_x tail size Hi). }
  cbn [bind].
  destruct ((0 <=? size) && (size <=? 10)) eqn:Hr.
  - apply andb_prop in Hr as [H0 H10].
    apply Z.leb_le in H0. apply Z.leb_le in H10.
    rewrite (iso_stage_notation [] [] _ _ size
               ltac:(do 4 right; left; reflexivity) eq_refl Hc Hi (conj H0 H10)).
    destruct (iso216_format (lower_char series) size); reflexivity.
  - rewrite (iso_stage_above [] [] tail _
               ltac:(do 4 right; left; reflexivity) eq_refl Hc).
    2:{ intros z Hz. rewrite Hi in Hz. injection Hz as <-.
        rewrite Hc. exact Hr. }
    cbn [bind]. apply table_stage_digit. cbn [existsb].
    rewrite (int_of_str_has_digit tail size Hi). apply orb_true_r.
Qed.

(** "A+4" and "a0_4" are A4, and "a-1" is no format. *)
Lemma iso216_size_as_int_witness :
  get_format (lit "A+4") = Ok (Some a4_format) /\
  get_format (lit "a0_4") = Ok (Some a4_format) /\
  get_format (lit "a-1") = Ok None.
Proof.
  split; [|split].
  - exact (iso216_size_as_int "A" (lit "+4") 4 eq_refl eq_refl eq_refl).
  - exact (iso216_size_as_int "a" (lit "0_4") 4 eq_refl eq_refl eq_refl).
  - exact (iso216_size_as_int "a" (lit "-1") (-1) eq_refl eq_refl eq_refl).
Defined.

(** For a media box with integer corners the measurement, and with it
    the decision to leave the page alone, depends on the size of the box
    only: moving the box by whole units changes neither. *)
Theorem position_is_immaterial (fmt_mm : format) (p : page) (a b c d dx dy : Z) :
  MediaBox p = mkBox (Int a) (Int b) (Int c) (Int d) ->
  measure fmt_mm (moved dx dy a b c d p) = measure fmt_mm p /\
  (scale_page fmt_mm (moved dx dy a b c d p) = Ok NoChange <->
   scale_page fmt_mm p = Ok NoChange).
Proof.
  intros Hb.
  assert (Hm : measure fmt_mm (moved dx dy a b c d p) = measure fmt_mm p).
  { unfold measure, user_unit_of, moved. rewrite Hb.
    cbn [UserUnit MediaBox x0 y0 x1 y1 nsub].
    replace (c + dx - (a + dx)) with (c - a) by lia.
    replace (d + dy - (b + dy)) with (d - b) by lia. reflexivity. }
  split; [exact Hm|].
  assert (Hno : forall q, scale_page fmt_mm q = Ok NoChange <->
            exists fmt w h xd yd,
              measure fmt_mm q = Ok (fmt, w, h, xd, yd) /\
              below_threshold xd yd = Ok true).
  { intros q. split.
    - intros H. destruct (scale_page_inv _ _ _ H)
        as (fmt & w & h & xd & yd & small & Hq & Hs & Ho).
      destruct small.
      + exists fmt, w, h, xd, yd. split; assumption.
      + destruct Ho as (? & ? & ? & _ & _ & Ho). discriminate Ho.
    - intros (fmt & w & h & xd & yd & Hq & Hs).
      unfold scale_page. rewrite Hq. cbn [bind]. rewrite Hs. reflexivity. }
  rewrite !Hno, Hm. reflexivity.
Qed.

(** The example page, moved by (100, -50), is measured as before. *)
Lemma position_is_immaterial_witness :
  measure us_letter (moved 100 (-50) 0 0 595 842 example_page)
  = measure us_letter example_page.
Proof.
  exact (proj1 (position_is_immaterial us_letter example_page 0 0 595 842
                  100 (-50) eq_refl)).
Defined.

(** A page of no width and no height is never changed when the format in
    its units is finite: it is left alone, or the iteration raises, at the
    division by its size at the latest. *)
Theorem zero_size_page_not_changed (fmt_mm : format) (p : page) (fmt : format)
  (width height : number) (x_diff y_diff : decimal) :
  measure fmt_mm p = Ok (fmt, width, height, x_diff, y_diff) ->
  is_zero (to_decimal width) = true -> is_zero (to_decimal height) = true ->
  is_finite (fst fmt) = true -> is_finite (snd fmt) = true ->
  scale_page fmt_mm p = Ok NoChange \/ exists e, scale_page fmt_mm p = Raise e.
Proof.
  intros Hm Zw Zh F0 F1.
  assert (Hdiv : forall f z s, is_finite f = true -> is_zero z = true ->
            div f z = Ok s -> False).
  { intros f z s Hf Hz. unfold div.
    destruct f as [sf cf ef| | |]; try discriminate Hf.
    destruct z as [sz cz ez| | |]; try discriminate Hz.
    cbn [is_zero] in Hz. cbn [check_nans]. rewrite Hz.
    destruct (cf =? 0)%N; discriminate. }
  destruct (scale_page fmt_mm p) as [[|p']|e] eqn:H;
    [left; reflexivity| |right; exists e; reflexivity].
  exfalso.
  destruct (scale_page_inv _ _ _ H)
    as (fmt' & w & h & xd & yd & small & Hm' & _ & Hs).
  rewrite Hm in Hm'. injection Hm' as <- <- <- <- <-.
  destruct small; [discriminate Hs|].
  destruct Hs as (mb & s & t & _ & Hp & _).
  destruct (placement_inv _ _ _ _ _ _ _ _ _ Hp) as ([|] & _ & Hd & _).
  - exact (Hdiv _ _ _ F0 Zw Hd).
  - exact (Hdiv _ _ _ F1 Zh Hd).
Qed.

(** A page whose media box is a point, with US letter as the format. *)
Lemma zero_size_page_not_changed_witness :
  exists e,
    scale_page us_letter
      {| MediaBox := mkBox (Int 5) (Int 5) (Int 5) (Int 5);
         CropBox := None; BleedBox := None; TrimBox := None; ArtBox := None;
         UserUnit := None; Contents := [] |} = Raise e.
Proof.
  set (p := {| MediaBox := mkBox (Int 5) (Int 5) (Int 5) (Int 5);
               CropBox := None; BleedBox := None; TrimBox := None;
               ArtBox := None; UserUnit := None; Contents := [] |}).
  destruct (measure us_letter p) as [[[[[fmt w] h] xd] yd]|e] eqn:Hm.
  - destruct (zero_size_page_not_changed us_letter p fmt w h xd yd Hm)
      as [H|H].
    + vm_compute in Hm. injection Hm as _ <- _ _ _. reflexivity.
    + vm_compute in Hm. injection Hm as _ _ <- _ _. reflexivity.
    + vm_compute in Hm. injection Hm as <- _ _ _ _. reflexivity.
    + vm_compute in Hm. injection Hm as <- _ _ _ _. reflexivity.
    + vm_compute in H. discriminate H.
    + exact H.
  - vm_compute in Hm. discriminate Hm.
Defined.

(* ================================================================= *)
(** ** The placement of the content *)

Module CentringFacts.

Import DecimalFacts RoundingFacts.

(** The axis whose length is matched: the ends of the old box go to the
    ends of the new one. *)
Lemma binding_axis (lo hi w lo' hi' : number) (f diff nhi s a t : decimal) :
  modest (to_decimal lo) -> modest (to_decimal hi) -> modest f ->
  (1 <= to_Q (to_decimal hi) - to_Q (to_decimal lo))%Q ->
  nsub hi lo = Ok w ->
  sub (to_decimal w) f = Ok diff ->
  sub (to_decimal hi) diff = Ok nhi ->
  encode lo = Ok lo' ->
  encode (Dec nhi) = Ok hi' ->
  div f (to_decimal w) = Ok s ->
  mul (to_decimal lo) s = Ok a ->
  sub (to_decimal lo') a = Ok t ->
  tame 1058 s /\ (Qabs (to_Q s) <= 2000000)%Q /\
  tame 2058 t /\
  (Qabs (to_Q s * to_Q (to_decimal lo) + to_Q t - to_Q (to_decimal lo'))
   <= tolerance)%Q /\
  (Qabs (to_Q s * to_Q (to_decimal hi) + to_Q t - to_Q (to_decimal hi'))
   <= tolerance)%Q.
Proof.
  intros Mlo Mhi Mf Hsize Hw Hd Hn El Eh Hs Ha Ht.
  pose proof (modest_tame _ Mlo) as Tlo. pose proof (modest_bound _ Mlo) as Blo.
  pose proof (modest_tame _ Mhi) as Thi. pose proof (modest_bound _ Mhi) as Bhi.
  pose proof (modest_tame _ Mf) as Tf. pose proof (modest_bound _ Mf) as Bf.
  set (LO := to_Q (to_decimal lo)) in *. set (HI := to_Q (to_decimal hi)) in *.
  set (F := to_Q f) in *.
  pose proof Blo as Blo'. pose proof Bhi as Bhi'. pose proof Bf as Bf'.
  split_abs Blo'. split_abs Bhi'. split_abs Bf'.
  (* width *)
  destruct (nsub_abs hi lo w 1000 2000000 Thi Tlo ltac:(lia)) as [Tw Ew];
    [apply Qabs_Qle_condition; fold HI LO; lra|lra|exact Hw|].
  fold HI LO in Ew. set (W := to_Q (to_decimal w)) in *.
  pose proof Ew as Ew'. split_abs Ew'. unfold half_ulp in Ew'.
  (* scale *)
  destruct (div_abs f (to_decimal w) s 1000 1000 1000000 3000000 Tf Tw
              ltac:(lia) ltac:(lia)) as [Ts Es];
    [exact Bf|lra|apply Qabs_Qle_condition; fold W; lra|lra
    |fold W; intros E; rewrite E in Ew'; lra|exact Hs|].
  fold W F in Es. set (S := to_Q s) in *.
  pose proof Es as Es'. split_abs Es'. unfold ulp in Es'.
  assert (Bs : (Qabs S <= 2000000)%Q).
  { apply Qle_trans with (1100000 * (10 # 9))%Q; [|lra].
    apply (bound_quotient S W 1100000); [lra|]. apply Qabs_Qle_condition. lra. }
  (* the new upper end *)
  destruct (sub_abs (to_decimal w) f diff 1000 4000000 Tw Tf ltac:(lia))
    as [Td Ed]; [apply Qabs_Qle_condition; fold W F; lra|lra|exact Hd|].
  fold W F in Ed. set (DIFF := to_Q diff) in *.
  pose proof Ed as Ed'. split_abs Ed'. unfold half_ulp in Ed'.
  destruct (sub_abs (to_decimal hi) diff nhi 1000 6000000 Thi Td ltac:(lia))
    as [Tn En]; [apply Qabs_Qle_condition; fold HI DIFF; lra|lra|exact Hn|].
  fold HI DIFF in En. set (NHI := to_Q nhi) in *.
  pose proof En as En'. split_abs En'. unfold half_ulp in En'.
  (* the new box as it is stored *)
  destruct (StoreFacts.encode_abs lo lo' 1000 1000000 Tlo ltac:(lia) Blo
              ltac:(lra) El) as [Tlo' Elo].
  fold LO in Elo. set (LO' := to_Q (to_decimal lo')) in *.
  split_abs Elo.
  destruct (StoreFacts.encode_abs (Dec nhi) hi' 1000 7000000 Tn ltac:(lia))
    as [Thi' Ehi];
    [cbn [to_decimal]; apply Qabs_Qle_condition; fold NHI; lra|lra|exact Eh|].
  cbn [to_decimal] in Ehi. fold NHI in Ehi.
  set (HI' := to_Q (to_decimal hi')) in *.
  split_abs Ehi.
  (* translation *)
  destruct (mul_abs (to_decimal lo) s a 1000 1058 2000000000000 Tlo Ts
              ltac:(lia) ltac:(lia) ltac:(lia)) as [Ta Ea];
    [fold LO S; apply (Qabs_mul_le LO S 1000000 2000000 Blo Bs)|lra|exact Ha|].
  fold LO S in Ea. set (A := to_Q a) in *.
  pose proof Ea as Ea'. split_abs Ea'. unfold half_ulp in Ea'.
  pose proof (Qabs_mul_le LO S 1000000 2000000 Blo Bs) as Bls. split_abs Bls.
  destruct (sub_abs (to_decimal lo') a t 2058 3000000000000
              (tame_weaken _ 2058 _ Tlo' ltac:(lia)) Ta ltac:(lia))
    as [Tt Et]; [apply Qabs_Qle_condition; fold LO' A; lra|lra|exact Ht|].
  fold LO' A in Et. set (T := to_Q t) in *.
  pose proof Et as Et'. split_abs Et'. unfold half_ulp in Et'.
  (* the lost part of the width, scaled *)
  pose proof (Qabs_mul_le S (W - (HI - LO)) _ _ Bs Ew) as Bsw.
  split_abs Bsw. unfold half_ulp in Bsw.
  split; [exact Ts|]. split; [exact Bs|]. split; [exact Tt|].
  split; apply Qabs_Qle_condition; unfold tolerance; lra.
Qed.

(** The other axis: the old box, scaled, lies in the middle of the new
    one. *)
Lemma centred_axis (lo hi h lo' hi' : number)
  (g s diff nhi hs gap half up b t : decimal) :
  modest (to_decimal lo) -> modest (to_decimal hi) -> modest g ->
  tame 1058 s -> (Qabs (to_Q s) <= 2000000)%Q ->
  nsub hi lo = Ok h ->
  sub (to_decimal h) g = Ok diff ->
  sub (to_decimal hi) diff = Ok nhi ->
  encode lo = Ok lo' ->
  encode (Dec nhi) = Ok hi' ->
  mul (to_decimal h) s = Ok hs ->
  sub g hs = Ok gap ->
  div gap (of_int 2) = Ok half ->
  add (to_decimal lo') half = Ok up ->
  mul (to_decimal lo) s = Ok b ->
  sub up b = Ok t ->
  tame 2116 t /\
  (Qabs ((to_Q s * to_Q (to_decimal lo) + to_Q t - to_Q (to_decimal lo'))
         - (to_Q (to_decimal hi')
            - (to_Q s * to_Q (to_decimal hi) + to_Q t)))
   <= tolerance)%Q.
Proof.
  intros Mlo Mhi Mg Ts Bs Hh Hd Hn El Est Hhs Hgap Hhalf Hup Hb Ht.
  pose proof (modest_tame _ Mlo) as Tlo. pose proof (modest_bound _ Mlo) as Blo.
  pose proof (modest_tame _ Mhi) as Thi. pose proof (modest_bound _ Mhi) as Bhi.
  pose proof (modest_tame _ Mg) as Tg. pose proof (modest_bound _ Mg) as Bg.
  set (LO := to_Q (to_decimal lo)) in *. set (HI := to_Q (to_decimal hi)) in *.
  set (G := to_Q g) in *. set (S := to_Q s) in *.
  pose proof Blo as Blo'. pose proof Bhi as Bhi'. pose proof Bg as Bg'.
  split_abs Blo'. split_abs Bhi'. split_abs Bg'.
  (* height *)
  destruct (nsub_abs hi lo h 1000 2000000 Thi Tlo ltac:(lia)) as [Th Eh];
    [apply Qabs_Qle_condition; fold HI LO; lra|lra|exact Hh|].
  fold HI LO in Eh. set (H := to_Q (to_decimal h)) in *.
  pose proof Eh as Eh'. split_abs Eh'. unfold half_ulp in Eh'.
  assert (Bh : (Qabs H <= 3000000)%Q) by (apply Qabs_Qle_condition; lra).
  (* the new upper end *)
  destruct (sub_abs (to_decimal h) g diff 1000 4000000 Th Tg ltac:(lia))
    as [Td Ed]; [apply Qabs_Qle_condition; fold H G; lra|lra|exact Hd|].
  fold H G in Ed. set (DIFF := to_Q diff) in *.
  pose proof Ed as Ed'. split_abs Ed'. unfold half_ulp in Ed'.
  destruct (sub_abs (to_decimal hi) diff nhi 1000 6000000 Thi Td ltac:(lia))
    as [Tn En]; [apply Qabs_Qle_condition; fold HI DIFF; lra|lra|exact Hn|].
  fold HI DIFF in En. set (NHI := to_Q nhi) in *.
  pose proof En as En'. split_abs En'. unfold half_ulp in En'.
  (* the new box as it is stored *)
  destruct (StoreFacts.encode_abs lo lo' 1000 1000000 Tlo ltac:(lia) Blo
              ltac:(lra) El) as [Tlo' Elo].
  fold LO in Elo. set (LO' := to_Q (to_decimal lo')) in *.
  split_abs Elo.
  destruct (StoreFacts.encode_abs (Dec nhi) hi' 1000 7000000 Tn ltac:(lia))
    as [Thi' Ehi];
    [cbn [to_decimal]; apply Qabs_Qle_condition; fold NHI; lra|lra
    |exact Est|].
  cbn [to_decimal] in Ehi. fold NHI in Ehi.
  set (HI' := to_Q (to_decimal hi')) in *.
  split_abs Ehi.
  (* the scaled height and the gap *)
  pose proof (Qabs_mul_le H S 3000000 2000000 Bh Bs) as Bhs.
  destruct (mul_abs (to_decimal h) s hs 1000 1058 6000000000000 Th Ts
              ltac:(lia) ltac:(lia) ltac:(lia)) as [Ths Ehs];
    [fold H S; lra|lra|exact Hhs|].
  fold H S in Ehs. set (HS := to_Q hs) in *.
  pose proof Ehs as Ehs'. split_abs Ehs'. unfold half_ulp in Ehs'.
  split_abs Bhs.
  destruct (sub_abs g hs gap 2058 7000000000000
              (tame_weaken _ 2058 _ Tg ltac:(lia)) Ths ltac:(lia))
    as [Tgap Egap]; [apply Qabs_Qle_condition; fold G HS; lra|lra|exact Hgap|].
  fold G HS in Egap. set (GAP := to_Q gap) in *.
  pose proof Egap as Egap'. split_abs Egap'. unfold half_ulp in Egap'.
  assert (Bgap : (Qabs GAP <= 8000000000000)%Q)
    by (apply Qabs_Qle_condition; lra).
  destruct (div_abs gap (of_int 2) half 2058 0 8000000000000 2 Tgap
              (tame_of_int 2 0 ltac:(lia)) ltac:(lia) ltac:(lia))
    as [Thalf Ehalf];
    [exact Bgap|lra|rewrite to_Q_of_int; discriminate|lra
    |rewrite to_Q_of_int; discriminate|exact Hhalf|].
  fold GAP in Ehalf. rewrite to_Q_of_int in Ehalf.
  change (inject_Z 2) with 2%Q in Ehalf. set (HALF := to_Q half) in *.
  pose proof Ehalf as Ehalf'. split_abs Ehalf'. unfold ulp in Ehalf'.
  (* the translation *)
  destruct (add_abs (to_decimal lo') half up 2116 5000000000000
              (tame_weaken _ 2116 _ Tlo' ltac:(lia)) Thalf ltac:(lia))
    as [Tup Eup]; [apply Qabs_Qle_condition; fold LO' HALF; lra|lra|exact Hup|].
  fold LO' HALF in Eup. set (UP := to_Q up) in *.
  pose proof Eup as Eup'. split_abs Eup'. unfold half_ulp in Eup'.
  pose proof (Qabs_mul_le LO S 1000000 2000000 Blo Bs) as Bls.
  destruct (mul_abs (to_decimal lo) s b 1000 1058 2000000000000 Tlo Ts
              ltac:(lia) ltac:(lia) ltac:(lia)) as [Tb Eb];
    [fold LO S; lra|lra|exact Hb|].
  fold LO S in Eb. set (B := to_Q b) in *.
  pose proof Eb as Eb'. split_abs Eb'. unfold half_ulp in Eb'.
  split_abs Bls.
  destruct (sub_abs up b t 2116 8000000000000 Tup
              (tame_weaken _ 2116 _ Tb ltac:(lia)) ltac:(lia))
    as [Tt Et]; [apply Qabs_Qle_condition; fold UP B; lra|lra|exact Ht|].
  fold UP B in Et. set (T := to_Q t) in *.
  pose proof Et as Et'. split_abs Et'. unfold half_ulp in Et'.
  (* the lost part of the height, scaled *)
  pose proof (Qabs_mul_le S (H - (HI - LO)) _ _ Bs Eh) as Bsh.
  split_abs Bsh. unfold half_ulp in Bsh.
  split; [exact Tt|].
  apply Qabs_Qle_condition. unfold tolerance. lra.
Qed.

Lemma tame_is_finite (K : Z) (d : decimal) : tame K d -> is_finite d = true.
Proof. destruct d; cbn; tauto. Qed.

Lemma width_bound_inv (fmt : format) (height : number) (s : decimal)
  (old_box new_box : box) (tx ty : decimal) :
  width_bound_translation fmt height s old_box new_box = Ok (tx, ty) ->
  exists a hs gap half up b,
    mul (to_decimal (x0 old_box)) s = Ok a /\
    sub (to_decimal (x0 new_box)) a = Ok tx /\
    mul (to_decimal height) s = Ok hs /\
    sub (snd fmt) hs = Ok gap /\
    div gap (of_int 2) = Ok half /\
    add (to_decimal (y0 new_box)) half = Ok up /\
    mul (to_decimal (y0 old_box)) s = Ok b /\
    sub up b = Ok ty.
Proof.
  unfold width_bound_translation. intros H.
  destruct (mul (to_decimal (x0 old_box)) s) as [a|] eqn:E1;
    [cbn [bind] in H|discriminate H].
  destruct (sub (to_decimal (x0 new_box)) a) as [tx'|] eqn:E2;
    [cbn [bind] in H|discriminate H].
  destruct (mul (to_decimal height) s) as [hs|] eqn:E3;
    [cbn [bind] in H|discriminate H].
  destruct (sub (snd fmt) hs) as [gap|] eqn:E4;
    [cbn [bind] in H|discriminate H].
  destruct (div gap (of_int 2)) as [half|] eqn:E5;
    [cbn [bind] in H|discriminate H].
  destruct (add (to_decimal (y0 new_box)) half) as [up|] eqn:E6;
    [cbn [bind] in H|discriminate H].
  destruct (mul (to_decimal (y0 old_box)) s) as [b|] eqn:E7;
    [cbn [bind] in H|discriminate H].
  destruct (sub up b) as [ty'|] eqn:E8; [cbn [bind] in H|discriminate H].
  injection H as <- <-. exists a, hs, gap, half, up, b.
  repeat split; assumption.
Qed.

Lemma height_bound_inv (fmt : format) (width : number) (s : decimal)
  (old_box new_box : box) (tx ty : decimal) :
  height_bound_translation fmt width s old_box new_box = Ok (tx, ty) ->
  exists ws gap half right a b,
    mul (to_decimal width) s = Ok ws /\
    sub (fst fmt) ws = Ok gap /\
    div gap (of_int 2) = Ok half /\
    add (to_decimal (x0 new_box)) half = Ok right /\
    mul (to_decimal (x0 old_box)) s = Ok a /\
    sub right a = Ok tx /\
    mul (to_decimal (y0 old_box)) s = Ok b /\
    sub (to_decimal (y0 new_box)) b = Ok ty.
Proof.
  unfold height_bound_translation. intros H.
  destruct (mul (to_decimal width) s) as [ws|] eqn:E1;
    [cbn [bind] in H|discriminate H].
  destruct (sub (fst fmt) ws) as [gap|] eqn:E2;
    [cbn [bind] in H|discriminate H].
  destruct (div gap (of_int 2)) as [half|] eqn:E3;
    [cbn [bind] in H|discriminate H].
  destruct (add (to_decimal (x0 new_box)) half) as [right|] eqn:E4;
    [cbn [bind] in H|discriminate H].
  destruct (mul (to_decimal (x0 old_box)) s) as [a|] eqn:E5;
    [cbn [bind] in H|discriminate H].
  destruct (sub right a) as [tx'|] eqn:E6; [cbn [bind] in H|discriminate H].
  destruct (mul (to_decimal (y0 old_box)) s) as [b|] eqn:E7;
    [cbn [bind] in H|discriminate H].
  destruct (sub (to_decimal (y0 new_box)) b) as [ty'|] eqn:E8;
    [cbn [bind] in H|discriminate H].
  injection H as <- <-. exists ws, gap, half, right, a, b.
  repeat split; assumption.
Qed.

End CentringFacts.

Import RoundingFacts CentringFacts.

(** The scale and the translation that the loop computes for a page it
    changes, as the Decimals they are before the matrix is made of them,
    place the old media box in the new one as it is stored: along the
    axis that is matched, [p -> s * p + t] takes the two ends of the old
    box to the two ends of the new one, and along the other axis the old
    box, transformed, has the same distance to both ends of the new one,
    all within 10^-7 units.  This holds for coordinates and a target below
    10^6 units with at most 1000 decimals and a page at least one unit
    wide and high. *)
Theorem placement_fits_new_box (fmt_mm : format) (p p' : page) (fmt : format)
  (width height : number) (x_diff y_diff : decimal) :
  measure fmt_mm p = Ok (fmt, width, height, x_diff, y_diff) ->
  modest_box (MediaBox p) -> modest (fst fmt) -> modest (snd fmt) ->
  (1 <= coordinate (x1 (MediaBox p)) - coordinate (x0 (MediaBox p)))%Q ->
  (1 <= coordinate (y1 (MediaBox p)) - coordinate (y0 (MediaBox p)))%Q ->
  scale_page fmt_mm p = Ok (Changed p') ->
  exists s tx ty,
    match cmp x_diff y_diff with
    | Gt =>
        div (fst fmt) (to_decimal width) = Ok s /\
        width_bound_translation fmt height s (MediaBox p) (MediaBox p')
        = Ok (tx, ty)
    | _ =>
        div (snd fmt) (to_decimal height) = Ok s /\
        height_bound_translation fmt width s (MediaBox p) (MediaBox p')
        = Ok (tx, ty)
    end /\
    is_finite s = true /\ is_finite tx = true /\ is_finite ty = true /\
    match cmp x_diff y_diff with
    | Gt =>
        fills s tx (x0 (MediaBox p)) (x1 (MediaBox p))
          (x0 (MediaBox p')) (x1 (MediaBox p')) /\
        centred s ty (y0 (MediaBox p)) (y1 (MediaBox p))
          (y0 (MediaBox p')) (y1 (MediaBox p'))
    | _ =>
        centred s tx (x0 (MediaBox p)) (x1 (MediaBox p))
          (x0 (MediaBox p')) (x1 (MediaBox p')) /\
        fills s ty (y0 (MediaBox p)) (y1 (MediaBox p))
          (y0 (MediaBox p')) (y1 (MediaBox p'))
    end.
Proof.
  intros Hm (Mx0 & My0 & Mx1 & My1) Mf0 Mf1 Sx Sy H.
  destruct (scale_page_inv _ _ _ H)
    as (fmt' & w & h & xd & yd & small & Hm' & _ & Hs).
  rewrite Hm in Hm'. injection Hm' as <- <- <- <- <-.
  destruct (measure_inv _ _ _ _ _ _ _ Hm) as (_ & _ & Hw & Hh & Hxd & Hyd).
  destruct small; [discriminate Hs|].
  destruct Hs as (mb & s & [tx ty] & Hr & Hp & Ho). injection Ho as ->.
  destruct (resized_box_inv _ _ _ _ Hr)
    as (nx1 & ny1 & nx0' & ny0' & nx1' & ny1'
        & Hx & Hy & S0 & S1 & S2 & S3 & ->).
  destruct (placement_inv _ _ _ _ _ _ _ _ _ Hp) as (wider & Hg & Hsel).
  apply gt_strict in Hg.
  exists s, tx, ty. cbn [Contents MediaBox x0 y0 x1 y1].
  unfold fills, centred, image, coordinate in *.
  destruct wider.
  - destruct Hsel as [Hdiv Ht].
    destruct (width_bound_inv _ _ _ _ _ _ _ Ht)
      as (a & hs & gap & half & up & b & E1 & E2 & E3 & E4 & E5 & E6 & E7 & E8).
    cbn [x0 y0] in E2, E6.
    destruct (binding_axis _ _ _ _ _ _ _ _ _ _ _ Mx0 Mx1 Mf0 Sx Hw Hxd Hx
                S0 S2 Hdiv E1 E2)
      as (Ts & Bs & Ttx & G1 & G2).
    destruct (centred_axis _ _ _ _ _ _ _ _ _ _ _ _ _ _ _ My0 My1 Mf1 Ts Bs
                Hh Hyd Hy S1 S3 E3 E4 E5 E6 E7 E8) as (Tty & G3).
    destruct (cmp x_diff y_diff); try discriminate Hg.
    split; [split; [exact Hdiv|exact Ht]|].
    split; [exact (tame_is_finite _ _ Ts)|].
    split; [exact (tame_is_finite _ _ Ttx)|].
    split; [exact (tame_is_finite _ _ Tty)|].
    split; [split; [exact G1|exact G2]|exact G3].
  - destruct Hsel as [Hdiv Ht].
    destruct (height_bound_inv _ _ _ _ _ _ _ Ht)
      as (ws & gap & half & right & a & b
          & E1 & E2 & E3 & E4 & E5 & E6 & E7 & E8).
    cbn [x0 y0] in E4, E8.
    destruct (binding_axis _ _ _ _ _ _ _ _ _ _ _ My0 My1 Mf1 Sy Hh Hyd Hy
                S1 S3 Hdiv E7 E8)
      as (Ts & Bs & Tty & G1 & G2).
    destruct (centred_axis _ _ _ _ _ _ _ _ _ _ _ _ _ _ _ Mx0 Mx1 Mf0 Ts Bs
                Hw Hxd Hx S0 S2 E1 E2 E3 E4 E5 E6) as (Ttx & G3).
    destruct (cmp x_diff y_diff); try discriminate Hg;
      (split; [split; [exact Hdiv|exact Ht]|];
       split; [exact (tame_is_finite _ _ Ts)|];
       split; [exact (tame_is_finite _ _ Ttx)|];
       split; [exact (tame_is_finite _ _ Tty)|];
       split; [exact G3|split; [exact G1|exact G2]]).
Qed.

(** The example page, scaled to US letter: matched in width, centred in
    height. *)
Lemma placement_fits_new_box_witness :
  exists p' s tx ty,
    scale_page us_letter example_page = Ok (Changed p') /\
    fills s tx (Int 0) (Int 595) (x0 (MediaBox p')) (x1 (MediaBox p')) /\
    centred s ty (Int 0) (Int 842) (y0 (MediaBox p')) (y1 (MediaBox p')).
Proof.
  destruct (measure us_letter example_page) as [[[[[fmt w] h] xd] yd]|e] eqn:Hm.
  2:{ vm_compute in Hm. discriminate Hm. }
  destruct (scale_page us_letter example_page) as [[|p']|e] eqn:H.
  - vm_compute in H. discriminate H.
  - assert (Hc : cmp xd yd = Gt).
    { vm_compute in Hm. injection Hm as _ _ _ <- <-. reflexivity. }
    destruct (placement_fits_new_box us_letter example_page p' fmt w h xd yd Hm)
      as (s & tx & ty & _ & _ & _ & _ & Hpl).
    + repeat split; vm_compute; discriminate.
    + vm_compute in Hm. injection Hm as <- _ _ _ _.
      split; vm_compute; discriminate.
    + vm_compute in Hm. injection Hm as <- _ _ _ _.
      split; vm_compute; discriminate.
    + vm_compute. discriminate.
    + vm_compute. discriminate.
    + exact H.
    + rewrite Hc in Hpl. exists p', s, tx, ty.
      split; [reflexivity|]. exact Hpl.
  - vm_compute in H. discriminate H.
Defined.
